(* ===== verification/_CoqProject ===== *)
-Q . S2P
Prelude.v
Rect.v
Scoreboard.v
Entities.v
Player.v
Level.v
GameSpec.v
Game.v
Render.v
Program.v
PyRandom.v
