(* ===== verification/Prelude.v ===== *)
(** * A verified model of the Shooter arcade game (src/main.py)

    ** The program

    [src/main.py] is a single-file pygame shooter.  Its parts are:
    - [Scoreboard] (lines 319-338): two integer counters, [score] and
      [lives], with [increase_score] (+10), [decrease_life] (-1) and the
      predicate [is_game_over] ([lives <= 0]).
    - The sprites [Bullet] (186-199), [Enemy] (202-221), [Obstacle]
      (224-231): a pygame [Rect] each, plus a speed for the moving ones.
      [Bullet.update] moves up by 7 and kills the bullet once its bottom is
      above the screen; [Enemy.update] moves down by its speed (drawn by
      [random.randint(1, 3)] at creation) and, when its top passes the
      bottom of the screen, is recycled to a random position above it.
    - [Player] (142-183): a 50x50 rect at (400, 540), speed 5 and a sprite
      group of bullets; [handle_keys] moves it by 5 per held arrow key when
      the corresponding edge is still strictly inside the screen and shoots
      on SPACE; [update] updates the bullets; [reset] recentres it and
      keeps the bullets.
    - [Level] and its subclasses [Level1..3] (234-316): the enemy and
      obstacle groups and [all_sprites], which holds both again;
      [update] = enemies' update, player's update, [check_collisions],
      [spawn_enemies]; [draw] draws the three groups.
    - [Game] (24-139): the three levels, the index of the current one,
      player, scoreboard and the flags [running], [game_over], [won],
      [show_instructions]; [run] is the frame loop: events, then (when
      playing) keys, level update and the game-over / win / level-advance
      checks, then drawing; [draw] and the [display_*] methods (72-135)
      paint the instructions, the end screens with their buttons, or the
      level, player, scoreboard and level number.

    ** Files of this development (in dependency order)

    - [Prelude] (this file): the notation scope [shooter_scope] with the
      bind notation [let! x := m in k]; the random-number interface
      [RandomSource] / [RandomLaws] (Python's [random] as the game uses it:
      [randint a b = a + _randbelow (b - a + 1)]) with a concrete
      generator [lcg]; the state monad [Rand] threading the generator
      state, with [rmapM], [rrepeat], [rfoldM] for the code's loops; the
      closure [star] of a step relation (Section [Star]); the hint
      database [shooter]; the tactics [rand_simpl] and [zlia]; generic
      lemmas on these loops, [omap], [list_find] and [delete].
    - [Rect]: pygame's [Rect] (x, y, w, h as [Z]), the edges the game
      reads, [colliderect] (pygame 2's test, sizes of any sign),
      [collidepoint], and [spritecollideany] over a group given as a list,
      against the class [HasRect] (the sprite interface: a [.rect]).
    - [Scoreboard]: Module [Scoreboard] ([Scoreboard] class).
    - [Entities]: Modules [Bullet], [Enemy], [Obstacle].
    - [Player]: the [Keys] record (what [pygame.key.get_pressed()] returns
      for the five keys read) and Module [Player].
    - [Level]: Module [Level]: [Level], [Level1..3], the [all_sprites]
      group ([kind] tags resolved to the sprites by [Level.sprites]) and
      the collision and spawning code.
    - [GameSpec]: Module [GameSpec], the controller contract of spec
      sections 4.4 and 5 on (mode, score, lives, level, running): a step
      relation labelled by the input that causes each transition (key
      press, "play again", "exit", quit, tick), the contract of one
      frame ([frame_step]: the frame's inputs in order, each taken where
      its mode enables it, then one tick when playing), and the
      reachable-state invariant.
    - [Game]: Module [Game]: [Game], its event handling, the playing tick,
      one frame, the loop; the invariant [wf]; the abstraction [abs] of
      states and [event_label] of events to [GameSpec], and the
      refinement theorems.
    - [Render]: Module [Render]: the colours, the sprites' images, and
      every draw method as the list of drawing calls it makes
      ([Render.draw] is [Game.draw]); the loop with its drawing
      ([Render.run_drawn]) and the program's entry point ([Render.main]).
    - [Program]: Module [Program]: the whole program as an interaction
      tree over its pygame calls ([IO]): the module's setup, [Game()],
      the unbounded [while self.running] loop as [ITree.iter] of one
      iteration, and [pygame.quit()]; [drive] runs a tree against a
      script of inputs and records the calls.

    - [PyRandom]: Module [PyRandom]: CPython's [random] as the game
      uses it: the Mersenne Twister MT19937 on 32-bit words
      ([random.seed], [genrand_uint32]), [getrandbits], the rejection
      loop of [_randbelow], [randrange] and [randint] with their
      [ValueError]; the generator [PyRandom.gen] is a [RandomSource]
      instance satisfying [RandomLaws], so every theorem of the game
      holds for it.

    Each component's operations are stated against the interfaces they
    use: the theorems of [Entities], [Level] and [Game] hold for every
    [RandomSource] that satisfies [RandomLaws] (Sections with [Context]),
    and [Level] reaches sprites only through [HasRect].

    ** How the code is modelled

    Objects become records and methods become functions returning the new
    record.  Mutation of a shared object is written as state passing: the
    level's [update] takes and returns the player and the scoreboard it
    mutates.  Python's [self.current_level] is always the same object as
    [self.levels[self.current_level_index]] (both are assigned together),
    so the model keeps only [levels] and the index and writes the updated
    level back at the index: reading the current level is [levels !! i],
    an [option], and the [IndexError] the Python code would raise is the
    [None] branch.  A pygame sprite group is a list in insertion order
    (pygame iterates a dict, so insertion order); [kill] of the sprite
    found by [spritecollideany] at index [i] is [delete i]; iteration over
    a group iterates a snapshot copy, as pygame's [Group.__iter__] does.
    All randomness goes through [RandomSource]: every operation that calls
    [random.randint] is a [Rand] computation, and the draws happen in the
    order of the Python evaluation (arguments left to right, then the
    speed inside [Enemy.__init__]).  Two concrete generators make every
    definition executable: a small [lcg] on which most witnesses
    evaluate, and CPython's own ([PyRandom.seeded a] is
    [random.seed(a)]), on which the model reproduces Python 3.11's
    draws and its [Level1()] exactly (the examples of [PyRandom]).
    [Level.all_sprites] shares its objects with [enemies] and
    [obstacles]: the model records the kind of each member in insertion
    order, and the [n]-th enemy entry is the [n]-th enemy, so adding to
    and killing from both groups keeps the aliasing the code has.  A
    frame's picture is the list of calls [screen.fill], [screen.blit],
    [pygame.draw.rect] and [pygame.display.flip] in the order they are
    made; a rendered text is its string, colour and position.

    ** What the theorems show (claim ids C1..C36 in the doc comments)

    - The controller ([Game]): every frame refines the contract of spec
      sections 4.4 and 5 on that frame's own inputs ([frame_refines],
      C1), so lives and the level index are restored only by a click on
      "Play Again" ([run_lives_without_play_again], C8); every state of
      a session is a reachable contract state, so its level index is at
      most 2, its score a non-negative multiple of 10 and its lives in
      [-1, 3] ([session_reachable], C2); a tick's effect, branch by
      branch ([tick_spec], C3).
    - Invariants and bounds over runs: without a click the score only
      grows by tens, lives only fall and the level index only grows
      (C7); the bullet group never holds more than 81 bullets (C10), a
      bound a real session reaches ([Game.bullet_bound_reached]), and no
      level more than 10 enemies (C11); obstacles never change (C18);
      every sprite's rect stays in the box [0, 800] x [-100, 650] (C31),
      so pygame's C-int fields never overflow; [all_sprites] always
      holds exactly the live enemies and the obstacles, each once (C33).
    - Liveness: an obstacle on the spawn point ends the level within as
      many frames as lives left, whatever keys are held (C9), and
      [Game()] seeded at 7 builds such a level; a [QUIT] with no later
      click (C16) and a click on Exit (C17) stop the loop, and the
      program then draws that frame, ticks the clock and calls
      [pygame.quit()] (C30); a [QUIT] changes nothing else: up to
      [running], the frame computes the same game as without it (C32,
      through [Proper] instances of [handle_event], [tick] and [frame]
      for [eq_but_running]).
    - The [elif] chain and the screens: play moves the counters by at
      most one tick's worth (C13); the end screens are frozen without a
      click (C14); the advance happens in the tick that reaches the
      threshold (C15) and puts the player at the spawn point (C28); the
      instructions screen waits for a key (C27).
    - The level ([Level]): [update] (C4) and the bullet loop (C5) on
      every branch; the constructors' sizes (C26); the player collision
      check against the plain overlap test (C29).
    - The sprites: the on-screen invariant of [handle_keys] (C6), the
      bullet lifetime and its expiry boundary (C22), enemy recycling
      (C24, C25).
    - The screen ([Render]): the program ([main]: [Game()], then the
      loop that draws after every frame) never fails, and any lives
      count it shows is in [1, 3] (C34); every image it blits is blitted
      at a rect of its own size (C35); while playing, each enemy and
      obstacle is drawn twice (C36, a finding).
    - The generator ([PyRandom]): with CPython's Mersenne Twister,
      [Level.random_enemy] makes exactly CPython's three [randint] calls
      in the order of the source (C12).  Lemmas of [PyRandom], not
      claims since they are about the library: the state stays in 32-bit
      words ([generator_words]), the three regeneration loops equal one
      loop modulo 624 ([twist_equiv]), and [randint] raises [ValueError]
      exactly on an empty range ([randint_spec]).
    - The program ([Program]): the interaction tree of [main] makes,
      against any script, the three setup calls and then exactly the
      calls of the frame-by-frame reference [run_io] (the lemma
      [main_run_io]); run from [Game()] it never raises [IndexError],
      shows exactly the pictures of the drawn loop, and ends by running
      out of script or by [pygame.quit()] (C23).
    - Findings, as general theorems: when an enemy hits the player and
      an obstacle covers the spawn point, one update takes two lives,
      from 1 to -1 (C19); an obstacle on the spawn point costs a life
      every tick (C20); a [QUIT] is lost when Play Again follows in the
      same frame (C21); [spawn_enemies] replaces one enemy per tick, so
      two kills leave four enemies (the count formula of C4).

    ** Bounds and fuel

    Coordinates and counters are Python integers, so they are [Z] with no
    wrap-around; pygame stores a [Rect]'s fields as C [int]s, and C31
    shows every sprite's rect stays in a small box, so no wrap-around is
    possible there either.  The only loop without a structural bound is
    [while self.running].  [Game.run] and [Render.run_drawn] recurse on a
    finite list of frames (any finite prefix of an execution), and the
    liveness theorems say how many frames suffice.  [Program.loop] is
    the loop itself, an interaction tree that need not end; [drive]
    runs it with fuel, and five steps per frame are enough ([main_run_io]): one
    for [event.get()], one for [get_pressed()], one for the picture, one
    for [clock.tick] and one for the next iteration, plus the exit and
    [pygame.quit()].  The
    bullet bound 81 comes from [Player.BULLET_CEIL] = 563, the highest
    bottom a bullet can have after the tick that fired it (the player's
    top is at most 550, a bullet is 20 high and moves 7 per tick): the
    bullets are then at least 7 pixels apart per younger bullet
    ([Player.spaced]), and none has its bottom above the screen.

    ** Not modelled

    Fonts and pixels: a text is drawn as its string, colour and position,
    not rasterised, and an image is its size and the shapes drawn on it.
    The window and clock calls are events of [Program.IO] with no
    answer the game reads; the font objects ([SysFont]) are not
    modelled.  [pygame.mouse.get_pos()] is taken to return the position
    of the [MOUSEBUTTONDOWN] event being handled.  The generator of the
    game is CPython's but its rejection loop is cut after
    [PyRandom.RETRIES] = 1000 redraws, after which the instance returns
    0 where CPython would keep drawing; every draw is accepted with
    probability above 1/2.  The program seeds [random] from
    [os.urandom]: that is an arbitrary generator state, and the theorems
    hold for all of them.

    ** Open directions

    Scenarios on real sessions from [Game()] for the spec's section 8
    on CPython's generator (their general forms are C3 and C15); the
    button labels lying inside the button rects that [handle_event]
    tests; traces of [Program.main] across a "Play Again". *)

From stdpp Require Export base list.
From Stdlib Require Export ZArith Lia.

Declare Scope shooter_scope.
Delimit Scope shooter_scope with shooter.
Open Scope Z_scope.

(** ** Python's [random], as an interface *)

(** [random.randint(a, b)] is [a + self._randbelow(b - a + 1)] in CPython;
    [_randbelow n] is the primitive the generator provides. *)
Class RandomSource (G : Type) := randbelow : Z -> G -> Z * G.

Class RandomLaws (G : Type) `{RandomSource G} :=
  randbelow_range : forall n g, 0 < n -> 0 <= (randbelow n g).1 < n.

(** ** A state monad over the generator *)

Definition Rand (G A : Type) : Type := G -> A * G.

Definition rret {G A} (x : A) : Rand G A := fun g => (x, g).

Definition rbind {G A B} (m : Rand G A) (k : A -> Rand G B) : Rand G B :=
  fun g => let '(x, g') := m g in k x g'.

Notation "'let!' x ':=' m 'in' k" := (rbind m (fun x => k))
  (at level 10, x name, m at level 100, k at level 200) : shooter_scope.

Open Scope shooter_scope.

Definition randint {G} `{RandomSource G} (a b : Z) : Rand G Z :=
  let! r := randbelow (b - a + 1) in rret (a + r).

(** Monadic map, in list order: Python's [for s in group: s.update()]. *)
Fixpoint rmapM {G A B} (f : A -> Rand G B) (l : list A) : Rand G (list B) :=
  match l with
  | [] => rret []
  | x :: l' => let! y := f x in let! ys := rmapM f l' in rret (y :: ys)
  end.

(** Run an action [n] times, collecting the results in order:
    [for i in range(n): ...]. *)
Fixpoint rrepeat {G A} (n : nat) (m : Rand G A) : Rand G (list A) :=
  match n with
  | O => rret []
  | S n' => let! x := m in let! xs := rrepeat n' m in rret (x :: xs)
  end.

(** Monadic left fold: a [for] loop over a list that threads a state. *)
Fixpoint rfoldM {G A B} (f : A -> B -> Rand G A) (a : A) (l : list B) : Rand G A :=
  match l with
  | [] => rret a
  | x :: l' => let! a' := f a x in rfoldM f a' l'
  end.

(** A concrete generator, so that every model computes: a linear
    congruential generator on [Z]. *)
Definition lcg_next (s : Z) : Z := (s * 1103515245 + 12345) mod 2147483648.

#[export] Instance lcg : RandomSource Z :=
  fun n s => (s mod n, lcg_next s).

#[export] Instance lcg_laws : RandomLaws Z.
Proof. intros n g Hn. simpl. apply Z.mod_pos_bound. exact Hn. Qed.

(** Two results of [Rand] computations: values related by [R], the same
    generator state. *)
Definition rand_rel {G A} (R : relation A) : relation (A * G) :=
  fun x y => R x.1 y.1 /\ x.2 = y.2.

(** ** Automation *)

Create HintDb shooter.

Ltac rand_simpl :=
  cbn [rbind rret rmapM rrepeat] in *.

(** [lia] after making the Euclidean equations of [/] and [mod] explicit:
    plain [lia] misses facts such as [x mod 5 = 0 -> 0 < x -> 5 <= x]. *)
Ltac zlia := Z.to_euclidean_division_equations; lia.

(** ** Generic lemmas on the monad *)

Section RandFacts.
Context {G : Type} `{RandomLaws G}.

(** The value of [randint a b] lies in [a, b] whenever [a <= b]. *)
Lemma randint_range (a b : Z) (g : G) :
  a <= b -> a <= (randint a b g).1 <= b.
Proof.
  intros Hab. unfold randint, rbind, rret.
  pose proof (randbelow_range (b - a + 1) g ltac:(lia)) as Hr.
  destruct (randbelow (b - a + 1) g) as [r g']; simpl in *. lia.
Qed.

Lemma rmapM_length {A B} (f : A -> Rand G B) (l : list A) (g : G) :
  length (rmapM f l g).1 = length l.
Proof.
  revert g. induction l as [|x l IH]; intros g; [done|].
  simpl. unfold rbind, rret. destruct (f x g) as [y g1].
  specialize (IH g1). destruct (rmapM f l g1) as [ys g2]. simpl in *. lia.
Qed.

(** Every result of [rmapM f l] is the result of [f] on the element at
    the same index. *)
Lemma rmapM_Forall2 {A B} (R : A -> B -> Prop) (f : A -> Rand G B)
    (l : list A) (g : G) :
  (forall x g', R x (f x g').1) -> Forall2 R l (rmapM f l g).1.
Proof.
  intros Hf. revert g. induction l as [|x l IH]; intros g; simpl; [constructor|].
  unfold rbind, rret. specialize (Hf x g). destruct (f x g) as [y g1].
  specialize (IH g1). destruct (rmapM f l g1) as [ys g2]. simpl in *.
  constructor; done.
Qed.

(** A loop body that keeps an invariant [P] and moves along a preorder
    [R] does so for the whole loop. *)
Lemma rfoldM_inv {A B} (P : A -> Prop) (R : A -> A -> Prop)
    `{!Reflexive R} `{!Transitive R} (f : A -> B -> Rand G A) (l : list B) :
  (forall a b g, P a -> P (f a b g).1 /\ R a (f a b g).1) ->
  forall a g, P a -> P (rfoldM f a l g).1 /\ R a (rfoldM f a l g).1.
Proof.
  intros Hf. induction l as [|x l IH]; intros a g Ha; simpl.
  - split; [exact Ha | reflexivity].
  - unfold rbind. specialize (Hf a x g Ha). destruct (f a x g) as [a' g'].
    simpl in Hf. destruct Hf as [Ha' HR]. destruct (IH a' g' Ha') as [HP HR'].
    split; [exact HP | etransitivity; eassumption].
Qed.

Lemma rfoldM_invariant {A B} (P : A -> Prop) (f : A -> B -> Rand G A) (l : list B) :
  (forall a b g, P a -> P (f a b g).1) -> forall a g, P a -> P (rfoldM f a l g).1.
Proof.
  intros Hf. induction l as [|x l IH]; intros a g Ha; simpl; [exact Ha|].
  unfold rbind. specialize (Hf a x g Ha). destruct (f a x g) as [a' g']. exact (IH a' g' Hf).
Qed.

Lemma rfoldM_app {A B} (f : A -> B -> Rand G A) (a : A) (l1 l2 : list B) (g : G) :
  rfoldM f a (l1 ++ l2) g = let '(a', g') := rfoldM f a l1 g in rfoldM f a' l2 g'.
Proof.
  revert a g. induction l1 as [|x l1 IH]; intros a g; [done|].
  simpl. unfold rbind. destruct (f a x g) as [a' g']. apply IH.
Qed.

(** A loop whose body respects a relation [R] on its state (same
    element, same generator state) respects it as a whole. *)
#[global] Instance rfoldM_proper {A B} (R : relation A) (f : A -> B -> Rand G A) :
  Proper (R ==> eq ==> eq ==> rand_rel R) f ->
  Proper (R ==> eq ==> eq ==> rand_rel R) (rfoldM f).
Proof.
  intros Hf a a' Ha l ? <-. revert a a' Ha. induction l as [|x l IH]; intros a a' Ha g ? <-; simpl; [done|].
  unfold rbind. pose proof (Hf a a' Ha x x eq_refl g g eq_refl) as Hx.
  destruct (f a x g) as [b1 g1], (f a' x g) as [b2 g2]. destruct Hx as [Hb Hg]. simpl in Hb, Hg. subst g2.
  by apply IH.
Qed.

(** A loop whose body adds one to a measure [m] adds the number of its
    iterations. *)
Lemma rfoldM_measure {A B} (m : A -> nat) (f : A -> B -> Rand G A) (l : list B) :
  (forall a b g, m (f a b g).1 = S (m a)) ->
  forall a g, m (rfoldM f a l g).1 = (m a + length l)%nat.
Proof.
  intros Hf. induction l as [|x l IH]; intros a g; simpl; [lia|].
  unfold rbind. specialize (Hf a x g). destruct (f a x g) as [a' g']. simpl in Hf.
  rewrite IH, Hf. lia.
Qed.

(** [for _ in range(n): x = m; add(x)] draws as [rrepeat n m] does and
    adds the results in order. *)
Lemma rfoldM_seq_rrepeat {A B} (m : Rand G B) (add : B -> A -> A) (n start : nat) (a : A) (g : G) :
  rfoldM (fun l _ => let! x := m in rret (add x l)) a (seq start n) g =
  let '(xs, g') := rrepeat n m g in (foldl (fun l x => add x l) a xs, g').
Proof.
  revert start a g. induction n as [|n IH]; intros start a g; [done|].
  simpl. unfold rbind, rret. destruct (m g) as [x g1]. rewrite IH.
  by destruct (rrepeat n m g1) as [xs g2].
Qed.

Lemma rrepeat_length {A} (n : nat) (m : Rand G A) (g : G) :
  length (rrepeat n m g).1 = n.
Proof.
  revert g. induction n as [|n IH]; intros g; [done|].
  simpl. unfold rbind, rret. destruct (m g) as [x g1].
  specialize (IH g1). destruct (rrepeat n m g1) as [xs g2]. simpl in *. lia.
Qed.

Lemma rrepeat_Forall {A} (P : A -> Prop) (n : nat) (m : Rand G A) (g : G) :
  (forall g', P (m g').1) -> Forall P (rrepeat n m g).1.
Proof.
  intros Hm. revert g. induction n as [|n IH]; intros g; simpl; [constructor|].
  unfold rbind, rret. specialize (Hm g). destruct (m g) as [x g1].
  specialize (IH g1). destruct (rrepeat n m g1) as [xs g2]. simpl in *.
  constructor; done.
Qed.
End RandFacts.

(** ** Transition sequences *)

Section Star.
Context {S : Type}.
Variable R : S -> S -> Prop.

(** Zero or more [R] steps. *)
Inductive star : S -> S -> Prop :=
| star_refl s : star s s
| star_step s1 s2 s3 : R s1 s2 -> star s2 s3 -> star s1 s3.

Lemma star_one s1 s2 : R s1 s2 -> star s1 s2.
Proof. intros H. eapply star_step; [exact H | constructor]. Qed.

Lemma star_trans s1 s2 s3 : star s1 s2 -> star s2 s3 -> star s1 s3.
Proof. induction 1; eauto using star. Qed.

(** An invariant of every step holds along every sequence. *)
Lemma star_inv (P : S -> Prop) s1 s2 :
  (forall a b, P a -> R a b -> P b) -> star s1 s2 -> P s1 -> P s2.
Proof. intros HP. induction 1; eauto. Qed.
End Star.

#[export] Hint Resolve star_refl star_one : shooter.

(** ** Generic lemmas on lists *)

Lemma Forall2_Forall_r {A B} (R : A -> B -> Prop) (P : A -> Prop) (Q : B -> Prop)
    (l : list A) (l' : list B) :
  (forall x y, P x -> R x y -> Q y) -> Forall P l -> Forall2 R l l' -> Forall Q l'.
Proof. intros HPQ HP HR. induction HR; inversion HP; subst; constructor; eauto. Qed.

Lemma length_omap_le {A B} (f : A -> option B) (l : list A) :
  (length (omap f l) <= length l)%nat.
Proof.
  induction l as [|x l IH]; simpl; [lia|].
  destruct (f x); cbn [length]; [apply le_n_S | apply le_S]; exact IH.
Qed.

Lemma omap_omap {A B C} (f : B -> option C) (g : A -> option B) (l : list A) :
  omap f (omap g l) = omap (fun x => match g x with Some y => f y | None => None end) l.
Proof.
  induction l as [|x l IH]; [done|]. simpl.
  destruct (g x) as [y|]; simpl; [destruct (f y)|]; f_equal; exact IH.
Qed.

Lemma omap_ext_eq {A B} (f g : A -> option B) (l : list A) :
  (forall x, f x = g x) -> omap f l = omap g l.
Proof. intros Hfg. induction l as [|x l IH]; [done|]. simpl. rewrite Hfg. destruct (g x); [f_equal|]; exact IH. Qed.

Lemma omap_cons {A B} (f : A -> option B) x l :
  omap f (x :: l) = match f x with Some y => y :: omap f l | None => omap f l end.
Proof. done. Qed.

Lemma omap_Some {A} (l : list A) : omap Some l = l.
Proof. induction l as [|x l IH]; [done|]. simpl. by f_equal. Qed.

Lemma omap_all_None {A B} (f : A -> option B) (l : list A) :
  Forall (fun x => f x = None) l -> omap f l = [].
Proof. induction 1 as [|x l Hx _ IH]; [done|]. simpl. rewrite Hx. exact IH. Qed.

Lemma list_find_length_delete {A} (P : A -> Prop) `{forall x, Decision (P x)}
    (l : list A) i x :
  list_find P l = Some (i, x) -> length (delete i l) = pred (length l).
Proof.
  intros Hf. apply list_find_Some in Hf as [Hi _].
  rewrite length_delete by eauto. lia.
Qed.

Lemma Forall_delete {A} (P : A -> Prop) (l : list A) (i : nat) :
  Forall P l -> Forall P (delete i l).
Proof.
  revert i. induction l as [|x l IH]; intros i Hl; [done|].
  inversion Hl; subst. destruct i; simpl; [done|]. constructor; auto.
Qed.

#[export] Hint Resolve Forall_delete : shooter.
