(* ===== verification/Rect.v ===== *)
(** * pygame's [Rect] and the sprite-collision helpers the game uses

    The screen constants of [src/main.py] (lines 8-9), the [Rect] record
    with the derived edges the game reads ([left], [right], [top],
    [bottom], [centerx]), [colliderect] and [collidepoint] as pygame 2
    implements them, and [spritecollideany] over a sprite group given as a
    list in insertion order.  [HasRect] is the sprite interface: pygame's
    collision functions only read [sprite.rect]. *)

From S2P Require Import Prelude.

Definition SCREEN_WIDTH : Z := 800.
Definition SCREEN_HEIGHT : Z := 600.

Record Rect := mkRect { rx : Z; ry : Z; rw : Z; rh : Z }.

#[export] Instance Rect_eq_dec : EqDecision Rect.
Proof. solve_decision. Defined.

Definition left (r : Rect) : Z := rx r.
Definition top (r : Rect) : Z := ry r.
Definition right (r : Rect) : Z := rx r + rw r.
Definition bottom (r : Rect) : Z := ry r + rh r.
Definition centerx (r : Rect) : Z := rx r + rw r / 2.

Definition set_x (r : Rect) (x : Z) : Rect := mkRect x (ry r) (rw r) (rh r).
Definition set_y (r : Rect) (y : Z) : Rect := mkRect (rx r) y (rw r) (rh r).
(** [rect.centerx = c] moves the rect so that its centre is at [c]. *)
Definition set_centerx (r : Rect) (c : Z) : Rect := set_x r (c - rw r / 2).

(** pygame 2's [_pg_do_rects_intersect]: sizes may be negative, hence the
    [min]/[max]; an empty rect collides with nothing. *)
Definition colliderect (a b : Rect) : bool :=
  if (rw a =? 0) || (rh a =? 0) || (rw b =? 0) || (rh b =? 0) then false
  else (Z.min (rx a) (rx a + rw a) <? Z.max (rx b) (rx b + rw b))
    && (Z.min (ry a) (ry a + rh a) <? Z.max (ry b) (ry b + rh b))
    && (Z.min (rx b) (rx b + rw b) <? Z.max (rx a) (rx a + rw a))
    && (Z.min (ry b) (ry b + rh b) <? Z.max (ry a) (ry a + rh a)).

Definition collidepoint (r : Rect) (p : Z * Z) : bool :=
  (rx r <=? p.1) && (p.1 <? rx r + rw r) && (ry r <=? p.2) && (p.2 <? ry r + rh r).

(** The sprite interface: what [spritecollideany] reads of a sprite. *)
Class HasRect (A : Type) := rect_of : A -> Rect.

(** [pygame.sprite.spritecollideany(sprite, group)]: the first sprite of
    the group, in iteration order, whose rect collides with the sprite's.
    The index is returned with it: it is what [kill] needs in the list
    model of a group. *)
Definition spritecollideany {A B} `{HasRect A} `{HasRect B}
    (s : A) (group : list B) : option (nat * B) :=
  list_find (fun t => colliderect (rect_of s) (rect_of t) = true) group.

(** Rects with positive sizes, the only ones the game builds. *)
Definition positive_size (r : Rect) : Prop := 0 < rw r /\ 0 < rh r.

(** The open-interval overlap of two positive rects. *)
Definition overlap (a b : Rect) : Prop :=
  rx a < rx b + rw b /\ ry a < ry b + rh b /\
  rx b < rx a + rw a /\ ry b < ry a + rh a.

(** The box every sprite of the game stays in: the screen's width, and
    from the enemies' spawn height [-100] to 50 below the screen.  pygame
    keeps a [Rect]'s fields in C [int]s; inside this box they are far
    from the bounds, so [Z] models them exactly. *)
Definition in_world (r : Rect) : Prop :=
  positive_size r /\ 0 <= rx r /\ rx r + rw r <= SCREEN_WIDTH /\
  -100 <= ry r /\ ry r + rh r <= SCREEN_HEIGHT + 50.

#[export] Instance overlap_dec a b : Decision (overlap a b).
Proof. unfold overlap. apply _. Defined.

(** ** Lemmas *)

Lemma colliderect_iff_overlap (a b : Rect) :
  positive_size a -> positive_size b ->
  colliderect a b = true <-> overlap a b.
Proof.
  intros [Ha1 Ha2] [Hb1 Hb2]. unfold colliderect, overlap.
  destruct (Z.eqb_spec (rw a) 0); [lia|]. destruct (Z.eqb_spec (rh a) 0); [lia|].
  destruct (Z.eqb_spec (rw b) 0); [lia|]. destruct (Z.eqb_spec (rh b) 0); [lia|].
  simpl. rewrite !andb_true_iff, !Z.ltb_lt.
  rewrite !Z.min_l, !Z.max_r by lia. lia.
Qed.

Lemma colliderect_sym (a b : Rect) : colliderect a b = colliderect b a.
Proof.
  unfold colliderect.
  destruct (rw a =? 0), (rh a =? 0), (rw b =? 0), (rh b =? 0); simpl; try done.
  destruct (Z.min (rx a) _ <? _), (Z.min (ry a) _ <? _),
           (Z.min (rx b) _ <? _), (Z.min (ry b) _ <? _); done.
Qed.

Lemma collidepoint_spec (r : Rect) (p : Z * Z) :
  collidepoint r p = true <->
  rx r <= p.1 < rx r + rw r /\ ry r <= p.2 < ry r + rh r.
Proof.
  unfold collidepoint. rewrite !andb_true_iff, !Z.leb_le, !Z.ltb_lt. lia.
Qed.

Lemma spritecollideany_None {A B} `{HasRect A} `{HasRect B} (s : A) (l : list B) :
  spritecollideany s l = None <->
  Forall (fun t => colliderect (rect_of s) (rect_of t) = false) l.
Proof.
  unfold spritecollideany. rewrite list_find_None.
  split; intros Hl; eapply Forall_impl; eauto; intros t Ht; simpl in *.
  - by apply not_true_is_false.
  - by rewrite Ht.
Qed.

Lemma spritecollideany_Some {A B} `{HasRect A} `{HasRect B} (s : A) (l : list B) i t :
  spritecollideany s l = Some (i, t) ->
  l !! i = Some t /\ colliderect (rect_of s) (rect_of t) = true.
Proof. unfold spritecollideany. intros Hf. apply list_find_Some in Hf as (Hi & Ht & _). done. Qed.

Lemma spritecollideany_delete_length {A B} `{HasRect A} `{HasRect B}
    (s : A) (l : list B) i t :
  spritecollideany s l = Some (i, t) -> length (delete i l) = pred (length l).
Proof. apply list_find_length_delete. Qed.

