(* ===== verification/Scoreboard.v ===== *)
(** * The scoreboard (src/main.py, class [Scoreboard], lines 319-338)

    Two Python integers: [score], starting at 0, and [lives], starting at
    3.  [draw] is [Render.scoreboard_draw] in Render.v; the font is not modelled. *)

From S2P Require Import Prelude.

Module Scoreboard.

Record t := mk { score : Z; lives : Z }.

#[global] Instance t_eq_dec : EqDecision t.
Proof. solve_decision. Defined.

Definition init : t := mk 0 3.

Definition increase_score (sb : t) : t := mk (score sb + 10) (lives sb).

Definition decrease_life (sb : t) : t := mk (score sb) (lives sb - 1).

Definition is_game_over (sb : t) : bool := lives sb <=? 0.

(** The score is a non-negative multiple of 10: what every reachable
    scoreboard satisfies. *)
Definition score_ok (sb : t) : Prop := 0 <= score sb /\ score sb mod 10 = 0.

(** [sb'] is reached from [sb] by scoreboard operations only:
    [k] increments and [d] decrements. *)
Definition evolves (sb sb' : t) : Prop :=
  exists k d : nat,
    score sb' = score sb + 10 * Z.of_nat k /\ lives sb' = lives sb - Z.of_nat d.

Lemma scoreboard_init_score_ok : score_ok init.
Proof. split; reflexivity. Qed.

Lemma score_ok_evolves sb sb' : score_ok sb -> evolves sb sb' -> score_ok sb'.
Proof.
  intros [H0 Hm] (k & d & Hs & _). split; rewrite Hs; [lia|].
  rewrite Z.mul_comm, Z_mod_plus_full. exact Hm.
Qed.

Lemma evolves_refl sb : evolves sb sb.
Proof. exists 0%nat, 0%nat. lia. Qed.

Lemma evolves_trans sb1 sb2 sb3 : evolves sb1 sb2 -> evolves sb2 sb3 -> evolves sb1 sb3.
Proof.
  intros (k1 & d1 & H1 & H2) (k2 & d2 & H3 & H4).
  exists (k1 + k2)%nat, (d1 + d2)%nat. lia.
Qed.

Lemma evolves_increase sb : evolves sb (increase_score sb).
Proof. exists 1%nat, 0%nat. simpl. lia. Qed.

Lemma evolves_decrease sb : evolves sb (decrease_life sb).
Proof. exists 0%nat, 1%nat. simpl. lia. Qed.

Lemma evolves_mono sb sb' : evolves sb sb' -> score sb <= score sb' /\ lives sb' <= lives sb.
Proof. intros (k & d & H1 & H2). lia. Qed.

End Scoreboard.

#[export] Hint Resolve Scoreboard.evolves_refl Scoreboard.evolves_increase
  Scoreboard.evolves_decrease : shooter.
