(* ===== verification/Entities.v ===== *)
(** * The sprites: [Bullet], [Enemy], [Obstacle] (src/main.py, lines 186-231)

    Each sprite is its pygame rect (its image's size at the origin, then
    moved) plus a speed for the moving ones.  [Bullet.update] returns
    [None] when the bullet kills itself; [Enemy.update] is a [Rand]
    computation because a recycled enemy draws a new position. *)

From S2P Require Import Prelude Rect.

Module Bullet.

Record t := mk { rect : Rect; speed : Z }.

#[global] Instance t_eq_dec : EqDecision t.
Proof. solve_decision. Defined.

#[global] Instance t_rect : HasRect t := rect.

(** [Bullet(x, y)]: a 10x20 surface, centred on [x], top at [y], speed 7. *)
Definition new (x y : Z) : t :=
  mk (set_y (set_centerx (mkRect 0 0 10 20) x) y) 7.

(** [Bullet.update]: move up by [speed]; [kill()] when the bottom is above
    the screen. *)
Definition update (b : t) : option t :=
  let b' := mk (set_y (rect b) (ry (rect b) - speed b)) (speed b) in
  if bottom (rect b') <? 0 then None else Some b'.

(** [n] successive updates, as long as the bullet lives. *)
Fixpoint update_n (n : nat) (b : t) : option t :=
  match n with
  | O => Some b
  | S n' => match update b with Some b' => update_n n' b' | None => None end
  end.

Lemma update_n_S_r n b :
  update_n (S n) b = match update_n n b with Some b' => update b' | None => None end.
Proof.
  revert b. induction n as [|n IH]; intros b; simpl.
  - by destruct (update b).
  - destruct (update b) as [b'|]; [|done]. apply IH.
Qed.

(** The shape every bullet has: the size and speed [new] gives it. *)
Definition shape_ok (b : t) : Prop := rw (rect b) = 10 /\ rh (rect b) = 20 /\ speed b = 7.

Lemma bullet_new_shape_ok x y : shape_ok (new x y).
Proof. repeat split. Qed.

Lemma bullet_update_shape_ok b b' : shape_ok b -> update b = Some b' -> shape_ok b'.
Proof.
  unfold update, shape_ok. intros (Hw & Hh & Hs).
  destruct (_ <? 0); intros E; inversion E; subst; simpl; auto.
Qed.

Lemma bullet_update_cases_core b :
  (bottom (rect b) - speed b < 0 /\ update b = None) \/
  (0 <= bottom (rect b) - speed b /\
   update b = Some (mk (set_y (rect b) (ry (rect b) - speed b)) (speed b))).
Proof.
  unfold update, bottom. simpl.
  destruct (Z.ltb_spec (ry (rect b) - speed b + rh (rect b)) 0); [left|right]; split; auto; lia.
Qed.

Lemma bullet_lifetime_core n b :
  shape_ok b -> 0 <= bottom (rect b) ->
  update_n n b = None <-> bottom (rect b) < 7 * Z.of_nat n.
Proof.
  revert b. induction n as [|n IH]; intros b Hb Hbot; simpl.
  { split; [done | lia]. }
  destruct (bullet_update_cases_core b) as [[Hlt ->] | [Hge ->]].
  - destruct Hb as (_ & _ & Hs). split; [lia | done].
  - destruct Hb as (Hw & Hh & Hs).
    rewrite IH; [| by repeat split | unfold bottom in *; simpl; lia].
    unfold bottom in *; simpl. lia.
Qed.

(** C22. A bullet of the standard shape that is on or below the top edge is
    gone after [n] updates exactly when its bottom is less than [7 n]. *)
Theorem bullet_lifetime n b :
  shape_ok b -> 0 <= bottom (rect b) ->
  update_n n b = None <-> bottom (rect b) < 7 * Z.of_nat n.
Proof. apply bullet_lifetime_core. Qed.

Lemma bullet_lifetime_witness :
  update_n 22 (new 25 130) = None <-> bottom (rect (new 25 130)) < 7 * Z.of_nat 22.
Proof. apply bullet_lifetime; [apply bullet_new_shape_ok | unfold bottom; simpl; lia]. Defined.

End Bullet.

Module Enemy.

Record t := mk { rect : Rect; speed : Z }.

#[global] Instance t_eq_dec : EqDecision t.
Proof. solve_decision. Defined.

#[global] Instance t_rect : HasRect t := rect.

Section Ops.
Context {G : Type} `{RandomSource G}.

(** [Enemy(x, y)]: a 50x50 bomb at [(x, y)]; [__init__] draws the speed
    with [random.randint(1, 3)]. *)
Definition new (x y : Z) : Rand G t :=
  let! s := randint 1 3 in rret (mk (mkRect x y 50 50) s).

(** [Enemy.update]: move down by [speed]; once the top is below the
    screen, draw a new [x] then a new [y] above the screen.  The speed is
    kept. *)
Definition update (e : t) : Rand G t :=
  let r1 := set_y (rect e) (ry (rect e) + speed e) in
  if top r1 >? SCREEN_HEIGHT then
    let! x := randint 0 (SCREEN_WIDTH - rw r1) in
    let! y := randint (-100) (-40) in
    rret (mk (set_y (set_x r1 x) y) (speed e))
  else rret (mk r1 (speed e)).
End Ops.

(** The invariant of a live enemy: the size [new] gives it, a speed in
    [1, 3], [x] inside the screen and [y] between the recycling box and
    the bottom of the screen. *)
Definition ok (e : t) : Prop :=
  rw (rect e) = 50 /\ rh (rect e) = 50 /\ 1 <= speed e <= 3 /\
  0 <= rx (rect e) <= SCREEN_WIDTH - 50 /\ -100 <= ry (rect e) <= SCREEN_HEIGHT.

Section Laws.
Context {G : Type} `{RandomLaws G}.

Lemma enemy_new_fields x y g :
  rect (new x y g).1 = mkRect x y 50 50 /\ 1 <= speed (new x y g).1 <= 3.
Proof.
  unfold new, rbind, rret.
  pose proof (randint_range 1 3 g ltac:(lia)) as Hr.
  destruct (randint 1 3 g) as [s g']. simpl in *. auto.
Qed.

Lemma enemy_update_cases_core e g :
  rw (rect e) <= SCREEN_WIDTH ->
  let e' := (update e g).1 in
  speed e' = speed e /\ rw (rect e') = rw (rect e) /\ rh (rect e') = rh (rect e) /\
  ((ry (rect e) + speed e <= SCREEN_HEIGHT /\
    rx (rect e') = rx (rect e) /\ ry (rect e') = ry (rect e) + speed e) \/
   (SCREEN_HEIGHT < ry (rect e) + speed e /\
    0 <= rx (rect e') <= SCREEN_WIDTH - rw (rect e) /\ -100 <= ry (rect e') <= -40)).
Proof.
  intros Hw0. unfold update, top. simpl.
  destruct (Z.gtb_spec (ry (rect e) + speed e) SCREEN_HEIGHT).
  - unfold rbind, rret.
    destruct (randint 0 (SCREEN_WIDTH - rw (rect e)) g) as [x g1] eqn:Ex.
    destruct (randint (-100) (-40) g1) as [y g2] eqn:Ey.
    pose proof (randint_range (-100) (-40) g1 ltac:(lia)) as Hy. rewrite Ey in Hy.
    simpl in *. split_and?; auto. right. split; [lia|]. split; [|lia].
    pose proof (randint_range 0 (SCREEN_WIDTH - rw (rect e)) g ltac:(lia)) as Hx.
    rewrite Ex in Hx. simpl in Hx. lia.
  - simpl. split_and?; auto.
Qed.

(** C24. What [Enemy.update] does on each branch: the speed and size are kept;
    an enemy whose top stays on screen moved down by its speed; one whose
    top passed the bottom edge reappears with [x] in [0, 800 - width] and
    [y] in [-100, -40] (the recycling of spec section 8). *)
Theorem enemy_update_cases e g :
  rw (rect e) <= SCREEN_WIDTH ->
  let e' := (update e g).1 in
  speed e' = speed e /\ rw (rect e') = rw (rect e) /\ rh (rect e') = rh (rect e) /\
  ((ry (rect e) + speed e <= SCREEN_HEIGHT /\
    rx (rect e') = rx (rect e) /\ ry (rect e') = ry (rect e) + speed e) \/
   (SCREEN_HEIGHT < ry (rect e) + speed e /\
    0 <= rx (rect e') <= SCREEN_WIDTH - rw (rect e) /\ -100 <= ry (rect e') <= -40)).
Proof. apply enemy_update_cases_core. Qed.

Lemma enemy_update_ok_core e g : ok e -> ok (update e g).1.
Proof.
  intros (Hw & Hh & Hs & Hx & Hy).
  destruct (enemy_update_cases_core e g ltac:(unfold SCREEN_WIDTH in *; lia))
    as (Hs' & Hw' & Hh' & [(Hb & Hx' & Hy') | (Hb & Hx' & Hy')]);
    unfold ok, SCREEN_WIDTH, SCREEN_HEIGHT in *; lia.
Qed.

(** C25. The enemy invariant [ok] (size, speed in [1, 3], [x] on screen, [y]
    between the recycling box and the bottom edge) is kept by [update]. *)
Theorem enemy_update_ok e g : ok e -> ok (update e g).1.
Proof. apply enemy_update_ok_core. Qed.
End Laws.

#[global] Hint Resolve enemy_update_ok_core : shooter.

Lemma enemy_ok_in_world e : ok e -> in_world (rect e).
Proof. unfold ok, in_world, positive_size, SCREEN_WIDTH, SCREEN_HEIGHT. lia. Qed.

#[global] Hint Resolve enemy_ok_in_world : shooter.

Definition falling : t := mk (mkRect 100 599 50 50) 3.

Lemma enemy_update_cases_witness :
  let e' := (update (G:=Z) falling 5).1 in
  speed e' = speed falling /\ rw (rect e') = rw (rect falling) /\ rh (rect e') = rh (rect falling) /\
  ((ry (rect falling) + speed falling <= SCREEN_HEIGHT /\
    rx (rect e') = rx (rect falling) /\ ry (rect e') = ry (rect falling) + speed falling) \/
   (SCREEN_HEIGHT < ry (rect falling) + speed falling /\
    0 <= rx (rect e') <= SCREEN_WIDTH - rw (rect falling) /\ -100 <= ry (rect e') <= -40)).
Proof. apply enemy_update_cases. unfold SCREEN_WIDTH. simpl. lia. Defined.

Lemma enemy_update_ok_witness : ok (update (G:=Z) falling 5).1.
Proof. apply enemy_update_ok. unfold ok, SCREEN_WIDTH, SCREEN_HEIGHT. simpl. lia. Defined.

End Enemy.

Module Obstacle.

Record t := mk { rect : Rect }.

#[global] Instance t_eq_dec : EqDecision t.
Proof. solve_decision. Defined.

#[global] Instance t_rect : HasRect t := rect.

(** [Obstacle(x, y)]: a 100x30 surface at [(x, y)]. *)
Definition new (x y : Z) : t := mk (mkRect x y 100 30).

(** The box the level constructors place obstacles in, and their size. *)
Definition ok (o : t) : Prop :=
  rw (rect o) = 100 /\ rh (rect o) = 30 /\
  0 <= rx (rect o) <= SCREEN_WIDTH - 100 /\ 100 <= ry (rect o) <= SCREEN_HEIGHT - 30.

Lemma obstacle_ok_in_world o : ok o -> in_world (rect o).
Proof. unfold ok, in_world, positive_size, SCREEN_WIDTH, SCREEN_HEIGHT. lia. Qed.

#[global] Hint Resolve obstacle_ok_in_world : shooter.

End Obstacle.
