(* ===== verification/Player.v ===== *)
(** * The player (src/main.py, class [Player], lines 142-183)

    The player's rect (50x50, from the rocket image), its speed and its
    bullet group.  [handle_keys] takes the sampled keyboard state as a
    [Keys] record, the value [pygame.key.get_pressed()] returns for the
    five keys the game reads.  The main fact is the on-screen invariant:
    the guards test the edge before the move, so the player stays inside
    the screen because it starts and moves on a grid of step 5 that the
    screen edges lie on.  The second is the spacing of the bullet group
    ([spaced]): bullets are fired one per tick at most and all move at
    the same speed, which bounds the group's size. *)

From S2P Require Import Prelude Rect Entities.

Record Keys := mkKeys { k_left : bool; k_right : bool; k_up : bool; k_down : bool; k_space : bool }.

Definition no_keys : Keys := mkKeys false false false false false.

Module Player.

Record t := mk { rect : Rect; speed : Z; bullets : list Bullet.t }.

#[global] Instance t_rect : HasRect t := rect.

Definition with_rect (p : t) (r : Rect) : t := mk r (speed p) (bullets p).
Definition with_bullets (p : t) (bs : list Bullet.t) : t := mk (rect p) (speed p) bs.

(** [Player()]: the rocket image is 50x50; [x = SCREEN_WIDTH // 2],
    [y = SCREEN_HEIGHT - 60], speed 5, no bullets. *)
Definition init : t :=
  mk (mkRect (SCREEN_WIDTH / 2) (SCREEN_HEIGHT - 60) 50 50) 5 [].

(** [shoot]: a bullet centred on the player's centre, top at its top,
    added at the end of the group. *)
Definition shoot (p : t) : t :=
  with_bullets p (bullets p ++ [Bullet.new (centerx (rect p)) (top (rect p))]).

(** [handle_keys]: four independent guarded moves, in the order of the
    code, each guard reading the position left by the previous one. *)
Definition handle_keys (k : Keys) (p : t) : t :=
  let p1 := if k_left k && (0 <? left (rect p))
            then with_rect p (set_x (rect p) (rx (rect p) - speed p)) else p in
  let p2 := if k_right k && (right (rect p1) <? SCREEN_WIDTH)
            then with_rect p1 (set_x (rect p1) (rx (rect p1) + speed p1)) else p1 in
  let p3 := if k_up k && (0 <? top (rect p2))
            then with_rect p2 (set_y (rect p2) (ry (rect p2) - speed p2)) else p2 in
  let p4 := if k_down k && (bottom (rect p3) <? SCREEN_HEIGHT)
            then with_rect p3 (set_y (rect p3) (ry (rect p3) + speed p3)) else p3 in
  if k_space k then shoot p4 else p4.

(** [update]: [self.bullets.update()]; killed bullets leave the group. *)
Definition update (p : t) : t := with_bullets p (omap Bullet.update (bullets p)).

(** [reset]: back to the spawn point; the bullets are kept. *)
Definition reset (p : t) : t :=
  with_rect p (set_y (set_x (rect p) (SCREEN_WIDTH / 2)) (SCREEN_HEIGHT - 60)).

(** The player is where [Player()] and [reset] put it. *)
Definition at_spawn (p : t) : Prop :=
  rx (rect p) = SCREEN_WIDTH / 2 /\ ry (rect p) = SCREEN_HEIGHT - 60.

(** The on-screen invariant, with the alignment on the speed grid that
    makes the guards sufficient. *)
Definition on_screen (p : t) : Prop :=
  rw (rect p) = 50 /\ rh (rect p) = 50 /\ speed p = 5 /\
  0 <= rx (rect p) <= SCREEN_WIDTH - 50 /\ 0 <= ry (rect p) <= SCREEN_HEIGHT - 50 /\
  rx (rect p) mod 5 = 0 /\ ry (rect p) mod 5 = 0.

(** The bullet group, oldest first (the order [shoot] adds them in):
    every bullet has the shape [Bullet.new] gives it, lies within the
    screen's width, has its bottom on or below the top edge, and lies 7
    pixels (one update) higher per younger bullet, below the height [c]. *)
Fixpoint spaced (c : Z) (bs : list Bullet.t) : Prop :=
  match bs with
  | [] => True
  | b :: bs' =>
      Bullet.shape_ok b /\ 0 <= rx (Bullet.rect b) <= SCREEN_WIDTH - 10 /\
      0 <= bottom (Bullet.rect b) /\
      bottom (Bullet.rect b) + 7 * Z.of_nat (length bs') <= c /\ spaced c bs'
  end.

(** The height below which the bullets lie after a tick: a bullet is
    fired at the player's top, at most [SCREEN_HEIGHT - 50], is 20 high,
    and has moved up once by the end of the tick that fired it. *)
Definition BULLET_CEIL : Z := SCREEN_HEIGHT - 50 + 20 - 7.

(** The player's invariant: on screen, and its bullets spaced. *)
Definition ok (p : t) : Prop := on_screen p /\ spaced BULLET_CEIL (bullets p).

Lemma player_init_on_screen : on_screen init.
Proof. repeat split; reflexivity || discriminate. Qed.

Lemma on_screen_rect p p' :
  rect p' = rect p -> speed p' = speed p -> on_screen p -> on_screen p'.
Proof. unfold on_screen. intros -> ->. done. Qed.

Lemma player_shoot_rect p : rect (shoot p) = rect p /\ speed (shoot p) = speed p.
Proof. done. Qed.

Lemma player_update_rect p : rect (update p) = rect p /\ speed (update p) = speed p.
Proof. done. Qed.

Lemma bool_guard (a : bool) (z1 z2 : Z) :
  a && (z1 <? z2) = true -> z1 < z2.
Proof. rewrite andb_true_iff, Z.ltb_lt. tauto. Qed.

(** One guarded move of [handle_keys] keeps the invariant. *)
Local Ltac guarded_move p1 :=
  subst p1;
  match goal with
  | |- context [if ?c then _ else _] =>
      let E := fresh "E" in
      destruct c eqn:E; [apply bool_guard in E | done]
  end;
  unfold on_screen, left, right, top, bottom, SCREEN_WIDTH, SCREEN_HEIGHT in *; simpl; zlia.

Lemma handle_keys_on_screen_core (k : Keys) (p : t) :
  on_screen p -> on_screen (handle_keys k p).
Proof.
  intros Hp. unfold handle_keys.
  set (p1 := if k_left k && _ then _ else _).
  assert (H1 : on_screen p1) by guarded_move p1.
  set (p2 := if k_right k && _ then _ else _).
  assert (H2 : on_screen p2) by guarded_move p2.
  set (p3 := if k_up k && _ then _ else _).
  assert (H3 : on_screen p3) by guarded_move p3.
  set (p4 := if k_down k && _ then _ else _).
  assert (H4 : on_screen p4) by guarded_move p4.
  destruct (k_space k); [|done]. exact H4.
Qed.

(** C6. [handle_keys] keeps the player on screen and on the grid, whatever
    keys are held. *)
Theorem handle_keys_on_screen (k : Keys) (p : t) :
  on_screen p -> on_screen (handle_keys k p).
Proof. apply handle_keys_on_screen_core. Qed.

Lemma player_update_on_screen p : on_screen p -> on_screen (update p).
Proof. done. Qed.

Lemma player_reset_on_screen p :
  rw (rect p) = 50 -> rh (rect p) = 50 -> speed p = 5 -> on_screen (reset p).
Proof. intros Hw Hh Hs. unfold on_screen, reset. simpl. rewrite Hw, Hh, Hs. done. Qed.

Lemma player_reset_ok p : ok p -> ok (reset p).
Proof. intros [(Hw & Hh & Hs & _) Hb]. split; [by apply player_reset_on_screen | exact Hb]. Qed.

Lemma player_init_ok : ok init.
Proof. split; [exact player_init_on_screen | done]. Qed.

Lemma player_reset_rect_of p q :
  rw (rect q) = rw (rect p) -> rh (rect q) = rh (rect p) -> rect (reset q) = rect (reset p).
Proof. intros Hw Hh. unfold reset, with_rect, set_x, set_y. simpl. congruence. Qed.

Lemma iter_update_bullets n p :
  bullets (Nat.iter n update p) = omap (Bullet.update_n n) (bullets p).
Proof.
  induction n as [|n IH]; simpl.
  - symmetry. apply omap_Some.
  - rewrite IH, omap_omap. apply omap_ext_eq. intros b. symmetry. apply Bullet.update_n_S_r.
Qed.

(** ** The bullet group *)

Lemma spaced_mono c c' bs : c <= c' -> spaced c bs -> spaced c' bs.
Proof. intros Hc. induction bs as [|b bs IH]; simpl; [done|]. intros (? & ? & ? & ? & ?). split_and!; auto; lia. Qed.

Lemma spaced_sublist c l1 l2 : sublist l1 l2 -> spaced c l2 -> spaced c l1.
Proof.
  induction 1 as [|x l1 l2 Hs IH|x l1 l2 Hs IH]; simpl; [done| |].
  - pose proof (sublist_length _ _ Hs). intros (Hx & Hcol & H0 & Hc & Hr). split_and!; auto; lia.
  - intros (_ & _ & _ & _ & Hr). auto.
Qed.

(** Appending a bullet raises the bound by one spacing. *)
Lemma spaced_snoc c bs b :
  spaced c bs -> Bullet.shape_ok b -> 0 <= rx (Bullet.rect b) <= SCREEN_WIDTH - 10 ->
  0 <= bottom (Bullet.rect b) <= c + 7 -> spaced (c + 7) (bs ++ [b]).
Proof.
  intros Hs Hb Hcol Hbot. induction bs as [|x bs IH]; simpl in *; [split_and!; auto; lia|].
  destruct Hs as (Hx & Hxc & H0 & Hc & Hr). rewrite length_app. simpl. split_and!; auto; lia.
Qed.

(** One update of the group lowers the bound by one spacing. *)
Lemma spaced_update c bs : spaced c bs -> spaced (c - 7) (omap Bullet.update bs).
Proof.
  induction bs as [|b bs IH]; [done|]. intros (Hb & Hcol & H0 & Hc & Hr). rewrite omap_cons.
  pose proof (length_omap_le Bullet.update bs).
  destruct (Bullet.bullet_update_cases_core b) as [[_ ->] | [Hge ->]]; [auto|].
  destruct Hb as (Hw & Hh & Hsp). cbn [spaced].
  split_and!; [by repeat split | simpl; lia | simpl; lia | unfold bottom in *; simpl; lia
              | unfold bottom in *; simpl; lia | auto].
Qed.

(** The group's size follows from its spacing: at most [c / 7 + 1]. *)
Lemma spaced_length c bs : 0 <= c -> spaced c bs -> Z.of_nat (length bs) <= c / 7 + 1.
Proof.
  intros Hc0. destruct bs as [|b bs]; simpl; [intros; zlia|]. intros (_ & _ & H0 & Hc & _). zlia.
Qed.

Lemma spaced_in_world c bs :
  c <= SCREEN_HEIGHT + 50 -> spaced c bs -> Forall (fun b => in_world (Bullet.rect b)) bs.
Proof.
  intros Hc. induction bs as [|b bs IH]; simpl; [constructor|]. intros ((Hw & Hh & _) & Hx & H0 & Hb & Hr).
  constructor; [|auto]. unfold in_world, positive_size, bottom, SCREEN_WIDTH, SCREEN_HEIGHT in *. lia.
Qed.

Lemma player_ok_in_world p :
  ok p -> in_world (rect p) /\ Forall (fun b => in_world (Bullet.rect b)) (bullets p).
Proof.
  intros [(Hw & Hh & _ & Hx & Hy & _) Hb]. split.
  - unfold in_world, positive_size, SCREEN_WIDTH, SCREEN_HEIGHT in *. lia.
  - apply (spaced_in_world BULLET_CEIL); [unfold BULLET_CEIL; lia | exact Hb].
Qed.

(** What [handle_keys] does to the group: [SPACE] appends one bullet at
    the player's final position. *)
Lemma handle_keys_bullets k p :
  bullets (handle_keys k p) =
    bullets p ++ (if k_space k
                  then [Bullet.new (centerx (rect (handle_keys k p))) (top (rect (handle_keys k p)))]
                  else []).
Proof. unfold handle_keys, shoot. repeat case_match; simpl; by rewrite ?app_nil_r. Qed.

Lemma handle_keys_spaced k p :
  on_screen p -> spaced BULLET_CEIL (bullets p) -> spaced (BULLET_CEIL + 7) (bullets (handle_keys k p)).
Proof.
  intros Hp Hs. rewrite handle_keys_bullets.
  destruct (k_space k); [|rewrite app_nil_r; apply (spaced_mono BULLET_CEIL); [lia | exact Hs]].
  pose proof (handle_keys_on_screen_core k p Hp) as (Hw & Hh & _ & Hx & Hy & _).
  apply spaced_snoc; [exact Hs | apply Bullet.bullet_new_shape_ok | |].
  - unfold centerx, SCREEN_WIDTH in *. simpl. rewrite Hw. zlia.
  - unfold bottom, top, BULLET_CEIL, SCREEN_HEIGHT in *. simpl. lia.
Qed.

(** One update after [handle_keys] restores the invariant. *)
Lemma handle_keys_update_ok k p : ok p -> ok (update (handle_keys k p)).
Proof.
  intros [Hp Hs]. split; [apply player_update_on_screen, handle_keys_on_screen_core, Hp|].
  simpl. replace BULLET_CEIL with (BULLET_CEIL + 7 - 7) by lia.
  apply spaced_update, handle_keys_spaced; assumption.
Qed.

(** Every bullet present now has left the group after [n] updates when
    its bottom is below [7 n]: a bullet's lifetime is bounded by its
    height above the top of the screen. *)
Lemma bullets_leave n p :
  Forall (fun b => Bullet.shape_ok b /\ 0 <= bottom (Bullet.rect b) < 7 * Z.of_nat n)
    (bullets p) ->
  bullets (Nat.iter n update p) = [].
Proof.
  intros Hall. rewrite iter_update_bullets. apply omap_all_None.
  eapply Forall_impl; [exact Hall|]. intros b (Hs & H0 & Hlt).
  by apply Bullet.bullet_lifetime_core.
Qed.

#[global] Hint Resolve player_init_ok player_reset_ok handle_keys_update_ok : shooter.

(** ** Concrete runs *)

Lemma handle_keys_on_screen_witness :
  on_screen (handle_keys (mkKeys true false true false true) init).
Proof. apply handle_keys_on_screen. exact player_init_on_screen. Defined.

End Player.
