(* ===== verification/Level.v ===== *)
(** * A level (src/main.py, classes [Level], [Level1], [Level2], [Level3], lines 234-316)

    A level owns its enemy and obstacle groups and [all_sprites], which
    holds the same objects again (Level.draw draws all three; the model
    of the drawing is in Render.v).  [update] is the tick of
    the level: every enemy moves (drawing random numbers when it
    recycles), the player's bullets move, collisions are resolved, and one
    enemy is spawned when fewer than five are left.  The player and the
    scoreboard that the Python code mutates are passed in and returned. *)

From S2P Require Import Prelude Rect Scoreboard Entities Player.

Module Level.

(** The kind of a member of [all_sprites].  Every object of [all_sprites]
    is also in [enemies] or in [obstacles]: each is added to its own group
    and to [all_sprites] one after the other, and [kill] removes it from
    both.  Groups keep insertion order, so the enemies appear in
    [all_sprites] in the order of [enemies], and the obstacles in the
    order of [obstacles]: [all_sprites] is the interleaving of the two
    groups that the list of kinds records, its [n]-th [KEnemy] standing
    for the [n]-th enemy, the same object. *)
Inductive kind := KEnemy | KObstacle.

#[global] Instance kind_eq_dec : EqDecision kind.
Proof. solve_decision. Defined.

Record t := mk { enemies : list Enemy.t; obstacles : list Obstacle.t; all_sprites : list kind }.

(** The objects of [all_sprites], in its order. *)
Inductive sprite := SEnemy (e : Enemy.t) | SObstacle (o : Obstacle.t).

Fixpoint merge (ks : list kind) (es : list Enemy.t) (os : list Obstacle.t) : list sprite :=
  match ks, es, os with
  | KEnemy :: ks', e :: es', _ => SEnemy e :: merge ks' es' os
  | KObstacle :: ks', _, o :: os' => SObstacle o :: merge ks' es os'
  | _, _, _ => []
  end.

Definition sprites (lvl : t) : list sprite := merge (all_sprites lvl) (enemies lvl) (obstacles lvl).

(** How many members of kind [k] [all_sprites] has. *)
Fixpoint count_kind (k : kind) (ks : list kind) : nat :=
  match ks with
  | [] => 0
  | k' :: ks' => ((if decide (k' = k) then 1 else 0) + count_kind k ks')%nat
  end.

(** [all_sprites] has one member per enemy and per obstacle. *)
Definition sprites_ok (lvl : t) : Prop :=
  count_kind KEnemy (all_sprites lvl) = length (enemies lvl) /\
  count_kind KObstacle (all_sprites lvl) = length (obstacles lvl).

(** [self.enemies.update()] moves the enemy objects in place: the same
    members, new positions. *)
Definition with_enemies (lvl : t) (es : list Enemy.t) : t := mk es (obstacles lvl) (all_sprites lvl).

(** The [n]-th member of kind [k] leaves [all_sprites]. *)
Fixpoint remove_kind (k : kind) (n : nat) (ks : list kind) : list kind :=
  match ks with
  | [] => []
  | k' :: ks' =>
      if decide (k' = k) then match n with O => ks' | S n' => k' :: remove_kind k n' ks' end
      else k' :: remove_kind k n ks'
  end.

(** [enemy.kill()] of the enemy at index [i] of [enemies]: it leaves every
    group it belongs to. *)
Definition kill_enemy (i : nat) (lvl : t) : t :=
  mk (delete i (enemies lvl)) (obstacles lvl) (remove_kind KEnemy i (all_sprites lvl)).

(** [self.enemies.add(enemy); self.all_sprites.add(enemy)]. *)
Definition add_enemy (e : Enemy.t) (lvl : t) : t :=
  mk (enemies lvl ++ [e]) (obstacles lvl) (all_sprites lvl ++ [KEnemy]).

(** [self.obstacles.add(obstacle); self.all_sprites.add(obstacle)]. *)
Definition add_obstacle (o : Obstacle.t) (lvl : t) : t :=
  mk (enemies lvl) (obstacles lvl ++ [o]) (all_sprites lvl ++ [KObstacle]).

(** [Level.__init__]: three empty groups. *)
Definition empty : t := mk [] [] [].

Section Ops.
Context {G : Type} `{RandomSource G}.

(** [Enemy(random.randint(0, SCREEN_WIDTH - 50), random.randint(-100, -40))]:
    [x] is drawn first, then [y], then the speed inside [__init__]. *)
Definition random_enemy : Rand G Enemy.t :=
  let! x := randint 0 (SCREEN_WIDTH - 50) in
  let! y := randint (-100) (-40) in
  Enemy.new x y.

(** [Obstacle(random.randint(0, SCREEN_WIDTH - 100),
    random.randint(100, SCREEN_HEIGHT - 30))]. *)
Definition random_obstacle : Rand G Obstacle.t :=
  let! x := randint 0 (SCREEN_WIDTH - 100) in
  let! y := randint 100 (SCREEN_HEIGHT - 30) in
  rret (Obstacle.new x y).

(** The constructors of [Level1..3]: empty groups, then [ne] random
    enemies, then [no] random obstacles, each added to its group and to
    [all_sprites]. *)
Definition build (ne no : nat) : Rand G t :=
  let! l1 := rfoldM (fun l _ => let! e := random_enemy in rret (add_enemy e l)) empty (seq 0 ne) in
  rfoldM (fun l _ => let! o := random_obstacle in rret (add_obstacle o l)) l1 (seq 0 no).

Definition level1 : Rand G t := build 5 3.
Definition level2 : Rand G t := build 7 5.
Definition level3 : Rand G t := build 10 7.

(** The loop [for bullet in player.bullets] of [check_collisions], over
    the snapshot of the group: a bullet that hits the first colliding
    enemy kills itself and that enemy and scores 10; the kept bullets
    stay in order.  Later bullets see the enemies left by earlier ones. *)
Fixpoint bullet_hits (bs : list Bullet.t) (lvl : t) (sb : Scoreboard.t)
    : list Bullet.t * t * Scoreboard.t :=
  match bs with
  | [] => ([], lvl, sb)
  | b :: bs' =>
      match spritecollideany b (enemies lvl) with
      | Some (i, _) => bullet_hits bs' (kill_enemy i lvl) (Scoreboard.increase_score sb)
      | None => let '(kept, lvl', sb') := bullet_hits bs' lvl sb in (b :: kept, lvl', sb')
      end
  end.

(** One [if spritecollideany(player, group): player.reset();
    scoreboard.decrease_life()]. *)
Definition hit_player {B} `{HasRect B} (group : list B) (p : Player.t) (sb : Scoreboard.t)
    : Player.t * Scoreboard.t :=
  match spritecollideany p group with
  | Some _ => (Player.reset p, Scoreboard.decrease_life sb)
  | None => (p, sb)
  end.

(** [check_collisions]: enemies, then obstacles (tested at the position
    the first test may have reset), then the bullets. *)
Definition check_collisions (lvl : t) (p : Player.t) (sb : Scoreboard.t)
    : t * Player.t * Scoreboard.t :=
  let '(p1, sb1) := hit_player (enemies lvl) p sb in
  let '(p2, sb2) := hit_player (obstacles lvl) p1 sb1 in
  let '(kept, lvl3, sb3) := bullet_hits (Player.bullets p2) lvl sb2 in
  (lvl3, Player.with_bullets p2 kept, sb3).

(** [spawn_enemies]: one new random enemy when fewer than 5 are left. *)
Definition spawn_enemies (lvl : t) : Rand G t :=
  if (length (enemies lvl) <? 5)%nat then
    let! e := random_enemy in rret (add_enemy e lvl)
  else rret lvl.

(** [Level.update]. *)
Definition update (lvl : t) (p : Player.t) (sb : Scoreboard.t)
    : Rand G (t * Player.t * Scoreboard.t) :=
  let! es := rmapM Enemy.update (enemies lvl) in
  let p1 := Player.update p in
  let '(lvl2, p2, sb2) := check_collisions (with_enemies lvl es) p1 sb in
  let! lvl3 := spawn_enemies lvl2 in
  rret (lvl3, p2, sb2).
End Ops.

(** [Level.is_completed]: levels end on the score, never by themselves
    (the method is not called). *)
Definition is_completed (lvl : t) (player : Player.t) : bool := false.

(** ** The all_sprites group *)

Lemma count_kind_app k l1 l2 : count_kind k (l1 ++ l2) = (count_kind k l1 + count_kind k l2)%nat.
Proof. induction l1 as [|k' l1 IH]; simpl; [done|]. rewrite IH. lia. Qed.

Lemma count_kind_repeat k k' n :
  count_kind k (repeat k' n) = if decide (k' = k) then n else 0%nat.
Proof. induction n as [|n IH]; simpl; [by case_decide|]. rewrite IH. by case_decide. Qed.

Lemma count_remove_kind k k' n ks :
  (n < count_kind k ks)%nat ->
  count_kind k' (remove_kind k n ks) =
    if decide (k' = k) then pred (count_kind k' ks) else count_kind k' ks.
Proof.
  revert n. induction ks as [|k0 ks IH]; intros n Hn; simpl in *; [lia|].
  destruct (decide (k0 = k)) as [->|Hne].
  - destruct n as [|n]; simpl.
    + destruct (decide (k' = k)) as [->|]; simpl; [by case_decide | by case_decide].
    + rewrite IH by lia. repeat case_decide; subst; try done; simpl; lia.
  - simpl. rewrite IH by lia. repeat case_decide; subst; try done; lia.
Qed.

Lemma kill_enemy_sprites_ok i lvl :
  (i < length (enemies lvl))%nat -> sprites_ok lvl -> sprites_ok (kill_enemy i lvl).
Proof.
  intros Hi [He Ho]. unfold sprites_ok, kill_enemy. simpl.
  rewrite !count_remove_kind by lia. simpl. rewrite length_delete by (apply lookup_lt_is_Some_2; lia).
  split; lia.
Qed.

Lemma add_enemy_sprites_ok e lvl : sprites_ok lvl -> sprites_ok (add_enemy e lvl).
Proof. intros [He Ho]. unfold sprites_ok, add_enemy. simpl. rewrite !count_kind_app, !length_app. simpl. lia. Qed.

Lemma add_obstacle_sprites_ok o lvl : sprites_ok lvl -> sprites_ok (add_obstacle o lvl).
Proof. intros [He Ho]. unfold sprites_ok, add_obstacle. simpl. rewrite !count_kind_app, !length_app. simpl. lia. Qed.

Lemma with_enemies_sprites_ok lvl es :
  length es = length (enemies lvl) -> sprites_ok lvl -> sprites_ok (with_enemies lvl es).
Proof. intros Hl [He Ho]. split; simpl; lia. Qed.

(** The members of [all_sprites] are the enemies and the obstacles, each
    once. *)
Lemma merge_perm ks es os :
  count_kind KEnemy ks = length es -> count_kind KObstacle ks = length os ->
  merge ks es os ≡ₚ (SEnemy <$> es) ++ (SObstacle <$> os).
Proof.
  revert es os. induction ks as [|[] ks IH]; intros es os He Ho; simpl in *.
  - destruct es, os; simpl in *; done.
  - destruct es as [|e es]; simpl in *; [lia|]. constructor. apply IH; lia.
  - destruct os as [|o os]; simpl in *; [lia|]. rewrite <- Permutation_middle.
    constructor. apply IH; lia.
Qed.

(** ** Lemmas on the collision loop *)

Lemma bullet_hits_spec_core bs lvl sb :
  let '(kept, lvl', sb') := bullet_hits bs lvl sb in
  exists k : nat,
    length bs = (length kept + k)%nat /\
    length (enemies lvl) = (length (enemies lvl') + k)%nat /\
    Scoreboard.score sb' = Scoreboard.score sb + 10 * Z.of_nat k /\
    Scoreboard.lives sb' = Scoreboard.lives sb /\ obstacles lvl' = obstacles lvl /\
    sublist kept bs.
Proof.
  revert lvl sb. induction bs as [|b bs IH]; intros lvl sb; simpl.
  { exists 0%nat. split_and!; simpl; try lia; done. }
  destruct (spritecollideany b (enemies lvl)) as [[i e]|] eqn:Hc.
  - specialize (IH (kill_enemy i lvl) (Scoreboard.increase_score sb)).
    destruct (bullet_hits bs _ _) as [[kept lvl'] sb'].
    destruct IH as (k & Hb & He & Hs & Hl & Ho & Hsub).
    pose proof (spritecollideany_delete_length _ _ _ _ Hc) as Hd.
    pose proof (spritecollideany_Some _ _ _ _ Hc) as [Hi _].
    assert (length (enemies lvl) <> 0%nat)
      by (intros Hz; apply length_zero_iff_nil in Hz; rewrite Hz in Hi; done).
    exists (S k). simpl in *. split_and!; try lia; [done | by apply sublist_cons].
  - specialize (IH lvl sb).
    destruct (bullet_hits bs _ _) as [[kept lvl'] sb'].
    destruct IH as (k & Hb & He & Hs & Hl & Ho & Hsub).
    exists k. simpl. split_and!; try lia; [done | by apply sublist_skip].
Qed.

(** C5. The bullets that hit, the enemies they killed and the points scored
    agree: [k] bullets left, [k] enemies died, [10 k] points were scored,
    no life was lost, the obstacles are untouched, and the kept bullets
    are a sublist of the bullets. *)
Theorem bullet_hits_spec bs lvl sb :
  let '(kept, lvl', sb') := bullet_hits bs lvl sb in
  exists k : nat,
    length bs = (length kept + k)%nat /\
    length (enemies lvl) = (length (enemies lvl') + k)%nat /\
    Scoreboard.score sb' = Scoreboard.score sb + 10 * Z.of_nat k /\
    Scoreboard.lives sb' = Scoreboard.lives sb /\ obstacles lvl' = obstacles lvl /\
    sublist kept bs.
Proof. apply bullet_hits_spec_core. Qed.

(** A property of the level that every [kill_enemy] of a live enemy
    keeps holds after the bullet loop. *)
Lemma bullet_hits_inv (P : t -> Prop) bs lvl sb :
  (forall i l, (i < length (enemies l))%nat -> P l -> P (kill_enemy i l)) ->
  P lvl -> P (bullet_hits bs lvl sb).1.2.
Proof.
  intros HP. revert lvl sb. induction bs as [|b bs IH]; intros lvl sb Hl; simpl; [done|].
  destruct (spritecollideany b (enemies lvl)) as [[i e]|] eqn:Hc.
  - apply IH, HP, Hl. apply spritecollideany_Some in Hc as [Hi _]. by eapply lookup_lt_Some.
  - specialize (IH lvl sb Hl). destruct (bullet_hits bs lvl sb) as [[kept lvl'] sb']. exact IH.
Qed.

Lemma kill_enemy_ok i lvl :
  Forall Enemy.ok (enemies lvl) -> Forall Enemy.ok (enemies (kill_enemy i lvl)).
Proof. apply Forall_delete. Qed.

(** ** Lemmas on the player collisions *)

Lemma hit_player_cases {B} `{HasRect B} (group : list B) p sb :
  hit_player group p sb = (p, sb) \/
  hit_player group p sb = (Player.reset p, Scoreboard.decrease_life sb).
Proof. unfold hit_player. destruct (spritecollideany p group); auto. Qed.

(** What a player collision can change: the player is where it was or at
    the spawn point, the bullets and speed are kept, at most one life is
    lost and the score is kept. *)
Lemma hit_player_effect {B} `{HasRect B} (group : list B) p sb :
  let '(p', sb') := hit_player group p sb in
  Player.bullets p' = Player.bullets p /\ Player.speed p' = Player.speed p /\
  (Player.rect p' = Player.rect p \/ Player.rect p' = Player.rect (Player.reset p)) /\
  Scoreboard.score sb' = Scoreboard.score sb /\
  (Scoreboard.lives sb' = Scoreboard.lives sb \/
   Scoreboard.lives sb' = Scoreboard.lives sb - 1).
Proof.
  destruct (hit_player_cases group p sb) as [-> | ->]; simpl; split_and!; auto.
Qed.

Lemma hit_player_overlap_core {B} `{HasRect B} (group : list B) p sb :
  positive_size (rect_of p) -> Forall (fun s => positive_size (rect_of s)) group ->
  hit_player group p sb = (Player.reset p, Scoreboard.decrease_life sb) <->
  Exists (fun s => overlap (rect_of p) (rect_of s)) group.
Proof.
  intros Hp Hg. unfold hit_player. rewrite Exists_exists.
  destruct (spritecollideany p group) as [[i y]|] eqn:E.
  - apply spritecollideany_Some in E as [Hi Hc]. split; [|done]. intros _.
    exists y. split; [by eapply list_elem_of_lookup_2|].
    apply colliderect_iff_overlap; [exact Hp | exact (Forall_lookup_1 _ _ _ _ Hg Hi) | exact Hc].
  - apply spritecollideany_None in E. split.
    + intros Heq. injection Heq as _ Hl. apply (f_equal Scoreboard.lives) in Hl. simpl in Hl. lia.
    + intros (y & Hy & Ho). rewrite Forall_forall in E. specialize (E y Hy).
      rewrite Forall_forall in Hg. apply colliderect_iff_overlap in Ho; [congruence | exact Hp | auto].
Qed.

(** C29. A player collision check ([if spritecollideany(player, group):
    player.reset(); scoreboard.decrease_life()]) fires exactly when some
    sprite of the group overlaps the player in the plain open-interval
    sense: pygame's [colliderect], with its zero-size test and [min]/[max]
    normalisation, is that test on the positive rects the game builds. *)
Theorem hit_player_overlap {B} `{HasRect B} (group : list B) p sb :
  positive_size (rect_of p) -> Forall (fun s => positive_size (rect_of s)) group ->
  hit_player group p sb = (Player.reset p, Scoreboard.decrease_life sb) <->
  Exists (fun s => overlap (rect_of p) (rect_of s)) group.
Proof. apply hit_player_overlap_core. Qed.

(** The collision check as a whole: obstacles untouched, at most two
    lives lost, [k] bullets and [k] enemies gone for [10 k] points, the
    player either where it was or at the spawn point. *)
Lemma check_collisions_spec lvl p sb :
  let '(lvl', p', sb') := check_collisions lvl p sb in
  obstacles lvl' = obstacles lvl /\
  (Forall Enemy.ok (enemies lvl) -> Forall Enemy.ok (enemies lvl')) /\
  (sprites_ok lvl -> sprites_ok lvl') /\
  (Player.rect p' = Player.rect p \/ Player.rect p' = Player.rect (Player.reset p)) /\
  Player.speed p' = Player.speed p /\
  exists k d : nat,
    (d <= 2)%nat /\
    Scoreboard.score sb' = Scoreboard.score sb + 10 * Z.of_nat k /\
    Scoreboard.lives sb' = Scoreboard.lives sb - Z.of_nat d /\
    length (enemies lvl) = (length (enemies lvl') + k)%nat /\
    length (Player.bullets p) = (length (Player.bullets p') + k)%nat.
Proof.
  unfold check_collisions.
  pose proof (hit_player_effect (enemies lvl) p sb) as H1.
  destruct (hit_player (enemies lvl) p sb) as [p1 sb1].
  pose proof (hit_player_effect (obstacles lvl) p1 sb1) as H2.
  destruct (hit_player (obstacles lvl) p1 sb1) as [p2 sb2].
  pose proof (bullet_hits_spec_core (Player.bullets p2) lvl sb2) as Hs.
  pose proof (bullet_hits_inv (fun l => Forall Enemy.ok (enemies l)) (Player.bullets p2) lvl sb2
                (fun i l _ => kill_enemy_ok i l)) as HF.
  pose proof (bullet_hits_inv sprites_ok (Player.bullets p2) lvl sb2 kill_enemy_sprites_ok) as HS.
  destruct (bullet_hits (Player.bullets p2) lvl sb2) as [[kept lvl'] sb3].
  destruct H1 as (Hb1 & Hs1 & Hr1 & Hsc1 & Hl1), H2 as (Hb2 & Hs2 & Hr2 & Hsc2 & Hl2).
  destruct Hs as (k & Hb & He & Hsc & Hl & Ho & _). simpl in *.
  assert (Hreset : Player.rect (Player.reset p1) = Player.rect (Player.reset p)).
  { apply Player.player_reset_rect_of; destruct Hr1 as [-> | ->]; done. }
  split_and!; [done | done | done | | congruence | ].
  - destruct Hr2 as [-> | ->]; [exact Hr1 | right; exact Hreset].
  - assert (exists d : nat, (d <= 2)%nat /\
              Scoreboard.lives sb2 = Scoreboard.lives sb - Z.of_nat d) as (d & Hd & Hld).
    { destruct Hl1 as [E1|E1], Hl2 as [E2|E2];
        [exists 0%nat | exists 1%nat | exists 1%nat | exists 2%nat]; split; lia. }
    exists k, d. rewrite Hb2, Hb1 in Hb. split_and!; lia.
Qed.

(** ** The tick of a level *)

Section UpdateLaws.
Context {G : Type} `{RandomLaws G}.

(** A freshly spawned enemy is in the spawn box and satisfies the enemy
    invariant. *)
Lemma random_enemy_box (g : G) :
  let e := (random_enemy g).1 in
  Enemy.ok e /\ 0 <= rx (Enemy.rect e) <= SCREEN_WIDTH - 50 /\
  -100 <= ry (Enemy.rect e) <= -40.
Proof.
  unfold random_enemy, rbind, rret.
  pose proof (randint_range 0 (SCREEN_WIDTH - 50) g ltac:(unfold SCREEN_WIDTH; lia)) as Hx.
  destruct (randint 0 (SCREEN_WIDTH - 50) g) as [x g1]. simpl in Hx.
  pose proof (randint_range (-100) (-40) g1 ltac:(lia)) as Hy.
  destruct (randint (-100) (-40) g1) as [y g2]. simpl in Hy.
  pose proof (Enemy.enemy_new_fields x y g2) as [Hr Hs].
  unfold Enemy.ok. rewrite Hr. simpl. unfold SCREEN_WIDTH, SCREEN_HEIGHT in *. lia.
Qed.

Lemma random_obstacle_ok (g : G) : Obstacle.ok (random_obstacle g).1.
Proof.
  unfold random_obstacle, rbind, rret.
  pose proof (randint_range 0 (SCREEN_WIDTH - 100) g ltac:(unfold SCREEN_WIDTH; lia)) as Hx.
  destruct (randint 0 (SCREEN_WIDTH - 100) g) as [x g1]. simpl in Hx.
  pose proof (randint_range 100 (SCREEN_HEIGHT - 30) g1 ltac:(unfold SCREEN_HEIGHT; lia)) as Hy.
  destruct (randint 100 (SCREEN_HEIGHT - 30) g1) as [y g2]. simpl in Hy.
  unfold Obstacle.ok. simpl. auto.
Qed.

Lemma spawn_enemies_spec lvl (g : G) :
  let lvl' := (spawn_enemies lvl g).1 in
  obstacles lvl' = obstacles lvl /\
  length (enemies lvl') =
    (if (length (enemies lvl) <? 5)%nat then S (length (enemies lvl))
     else length (enemies lvl)) /\
  (Forall Enemy.ok (enemies lvl) -> Forall Enemy.ok (enemies lvl')) /\
  (sprites_ok lvl -> sprites_ok lvl').
Proof.
  unfold spawn_enemies. destruct (length (enemies lvl) <? 5)%nat; [|done].
  unfold rbind, rret. pose proof (random_enemy_box g) as [Hok _].
  destruct (random_enemy g) as [e g1]. simpl in *.
  rewrite length_app. simpl. split_and!; [done | lia | | apply add_enemy_sprites_ok].
  intros Hall. apply Forall_app. auto.
Qed.

Lemma enemies_update_ok (es : list Enemy.t) (g : G) :
  Forall Enemy.ok es -> Forall Enemy.ok (rmapM Enemy.update es g).1.
Proof.
  intros Hall.
  apply (Forall2_Forall_r (fun e e' => Enemy.ok e -> Enemy.ok e') Enemy.ok _ es); auto.
  apply rmapM_Forall2. intros e g'. apply Enemy.enemy_update_ok_core.
Qed.

Lemma level_update_spec_core lvl p sb (g : G) :
  let '(lvl', p', sb') := (update lvl p sb g).1 in
  obstacles lvl' = obstacles lvl /\
  (Forall Enemy.ok (enemies lvl) -> Forall Enemy.ok (enemies lvl')) /\
  (Player.rect p' = Player.rect p \/ Player.rect p' = Player.rect (Player.reset p)) /\
  Player.speed p' = Player.speed p /\
  exists k d : nat,
    (d <= 2)%nat /\ (k <= length (enemies lvl))%nat /\
    Scoreboard.score sb' = Scoreboard.score sb + 10 * Z.of_nat k /\
    Scoreboard.lives sb' = Scoreboard.lives sb - Z.of_nat d /\
    length (enemies lvl') =
      (let m := (length (enemies lvl) - k)%nat in if (m <? 5)%nat then S m else m) /\
    (length (Player.bullets p') + k <= length (Player.bullets p))%nat.
Proof.
  unfold update, rbind, rret.
  pose proof (rmapM_length Enemy.update (enemies lvl) g) as Hlen.
  pose proof (enemies_update_ok (enemies lvl) g) as Hok.
  destruct (rmapM Enemy.update (enemies lvl) g) as [es g1]. simpl in Hlen, Hok.
  pose proof (check_collisions_spec (with_enemies lvl es) (Player.update p) sb) as Hc.
  destruct (check_collisions (with_enemies lvl es) (Player.update p) sb) as [[lvl2 p2] sb2].
  pose proof (spawn_enemies_spec lvl2 g1) as Hsp.
  destruct (spawn_enemies lvl2 g1) as [lvl3 g2]. simpl in *.
  destruct Hc as (Ho & Hok2 & _ & Hr & Hs & k & d & Hd & Hsc & Hl & He & Hb).
  destruct Hsp as (Ho3 & He3 & Hok3 & _).
  pose proof (length_omap_le Bullet.update (Player.bullets p)) as Hbu.
  split_and!; [congruence | auto | exact Hr | exact Hs |].
  exists k, d. simpl in He, Hb. split_and!; try lia.
  rewrite He3. replace (length (enemies lvl) - k)%nat with (length (enemies lvl2)) by lia.
  reflexivity.
Qed.

(** C4. The tick of a level, on every branch: the obstacles are unchanged;
    the enemy invariant is kept; the player is where it was or at the
    spawn point; for some [k] kills and [d <= 2] lives lost, the score
    grew by [10 k], the lives fell by [d], [k] enemies and at least [k]
    bullets are gone, and the enemy count after spawning is [m + 1]
    when [m], the count after the kills, is below 5, and [m] otherwise. *)
Theorem level_update_spec lvl p sb (g : G) :
  let '(lvl', p', sb') := (update lvl p sb g).1 in
  obstacles lvl' = obstacles lvl /\
  (Forall Enemy.ok (enemies lvl) -> Forall Enemy.ok (enemies lvl')) /\
  (Player.rect p' = Player.rect p \/ Player.rect p' = Player.rect (Player.reset p)) /\
  Player.speed p' = Player.speed p /\
  exists k d : nat,
    (d <= 2)%nat /\ (k <= length (enemies lvl))%nat /\
    Scoreboard.score sb' = Scoreboard.score sb + 10 * Z.of_nat k /\
    Scoreboard.lives sb' = Scoreboard.lives sb - Z.of_nat d /\
    length (enemies lvl') =
      (let m := (length (enemies lvl) - k)%nat in if (m <? 5)%nat then S m else m) /\
    (length (Player.bullets p') + k <= length (Player.bullets p))%nat.
Proof. apply level_update_spec_core. Qed.
(** The bullets after a level update are among the moved bullets, in
    their order: collisions only remove bullets. *)
Lemma level_update_bullets lvl p sb (g : G) :
  let '(_, p', _) := (update lvl p sb g).1 in
  sublist (Player.bullets p') (omap Bullet.update (Player.bullets p)).
Proof.
  unfold update, rbind, rret. destruct (rmapM Enemy.update (enemies lvl) g) as [es g1].
  unfold check_collisions, with_enemies. cbn [enemies obstacles].
  pose proof (hit_player_effect es (Player.update p) sb) as H1.
  destruct (hit_player es (Player.update p) sb) as [p1 sb1].
  pose proof (hit_player_effect (obstacles lvl) p1 sb1) as H2.
  destruct (hit_player (obstacles lvl) p1 sb1) as [p2 sb2]. simpl in H1, H2.
  pose proof (bullet_hits_spec_core (Player.bullets p2) (mk es (obstacles lvl) (all_sprites lvl)) sb2)
    as Hs.
  destruct (bullet_hits (Player.bullets p2) _ sb2) as [[kept lvl2] sb3].
  destruct (spawn_enemies lvl2 g1) as [lvl3 g2].
  destruct Hs as (_ & _ & _ & _ & _ & _ & Hsub).
  destruct H1 as (Hb1 & _), H2 as (Hb2 & _). rewrite Hb2, Hb1 in Hsub. exact Hsub.
Qed.

(** The enemy group never grows past [max n 5] from [n]: spawning only
    tops it up to five. *)
Lemma level_update_enemies_bound lvl p sb (g : G) (n : nat) :
  (length (enemies lvl) <= n)%nat -> (5 <= n)%nat ->
  let '(lvl', _, _) := (update lvl p sb g).1 in (length (enemies lvl') <= n)%nat.
Proof.
  intros Hl H5. pose proof (level_update_spec_core lvl p sb g) as Hu.
  destruct ((update lvl p sb g).1) as [[lvl' p'] sb'].
  destruct Hu as (_ & _ & _ & _ & k & d & _ & _ & _ & _ & He & _). cbv zeta in He. rewrite He.
  destruct (Nat.ltb_spec (length (enemies lvl) - k) 5); lia.
Qed.

(** A level class's constructor: its groups are the enemies and the
    obstacles drawn in order, and [all_sprites] has the enemies first. *)
Lemma build_eq ne no (g : G) :
  build ne no g =
    let '(es, g1) := rrepeat ne random_enemy g in
    let '(os, g2) := rrepeat no random_obstacle g1 in
    (mk es os (repeat KEnemy (length es) ++ repeat KObstacle (length os)), g2).
Proof.
  unfold build. unfold rbind at 1. rewrite rfoldM_seq_rrepeat.
  destruct (rrepeat ne random_enemy g) as [es g1]. rewrite rfoldM_seq_rrepeat.
  destruct (rrepeat no random_obstacle g1) as [os g2]. f_equal.
  assert (Hes : forall l, foldl (fun l e => add_enemy e l) l es =
                  mk (enemies l ++ es) (obstacles l) (all_sprites l ++ repeat KEnemy (length es))).
  { induction es as [|e es IH]; intros l; simpl; [destruct l; simpl; by rewrite !app_nil_r|].
    rewrite IH. simpl. by rewrite <- !app_assoc. }
  assert (Hos : forall l, foldl (fun l o => add_obstacle o l) l os =
                  mk (enemies l) (obstacles l ++ os) (all_sprites l ++ repeat KObstacle (length os))).
  { induction os as [|o os IH]; intros l; simpl; [destruct l; simpl; by rewrite !app_nil_r|].
    rewrite IH. simpl. by rewrite <- !app_assoc. }
  rewrite Hes, Hos. reflexivity.
Qed.

Lemma build_spec_core ne no (g : G) :
  let lvl := (build ne no g).1 in
  length (enemies lvl) = ne /\ length (obstacles lvl) = no /\ Forall Enemy.ok (enemies lvl).
Proof.
  rewrite build_eq.
  pose proof (rrepeat_length ne random_enemy g) as Hl.
  pose proof (rrepeat_Forall Enemy.ok ne random_enemy g
                (fun g' => proj1 (random_enemy_box g'))) as Hok.
  destruct (rrepeat ne random_enemy g) as [es g1]. simpl in *.
  pose proof (rrepeat_length no random_obstacle g1) as Ho.
  destruct (rrepeat no random_obstacle g1) as [os g2]. simpl in *. auto.
Qed.

Lemma build_obstacles_ok ne no (g : G) :
  Forall Obstacle.ok (obstacles (build ne no g).1) /\ sprites_ok (build ne no g).1.
Proof.
  rewrite build_eq. destruct (rrepeat ne random_enemy g) as [es g1].
  pose proof (rrepeat_Forall Obstacle.ok no random_obstacle g1 random_obstacle_ok) as Hok.
  destruct (rrepeat no random_obstacle g1) as [os g2]. split; [exact Hok|].
  unfold sprites_ok. simpl. rewrite !count_kind_app, !count_kind_repeat. simpl. lia.
Qed.

(** A level update keeps [all_sprites] in step with the two groups. *)
Lemma level_update_sprites_ok lvl p sb (g : G) :
  sprites_ok lvl -> sprites_ok (update lvl p sb g).1.1.1.
Proof.
  intros Hs. unfold update, rbind, rret.
  pose proof (rmapM_length Enemy.update (enemies lvl) g) as Hlen.
  destruct (rmapM Enemy.update (enemies lvl) g) as [es g1]. simpl in Hlen.
  pose proof (check_collisions_spec (with_enemies lvl es) (Player.update p) sb) as Hc.
  destruct (check_collisions (with_enemies lvl es) (Player.update p) sb) as [[lvl2 p2] sb2].
  pose proof (spawn_enemies_spec lvl2 g1) as (_ & _ & _ & Hsp).
  destruct (spawn_enemies lvl2 g1) as [lvl3 g2]. simpl.
  destruct Hc as (_ & _ & Hs2 & _). apply Hsp, Hs2, with_enemies_sprites_ok; assumption.
Qed.

(** C26. A new level has the enemy and obstacle counts its class asks for,
    and every enemy satisfies the invariant. *)
Theorem build_spec ne no (g : G) :
  let lvl := (build ne no g).1 in
  length (enemies lvl) = ne /\ length (obstacles lvl) = no /\ Forall Enemy.ok (enemies lvl).
Proof. apply build_spec_core. Qed.

End UpdateLaws.

(** ** Findings *)

(** A level with five enemies in a row and a player whose two bullets are
    each about to hit one of them. *)
Definition five_enemies : t :=
  mk (map (fun x => Enemy.mk (mkRect x 100 50 50) 1) [0; 100; 200; 300; 600]) [] (repeat KEnemy 5).

Definition two_shooter : Player.t :=
  Player.with_bullets Player.init [Bullet.new 25 130; Bullet.new 125 130].

(** A level with an enemy just above the spawn point and an obstacle on
    it, which [random_obstacle] can produce ([x] in [0, 700], [y] in
    [100, 570]). *)
Definition spawn_trap : t :=
  mk [Enemy.mk (mkRect 400 500 50 50) 1] [Obstacle.new 350 520] [KEnemy; KObstacle].

(** An obstacle that overlaps every player position within one move of
    the spawn point. *)
Definition camps (o : Obstacle.t) : Prop :=
  rw (Obstacle.rect o) = 100 /\ rh (Obstacle.rect o) = 30 /\
  305 < rx (Obstacle.rect o) < 445 /\ 515 < ry (Obstacle.rect o) < 585.

(** A player within one move (5 pixels) of the spawn point. *)
Definition near_spawn (p : Player.t) : Prop :=
  rw (Player.rect p) = 50 /\ rh (Player.rect p) = 50 /\
  395 <= rx (Player.rect p) <= 405 /\ 535 <= ry (Player.rect p) <= 545.

Lemma near_spawn_reset p : near_spawn p -> near_spawn (Player.reset p).
Proof. unfold near_spawn, Player.reset, SCREEN_WIDTH, SCREEN_HEIGHT. simpl. zlia. Qed.

(** From the spawn point, one [handle_keys] stays within one move of it:
    each axis moves at most once each way, by the speed 5. *)
Lemma handle_keys_near_spawn k p :
  Player.on_screen p -> Player.at_spawn p -> near_spawn (Player.handle_keys k p).
Proof.
  intros (Hw & Hh & Hs & _) [Hx Hy]. destruct p as [[x y w h] sp bs]. simpl in *.
  unfold SCREEN_WIDTH, SCREEN_HEIGHT in Hx, Hy. simpl in Hx, Hy. subst.
  destruct k as [[] [] [] [] []]; vm_compute; split_and!; congruence.
Qed.

Lemma camps_collides p o :
  near_spawn p -> camps o -> colliderect (rect_of p) (rect_of o) = true.
Proof.
  intros Hp Ho. apply colliderect_iff_overlap;
    unfold near_spawn, camps, positive_size, overlap, rect_of, Player.t_rect, Obstacle.t_rect in *;
    lia.
Qed.

Lemma spritecollideany_In {A B} `{HasRect A} `{HasRect B} (s : A) (l : list B) x :
  In x l -> colliderect (rect_of s) (rect_of x) = true -> exists i y, spritecollideany s l = Some (i, y).
Proof.
  intros Hin Hc. destruct (spritecollideany s l) as [[i y]|] eqn:E; [eauto|].
  apply spritecollideany_None in E. rewrite List.Forall_forall in E. specialize (E x Hin). congruence.
Qed.

Lemma check_collisions_camping lvl p sb o :
  In o (obstacles lvl) -> camps o -> near_spawn p ->
  let '(lvl', p', sb') := check_collisions lvl p sb in
  Scoreboard.lives sb' <= Scoreboard.lives sb - 1 /\
  Player.rect p' = Player.rect (Player.reset p).
Proof.
  intros Hin Hc Hp. unfold check_collisions.
  destruct (hit_player_cases (enemies lvl) p sb) as [E1|E1]; rewrite E1;
    unfold hit_player at 1;
  [ destruct (spritecollideany_In p (obstacles lvl) o Hin (camps_collides _ _ Hp Hc))
      as (i & y & ->)
  | destruct (spritecollideany_In (Player.reset p) (obstacles lvl) o Hin
      (camps_collides _ _ (near_spawn_reset _ Hp) Hc)) as (i & y & ->) ];
  match goal with
  | |- context [bullet_hits ?bs ?es0 ?sb0] =>
      pose proof (bullet_hits_spec_core bs es0 sb0) as Hs;
      destruct (bullet_hits bs es0 sb0) as [[kept es'] sb']
  end;
  destruct Hs as (k & _ & _ & _ & Hl & _); simpl in *; split; try lia; reflexivity.
Qed.

(** The enemy check resets a player it hits to the spawn point, where
    an obstacle covering the spawn neighbourhood hits it again. *)
Lemma check_collisions_two_lives lvl p sb o e :
  In e (enemies lvl) -> colliderect (rect_of p) (rect_of e) = true ->
  In o (obstacles lvl) -> camps o -> rw (Player.rect p) = 50 -> rh (Player.rect p) = 50 ->
  let '(lvl', p', sb') := check_collisions lvl p sb in
  Scoreboard.lives sb' = Scoreboard.lives sb - 2.
Proof.
  intros He Hce Hin Hc Hw Hh. unfold check_collisions, hit_player at 1.
  destruct (spritecollideany_In p (enemies lvl) e He Hce) as (i & y & ->).
  assert (Hn : near_spawn (Player.reset p)).
  { unfold near_spawn, Player.reset, SCREEN_WIDTH, SCREEN_HEIGHT. simpl. zlia. }
  unfold hit_player.
  destruct (spritecollideany_In (Player.reset p) (obstacles lvl) o Hin (camps_collides _ _ Hn Hc))
    as (i' & y' & ->).
  match goal with
  | |- context [bullet_hits ?bs ?es0 ?sb0] =>
      pose proof (bullet_hits_spec_core bs es0 sb0) as Hs;
      destruct (bullet_hits bs es0 sb0) as [[kept es'] sb']
  end.
  destruct Hs as (k & _ & _ & _ & Hl & _). simpl in *. lia.
Qed.

Section Camping.
Context {G : Type} `{RandomSource G}.

Lemma update_camping lvl p sb o (gen : G) :
  In o (obstacles lvl) -> camps o -> near_spawn p ->
  let '(lvl', p', sb') := (update lvl p sb gen).1 in
  Scoreboard.lives sb' <= Scoreboard.lives sb - 1 /\
  Player.rect p' = Player.rect (Player.reset p).
Proof.
  intros Hin Hc Hp. unfold update, rbind, rret.
  destruct (rmapM Enemy.update (enemies lvl) gen) as [es g1].
  pose proof (check_collisions_camping (with_enemies lvl es) (Player.update p) sb o Hin Hc Hp)
    as Hcc.
  destruct (check_collisions _ _ _) as [[lvl2 p2] sb2].
  destruct (spawn_enemies lvl2 g1) as [lvl3 g2]. exact Hcc.
Qed.

(** C19. Two lives in one update: for every level, player, scoreboard
    and random draws, if an enemy, after the enemies have moved, overlaps
    the player and an obstacle of the level covers the neighbourhood of
    the spawn point, [Level.update] takes two lives.  The enemy check
    resets the player to the spawn point and the obstacle check runs at
    that position.  From one life this leaves [-1], below the
    [0 <= lives] of spec section 3. *)
Theorem update_costs_two_lives lvl p sb o (gen : G) :
  In o (obstacles lvl) -> camps o -> rw (Player.rect p) = 50 -> rh (Player.rect p) = 50 ->
  Exists (fun e => colliderect (rect_of p) (rect_of e) = true) (rmapM Enemy.update (enemies lvl) gen).1 ->
  let '(lvl', p', sb') := (update lvl p sb gen).1 in
  Scoreboard.lives sb' = Scoreboard.lives sb - 2.
Proof.
  intros Hin Hc Hw Hh Hex. unfold update, rbind, rret.
  destruct (rmapM Enemy.update (enemies lvl) gen) as [es g1]. simpl in Hex.
  apply List.Exists_exists in Hex as (e & He & Hce).
  pose proof (check_collisions_two_lives (with_enemies lvl es) (Player.update p) sb o e He Hce Hin Hc Hw Hh)
    as Hcc.
  destruct (check_collisions _ _ _) as [[lvl2 p2] sb2].
  destruct (spawn_enemies lvl2 g1) as [lvl3 g2]. exact Hcc.
Qed.

(** C20. Spawn camping: with an obstacle of the current level covering the
    neighbourhood of the spawn point, an update of a player near the
    spawn point costs at least one life and leaves the player at the
    spawn point, whatever the enemies and bullets do.  Since the player
    moves at most 5 pixels per tick, this repeats every tick. *)
Theorem camping_obstacle_costs_life lvl p sb o (gen : G) :
  In o (obstacles lvl) -> camps o -> near_spawn p ->
  let '(lvl', p', sb') := (update lvl p sb gen).1 in
  Scoreboard.lives sb' <= Scoreboard.lives sb - 1 /\
  Player.rect p' = Player.rect (Player.reset p).
Proof. apply update_camping. Qed.
End Camping.

(** ** Concrete runs *)

Lemma level_update_spec_witness :
  let '(lvl', p', sb') := (update (G:=Z) five_enemies two_shooter Scoreboard.init 0).1 in
  obstacles lvl' = obstacles five_enemies /\
  (Forall Enemy.ok (enemies five_enemies) -> Forall Enemy.ok (enemies lvl')) /\
  (Player.rect p' = Player.rect two_shooter \/
   Player.rect p' = Player.rect (Player.reset two_shooter)) /\
  Player.speed p' = Player.speed two_shooter /\
  exists k d : nat,
    (d <= 2)%nat /\ (k <= length (enemies five_enemies))%nat /\
    Scoreboard.score sb' = Scoreboard.score Scoreboard.init + 10 * Z.of_nat k /\
    Scoreboard.lives sb' = Scoreboard.lives Scoreboard.init - Z.of_nat d /\
    length (enemies lvl') =
      (let m := (length (enemies five_enemies) - k)%nat in if (m <? 5)%nat then S m else m) /\
    (length (Player.bullets p') + k <= length (Player.bullets two_shooter))%nat.
Proof. exact (level_update_spec five_enemies two_shooter Scoreboard.init (0 : Z)). Defined.

Lemma hit_player_overlap_witness :
  hit_player [Obstacle.new 350 520] Player.init Scoreboard.init =
    (Player.reset Player.init, Scoreboard.decrease_life Scoreboard.init) <->
  Exists (fun s => overlap (rect_of Player.init) (rect_of s)) [Obstacle.new 350 520].
Proof.
  apply hit_player_overlap; [unfold positive_size; simpl; lia | repeat constructor; simpl; lia].
Defined.

Lemma build_spec_witness :
  let lvl := (level1 (G:=Z) 0).1 in
  length (enemies lvl) = 5%nat /\ length (obstacles lvl) = 3%nat /\ Forall Enemy.ok (enemies lvl).
Proof. exact (build_spec 5 3 (0 : Z)). Defined.

Lemma update_costs_two_lives_witness :
  let '(lvl', p', sb') := (update (G:=Z) spawn_trap Player.init (Scoreboard.mk 0 1) 0).1 in
  Scoreboard.lives sb' = Scoreboard.lives (Scoreboard.mk 0 1) - 2.
Proof.
  apply (update_costs_two_lives spawn_trap Player.init (Scoreboard.mk 0 1) (Obstacle.new 350 520));
    [simpl; left; reflexivity | unfold camps; simpl; lia | reflexivity | reflexivity |
     vm_compute; left; reflexivity].
Defined.

Lemma camping_obstacle_costs_life_witness :
  let '(lvl', p', sb') := (update (G:=Z) spawn_trap Player.init (Scoreboard.mk 0 3) 0).1 in
  Scoreboard.lives sb' <= Scoreboard.lives (Scoreboard.mk 0 3) - 1 /\
  Player.rect p' = Player.rect (Player.reset Player.init).
Proof.
  apply (camping_obstacle_costs_life spawn_trap Player.init (Scoreboard.mk 0 3) (Obstacle.new 350 520));
    [simpl; left; reflexivity | unfold camps; simpl; lia | unfold near_spawn; simpl; unfold SCREEN_WIDTH, SCREEN_HEIGHT; zlia].
Defined.

End Level.
