(* ===== verification/GameSpec.v ===== *)
(** * The contract of the game controller (spec sections 4.4 and 5)

    The top-level state machine the specification describes, stated
    without the program: a mode ([Instructions], [Playing], [GameOver],
    [Won]), the score, the lives, the level index and whether the loop
    still runs.  Each transition is labelled by what causes it: a key
    press starts the game from the instructions; "play again" and
    "exit" act only on an end screen; a quit request stops the loop; a
    playing tick changes the score by [10 k] and the lives by [-d] with
    [d <= 2] (the two player collision checks of a level update), then
    decides, in this order, game over ([lives <= 0]), win
    ([score >= 500]), advance from level 1 at 300, advance from level 0
    at 100.  A frame (section 5: one input poll, one update) takes its
    inputs in order, each where its mode enables it, then one tick if
    playing.  [Game.v] proves that every frame of the program is a
    frame of this contract on the inputs its events are. *)

From S2P Require Import Prelude.

Module GameSpec.

Inductive Mode := Instructions | Playing | GameOver | Won.

#[global] Instance Mode_eq_dec : EqDecision Mode.
Proof. solve_decision. Defined.

Record state := mk { mode : Mode; score : Z; lives : Z; level : nat; running : bool }.

Definition initial : state := mk Instructions 0 3 0 true.

(** "Play again": a fresh session, instructions skipped. *)
Definition fresh_session : state := mk Playing 0 3 0 true.

(** The decision at the end of a playing tick, on the new score and lives. *)
Definition after_tick (s : state) (score' lives' : Z) : state :=
  if lives' <=? 0 then mk GameOver score' lives' (level s) (running s)
  else if 500 <=? score' then mk Won score' lives' (level s) (running s)
  else if (300 <=? score') && (level s =? 1)%nat then mk Playing score' lives' 2 (running s)
  else if (100 <=? score') && (level s =? 0)%nat then mk Playing score' lives' 1 (running s)
  else mk Playing score' lives' (level s) (running s).

(** The inputs of spec section 4.4 that move the machine, and the tick:
    a key press, the "play again" and "exit" actions, a quit request,
    and one playing update. *)
Inductive label := LKey | LPlayAgain | LExit | LQuit | LTick.

#[global] Instance label_eq_dec : EqDecision label.
Proof. solve_decision. Defined.

(** The loop stops: only [running] changes. *)
Definition stop (s : state) : state := mk (mode s) (score s) (lives s) (level s) false.

Definition is_end (m : Mode) : bool :=
  match m with GameOver | Won => true | _ => false end.

(** The transitions of section 4.4, each under the input that causes it. *)
Inductive step : label -> state -> state -> Prop :=
  | step_start s :
      mode s = Instructions -> step LKey s (mk Playing (score s) (lives s) (level s) (running s))
  | step_tick s (k d : nat) :
      mode s = Playing -> (d <= 2)%nat ->
      step LTick s (after_tick s (score s + 10 * Z.of_nat k) (lives s - Z.of_nat d))
  | step_play_again s :
      is_end (mode s) = true -> step LPlayAgain s fresh_session
  | step_exit s :
      is_end (mode s) = true -> step LExit s (stop s)
  | step_quit s :
      step LQuit s (stop s).

(** The modes in which an input has an effect. *)
Definition enabled (l : label) (s : state) : bool :=
  match l with
  | LKey => bool_decide (mode s = Instructions)
  | LPlayAgain | LExit => is_end (mode s)
  | LQuit => true
  | LTick => bool_decide (mode s = Playing)
  end.

(** The inputs of a frame, in order: each takes its step where it is
    enabled and is ignored where it is not. *)
Inductive handles : list label -> state -> state -> Prop :=
  | handles_nil s : handles [] s s
  | handles_step l ls s s1 s2 : step l s s1 -> handles ls s1 s2 -> handles (l :: ls) s s2
  | handles_skip l ls s s2 : enabled l s = false -> handles ls s s2 -> handles (l :: ls) s s2.

(** One frame of section 5: the frame's inputs, then one tick if the
    machine is then playing. *)
Definition frame_step (ls : list label) (s s' : state) : Prop :=
  exists s1, handles ls s s1 /\ (if enabled LTick s1 then step LTick s1 s' else s' = s1).

Definition any_step (s s' : state) : Prop := exists l, step l s s'.

Definition reachable (s : state) : Prop := star any_step initial s.

(** What every reachable state satisfies.  Lives stay in [-1, 3]: a
    tick starts with at least one life and takes at most two. *)
Definition inv (s : state) : Prop :=
  (level s <= 2)%nat /\ 0 <= score s /\ score s mod 10 = 0 /\ -1 <= lives s <= 3 /\
  (mode s = GameOver -> lives s <= 0) /\ (mode s = Won -> 500 <= score s /\ 0 < lives s) /\
  (mode s = Instructions \/ mode s = Playing -> 0 < lives s).

Lemma after_tick_level s sc lv :
  (level s <= level (after_tick s sc lv) <= S (level s))%nat /\
  ((level s <= 2)%nat -> (level (after_tick s sc lv) <= 2)%nat).
Proof.
  unfold after_tick.
  destruct (lv <=? 0), (500 <=? sc), (300 <=? sc), (100 <=? sc),
    (Nat.eqb_spec (level s) 1), (Nat.eqb_spec (level s) 0); simpl; lia.
Qed.

Lemma after_tick_fields s sc lv :
  score (after_tick s sc lv) = sc /\ lives (after_tick s sc lv) = lv /\
  running (after_tick s sc lv) = running s /\
  (mode (after_tick s sc lv) = GameOver <-> lv <= 0) /\
  (mode (after_tick s sc lv) = Won <-> 0 < lv /\ 500 <= sc).
Proof.
  unfold after_tick.
  destruct (Z.leb_spec lv 0), (Z.leb_spec 500 sc), (300 <=? sc), (100 <=? sc),
    (level s =? 1)%nat, (level s =? 0)%nat; simpl; split_and!; try done; try lia;
    split; intros; try discriminate; try lia; exfalso; lia.
Qed.

Lemma after_tick_end_level s sc lv :
  mode (after_tick s sc lv) = GameOver \/ mode (after_tick s sc lv) = Won ->
  level (after_tick s sc lv) = level s.
Proof.
  unfold after_tick.
  destruct (lv <=? 0), (500 <=? sc), ((300 <=? sc) && (level s =? 1)%nat),
    ((100 <=? sc) && (level s =? 0)%nat); simpl; intros [E|E]; done.
Qed.

Lemma step_inv l s s' : inv s -> step l s s' -> inv s'.
Proof.
  intros (Hl & Hs0 & Hm & Hlv & Hgo & Hwon & Hpl) Hstep.
  inversion Hstep as [? Hi|? k d Hp Hd|? He|? He|]; subst.
  - unfold inv; simpl. split_and!; try done; try lia; intros E; first [discriminate E | auto].
  - destruct (after_tick_level s (score s + 10 * Z.of_nat k) (lives s - Z.of_nat d)) as [_ Hl'].
    destruct (after_tick_fields s (score s + 10 * Z.of_nat k) (lives s - Z.of_nat d))
      as (Hsc & Hlv' & _ & Hgo' & Hwon').
    specialize (Hpl (or_intror Hp)).
    unfold inv. rewrite Hsc, Hlv'.
    split_and!; [auto | lia | | lia | lia | intros E; apply Hgo' in E; lia
                | intros E; apply Hwon' in E; lia | ].
    + rewrite Z.mul_comm, Z_mod_plus_full. exact Hm.
    + intros E. destruct (Z.le_gt_cases (lives s - Z.of_nat d) 0) as [Hle|]; [|lia].
      apply Hgo' in Hle. destruct E as [E|E]; rewrite E in Hle; discriminate.
  - unfold inv; simpl. split_and!; try done; try lia; discriminate.
  - unfold inv, stop; simpl. split_and!; auto; lia.
  - unfold inv, stop; simpl. split_and!; auto; lia.
Qed.

Lemma initial_inv : inv initial.
Proof. unfold inv; simpl. split_and!; try lia; try reflexivity; intros; discriminate || lia. Qed.

(** A step is only taken where its input is enabled. *)
Lemma step_enabled l s s' : step l s s' -> enabled l s = true.
Proof. destruct 1; simpl; try done; by apply bool_decide_eq_true_2. Qed.

Lemma handles_app ls1 ls2 s s1 s2 :
  handles ls1 s s1 -> handles ls2 s1 s2 -> handles (ls1 ++ ls2) s s2.
Proof. induction 1; intros; simpl; eauto using handles. Qed.

Lemma handles_nil_inv s s' : handles [] s s' -> s' = s.
Proof. by inversion 1. Qed.

Lemma handles_star ls s s' : handles ls s s' -> star any_step s s'.
Proof. induction 1; [apply star_refl | eapply star_step; [eexists|]; eauto | auto]. Qed.

(** A frame is a sequence of the contract's steps. *)
Lemma frame_step_star ls s s' : frame_step ls s s' -> star any_step s s'.
Proof.
  intros (s1 & Hh & Ht). eapply star_trans; [exact (handles_star _ _ _ Hh)|].
  destruct (enabled LTick s1); [apply star_one; eexists; exact Ht | subst; apply star_refl].
Qed.

(** Without a "play again" input the lives never rise and the level
    index never falls: only that action restores a session. *)
Lemma step_no_reset l s s' :
  l <> LPlayAgain -> step l s s' -> lives s' <= lives s /\ (level s <= level s')%nat.
Proof.
  intros Hl Hs. inversion Hs as [|? k d _ Hd| | |]; subst; simpl; try done; try lia.
  destruct (after_tick_fields s (score s + 10 * Z.of_nat k) (lives s - Z.of_nat d)) as (_ & Hlv & _).
  pose proof (after_tick_level s (score s + 10 * Z.of_nat k) (lives s - Z.of_nat d)) as [Hle _].
  lia.
Qed.

Lemma handles_no_play_again ls s s' :
  handles ls s s' -> LPlayAgain ∉ ls -> lives s' <= lives s /\ (level s <= level s')%nat.
Proof.
  induction 1 as [|l ls s s1 s2 Hs _ IH|l ls s s2 _ _ IH]; intros Hn; [lia| |];
    apply not_elem_of_cons in Hn as [Hl Hn]; [|exact (IH Hn)]. destruct (IH Hn), (step_no_reset l s s1 (not_eq_sym Hl) Hs). lia.
Qed.

Lemma frame_no_play_again ls s s' :
  frame_step ls s s' -> LPlayAgain ∉ ls ->
  lives s' <= lives s /\ (level s <= level s')%nat.
Proof.
  intros (s1 & Hh & Ht) Hn. destruct (handles_no_play_again _ _ _ Hh Hn).
  destruct (enabled LTick s1); [|subst; lia].
  destruct (step_no_reset LTick s1 s' ltac:(discriminate) Ht). lia.
Qed.

(** Every reachable state of the contract satisfies [inv]: the level
    index never exceeds 2, the score is a non-negative multiple of 10,
    lives stay in [-1, 3] and are positive before the game ends, game
    over means no lives, a win means 500 points with lives left. *)
Theorem reachable_inv s : reachable s -> inv s.
Proof.
  intros Hr. eapply star_inv; [|exact Hr|exact initial_inv]. intros a b Ha [l Hs]. exact (step_inv l a b Ha Hs).
Qed.

End GameSpec.
