(* ===== verification/Game.v ===== *)
(** * The game controller (src/main.py, class [Game], lines 24-139)

    The state of [Game] and one iteration of the loop in [Game.run]:
    the events of the frame, handled in order by [handle_event], then,
    when playing, [tick]: the keys, the current level's update, and the
    game-over / win / level-advance checks in the code's [elif] order.
    [frame] is one iteration, [run] the loop over a finite input stream.

    [self.current_level] is not a field: it is always the object
    [self.levels[self.current_level_index]] (the two are assigned
    together), so the model reads it with [levels !! index] and writes
    the updated level back at that index.  A failed lookup, the
    [IndexError] of Python, is [None].

    After the definitions: the invariant [wf] and its preservation; the
    abstraction [abs] to [GameSpec] and the refinement theorems; the
    consequences for play (the [elif] order, monotone counters, frozen
    end screens, bounds on the sprite groups and the world box); the
    liveness of spawn camping and of the two ways to stop the loop; the
    equivalence [eq_but_running] with the [Proper] instances of the
    loop's operations; and concrete runs from [Game()]. *)

From S2P Require Import Prelude Rect Scoreboard Entities Player Level GameSpec.

(** The events the loop reacts to.  For a mouse click the position is the
    one [pygame.mouse.get_pos()] returns when the event is handled. *)
Inductive Event :=
  | QUIT
  | KEYDOWN
  | MOUSEBUTTONDOWN (pos : Z * Z)
  | OTHER_EVENT.

Module Game.

Record t := mk {
  levels : list Level.t;
  current_level_index : nat;
  player : Player.t;
  scoreboard : Scoreboard.t;
  running : bool;
  game_over : bool;
  won : bool;
  show_instructions : bool
}.

Definition set_running (g : t) (b : bool) : t :=
  mk (levels g) (current_level_index g) (player g) (scoreboard g) b (game_over g) (won g)
     (show_instructions g).
Definition set_show_instructions (g : t) (b : bool) : t :=
  mk (levels g) (current_level_index g) (player g) (scoreboard g) (running g) (game_over g)
     (won g) b.
Definition set_game_over (g : t) : t :=
  mk (levels g) (current_level_index g) (player g) (scoreboard g) (running g) true (won g)
     (show_instructions g).
Definition set_won (g : t) : t :=
  mk (levels g) (current_level_index g) (player g) (scoreboard g) (running g) (game_over g) true
     (show_instructions g).

(** The buttons [display_buttons] places (lines 121-122). *)
Definition play_again_button : Rect :=
  mkRect (SCREEN_WIDTH / 2 - 100) (SCREEN_HEIGHT / 2 + 50) 200 50.
Definition exit_button : Rect :=
  mkRect (SCREEN_WIDTH / 2 - 100) (SCREEN_HEIGHT / 2 + 120) 200 50.

Section Ops.
Context {G : Type} `{RandomSource G}.

(** [Game.__init__]: the three levels are built in order, at once. *)
Definition init : Rand G t :=
  let! l1 := Level.level1 in
  let! l2 := Level.level2 in
  let! l3 := Level.level3 in
  rret (mk [l1; l2; l3] 0 Player.init Scoreboard.init true false false true).

(** [reset_game]: [self.__init__()], then skip the instructions. *)
Definition reset_game : Rand G t :=
  let! g := init in rret (set_show_instructions g false).

(** The body of [for event in pygame.event.get()]. *)
Definition handle_event (g : t) (ev : Event) : Rand G t :=
  match ev with
  | QUIT => rret (set_running g false)
  | KEYDOWN => rret (if show_instructions g then set_show_instructions g false else g)
  | MOUSEBUTTONDOWN pos =>
      if game_over g || won g then
        let! g1 := if collidepoint play_again_button pos then reset_game else rret g in
        rret (if collidepoint exit_button pos then set_running g1 false else g1)
      else rret g
  | OTHER_EVENT => rret g
  end.

(** [self.current_level_index += 1; self.current_level =
    self.levels[self.current_level_index]; self.player.reset()]. *)
Definition advance (g : t) : option t :=
  let i := S (current_level_index g) in
  match levels g !! i with
  | Some _ =>
      Some (mk (levels g) i (Player.reset (player g)) (scoreboard g) (running g)
               (game_over g) (won g) (show_instructions g))
  | None => None
  end.

(** The playing part of an iteration of [run] (lines 54-67). *)
Definition tick (k : Keys) (g : t) : Rand G (option t) :=
  let i := current_level_index g in
  match levels g !! i with
  | None => rret None
  | Some lvl =>
      let p1 := Player.handle_keys k (player g) in
      let! r := Level.update lvl p1 (scoreboard g) in
      let '(lvl', p2, sb) := r in
      let g1 := mk (<[i := lvl']> (levels g)) i p2 sb (running g) (game_over g) (won g)
                   (show_instructions g) in
      rret (if Scoreboard.is_game_over sb then Some (set_game_over g1)
            else if 500 <=? Scoreboard.score sb then Some (set_won g1)
            else if (300 <=? Scoreboard.score sb) && (i =? 1)%nat then advance g1
            else if (100 <=? Scoreboard.score sb) && (i =? 0)%nat then advance g1
            else Some g1)
  end.

(** One iteration of [while self.running] (lines 40-70); drawing and the
    clock do not change the state. *)
Definition frame (evs : list Event) (k : Keys) (g : t) : Rand G (option t) :=
  let! g1 := rfoldM handle_event g evs in
  if negb (show_instructions g1) && negb (game_over g1) && negb (won g1)
  then tick k g1 else rret (Some g1).

(** [Game.run] over a finite stream of frames: it stops when [running]
    is false at the top of the loop. *)
Fixpoint run (inputs : list (list Event * Keys)) (g : t) : Rand G (option t) :=
  match inputs with
  | [] => rret (Some g)
  | (evs, k) :: rest =>
      if running g then
        let! r := frame evs k g in
        match r with
        | Some g' => run rest g'
        | None => rret None
        end
      else rret (Some g)
  end.
End Ops.

(** ** The state invariant *)

(** Every enemy well formed, at most ten of them (the most a level class
    creates; spawning only tops the group up to five), every obstacle in
    the box the constructors place it in, and [all_sprites] in step with
    the two groups. *)
Definition level_ok (lvl : Level.t) : Prop :=
  Forall Enemy.ok (Level.enemies lvl) /\ (length (Level.enemies lvl) <= 10)%nat /\
  Forall Obstacle.ok (Level.obstacles lvl) /\ Level.sprites_ok lvl.

(** Three levels and an index into them, every level well formed, the
    player on screen with its bullets spaced, a score that is a non-negative multiple of 10, and
    the end flags consistent with the scoreboard (game over means no
    lives left; a win excludes game over and means 500 points with lives
    left; neither is set while the instructions are shown). *)
Definition wf (g : t) : Prop :=
  length (levels g) = 3%nat /\ (current_level_index g < 3)%nat /\
  Forall level_ok (levels g) /\ Player.ok (player g) /\
  Scoreboard.score_ok (scoreboard g) /\
  (game_over g = true -> Scoreboard.lives (scoreboard g) <= 0) /\
  (won g = true -> game_over g = false /\ 500 <= Scoreboard.score (scoreboard g) /\
                   0 < Scoreboard.lives (scoreboard g)) /\
  (show_instructions g = true -> game_over g = false /\ won g = false).

Lemma wf_set_running (g : t) b : wf g -> wf (set_running g b).
Proof. done. Qed.

Lemma wf_set_show (g : t) : wf g -> wf (set_show_instructions g false).
Proof. intros (H1 & H2 & H3 & H4 & H5 & H6 & H7 & _). unfold wf; simpl. split_and!; done. Qed.

#[global] Hint Resolve wf_set_running wf_set_show : shooter.

(** The abstraction of a game state to the contract's state.  The mode
    follows the priority of [Game.draw]: instructions, won, game over. *)
Definition mode_of (g : t) : GameSpec.Mode :=
  if show_instructions g then GameSpec.Instructions
  else if won g then GameSpec.Won
  else if game_over g then GameSpec.GameOver
  else GameSpec.Playing.

Definition abs (g : t) : GameSpec.state :=
  GameSpec.mk (mode_of g) (Scoreboard.score (scoreboard g)) (Scoreboard.lives (scoreboard g))
    (current_level_index g) (running g).

(** The input of the contract an event is: a key press, a quit, or a
    click on the "Play Again" or the "Exit" button; other clicks and
    events are no input of the contract. *)
Definition event_label (ev : Event) : option GameSpec.label :=
  match ev with
  | QUIT => Some GameSpec.LQuit
  | KEYDOWN => Some GameSpec.LKey
  | MOUSEBUTTONDOWN pos =>
      if collidepoint play_again_button pos then Some GameSpec.LPlayAgain
      else if collidepoint exit_button pos then Some GameSpec.LExit
      else None
  | OTHER_EVENT => None
  end.

Section WfLaws.
Context {G : Type} `{RandomLaws G}.

Lemma game_init_wf (gen : G) : wf (init gen).1.
Proof.
  unfold init, Level.level1, Level.level2, Level.level3, rbind, rret.
  pose proof (Level.build_spec_core 5 3 gen) as (E1 & _ & H1).
  pose proof (Level.build_obstacles_ok 5 3 gen) as [O1 S1].
  destruct (Level.build 5 3 gen) as [l1 g1].
  pose proof (Level.build_spec_core 7 5 g1) as (E2 & _ & H2).
  pose proof (Level.build_obstacles_ok 7 5 g1) as [O2 S2].
  destruct (Level.build 7 5 g1) as [l2 g2].
  pose proof (Level.build_spec_core 10 7 g2) as (E3 & _ & H3).
  pose proof (Level.build_obstacles_ok 10 7 g2) as [O3 S3].
  destruct (Level.build 10 7 g2) as [l3 g3]. simpl in *.
  split_and!; simpl; try done;
    first [ apply Player.player_init_ok | apply Scoreboard.scoreboard_init_score_ok | lia
          | repeat (constructor; [split_and!; [assumption | lia | assumption | assumption] |]);
            constructor ].
Qed.

Lemma reset_game_wf (gen : G) : wf (reset_game gen).1.
Proof.
  unfold reset_game, rbind, rret. pose proof (game_init_wf gen) as Hw.
  destruct (init gen) as [g g1]. simpl. auto with shooter.
Qed.

Lemma handle_event_wf g ev (gen : G) : wf g -> wf (handle_event g ev gen).1.
Proof.
  intros Hw. destruct ev as [| |pos|]; simpl; try exact Hw.
  - destruct (show_instructions g); auto with shooter.
  - destruct (game_over g || won g); [|exact Hw].
    unfold rbind, rret.
    destruct (collidepoint play_again_button pos).
    + pose proof (reset_game_wf gen) as Hr. destruct (reset_game gen) as [g1 g2].
      simpl. destruct (collidepoint exit_button pos); exact Hr.
    + simpl. destruct (collidepoint exit_button pos); exact Hw.
Qed.
(** [advance] from level 0 or 1: the next level exists, the index grows
    by one and the player is back at the spawn point. *)
Lemma advance_spec g :
  wf g -> (current_level_index g < 2)%nat ->
  advance g = Some (mk (levels g) (S (current_level_index g)) (Player.reset (player g))
                       (scoreboard g) (running g) (game_over g) (won g) (show_instructions g)) /\
  wf (mk (levels g) (S (current_level_index g)) (Player.reset (player g))
         (scoreboard g) (running g) (game_over g) (won g) (show_instructions g)).
Proof.
  intros (Hlen & Hi & Hlv & Hp & Hsc & Hgo & Hwon & Hsh) Hi2. unfold advance.
  destruct (lookup_lt_is_Some_2 (levels g) (S (current_level_index g)) ltac:(lia)) as [l ->].
  split; [done|].
  split_and!; simpl; try done; first [lia | auto with shooter].
Qed.

(** The state a tick builds before its checks, when the level update
    returned [(lvl', p2, sb)], is well formed with its flags cleared. *)
Lemma tick_state_wf g k lvl (gen : G) :
  wf g -> game_over g = false -> won g = false ->
  levels g !! current_level_index g = Some lvl ->
  let '(lvl', p2, sb) := (Level.update lvl (Player.handle_keys k (player g)) (scoreboard g) gen).1 in
  wf (mk (<[current_level_index g := lvl']> (levels g)) (current_level_index g) p2 sb
         (running g) (game_over g) (won g) (show_instructions g)) /\
  exists kk d : nat, (d <= 2)%nat /\
    Scoreboard.score sb = Scoreboard.score (scoreboard g) + 10 * Z.of_nat kk /\
    Scoreboard.lives sb = Scoreboard.lives (scoreboard g) - Z.of_nat d.
Proof.
  intros (Hlen & Hi & Hlv & Hp & Hsc & _ & _ & _) Hgo Hwon Hl.
  pose proof (Forall_lookup_1 _ _ _ _ Hlv Hl) as (Hlok & Hlcount & Hlobs & Hlspr).
  pose proof (Player.handle_keys_update_ok k (player g) Hp) as [Hp1 Hb1].
  set (p1 := Player.handle_keys k (player g)) in *.
  pose proof (Level.level_update_spec_core lvl p1 (scoreboard g) gen) as Hu.
  pose proof (Level.level_update_bullets lvl p1 (scoreboard g) gen) as Hbu.
  pose proof (Level.level_update_enemies_bound lvl p1 (scoreboard g) gen 10 Hlcount ltac:(lia)) as Hn.
  pose proof (Level.level_update_sprites_ok lvl p1 (scoreboard g) gen Hlspr) as Hspr.
  destruct (Level.update lvl _ _ gen) as [[[lvl' p2] sb] gen']. simpl in Hu, Hbu, Hn, Hspr.
  destruct Hu as (Ho & Hok & Hr & Hs & kk & d & Hd & _ & Hsc' & Hl' & _ & _).
  split; [|exists kk, d; split_and!; assumption].
  unfold wf; simpl. rewrite Hgo, Hwon.
  split_and!; try done.
  - rewrite length_insert. exact Hlen.
  - apply Forall_insert; [done|]. split_and!; [apply Hok, Hlok | exact Hn | by rewrite Ho | exact Hspr].
  - split; [|exact (Player.spaced_sublist _ _ _ Hbu Hb1)].
    destruct Hr as [Hr | Hr].
    + exact (Player.on_screen_rect (Player.update p1) _ Hr Hs Hp1).
    + apply (Player.on_screen_rect (Player.reset p1)); [exact Hr | exact Hs |].
      destruct Hp1 as (Hw & Hh & Hs1 & _). by apply Player.player_reset_on_screen.
  - apply (Scoreboard.score_ok_evolves (scoreboard g)); [exact Hsc | exists kk, d; lia].
Qed.

Lemma tick_spec_core g k (gen : G) :
  wf g -> show_instructions g = false -> game_over g = false -> won g = false ->
  exists g' (kk d : nat), (tick k g gen).1 = Some g' /\ wf g' /\ (d <= 2)%nat /\
    abs g' = GameSpec.after_tick (abs g)
               (Scoreboard.score (scoreboard g) + 10 * Z.of_nat kk)
               (Scoreboard.lives (scoreboard g) - Z.of_nat d).
Proof.
  intros Hw Hsh Hgo Hwon. pose proof Hw as (Hlen & Hi & _).
  unfold tick.
  destruct (lookup_lt_is_Some_2 (levels g) (current_level_index g) ltac:(lia)) as [lvl Hl].
  rewrite Hl. unfold rbind, rret.
  pose proof (tick_state_wf g k lvl gen Hw Hgo Hwon Hl) as Hs.
  destruct (Level.update lvl _ _ gen) as [[[lvl' p2] sb] gen'].
  destruct Hs as (Hw1 & kk & d & Hd & Hsc' & Hl'). simpl.
  set (g1 := mk _ _ p2 sb _ _ _ _) in *.
  enough (exists g', (if Scoreboard.is_game_over sb then Some (set_game_over g1)
            else if 500 <=? Scoreboard.score sb then Some (set_won g1)
            else if (300 <=? Scoreboard.score sb) && (current_level_index g =? 1)%nat
                 then advance g1
            else if (100 <=? Scoreboard.score sb) && (current_level_index g =? 0)%nat
                 then advance g1
            else Some g1) = Some g' /\ wf g' /\
            abs g' = GameSpec.after_tick (abs g) (Scoreboard.score sb) (Scoreboard.lives sb))
    as (g' & Hr & Hw' & Ha).
  { exists g', kk, d. rewrite <- Hsc', <- Hl'. auto. }
  pose proof Hw1 as (Hlen1 & Hi1 & Hlv1 & Hp1 & Hsc1 & _ & _ & _).
  unfold GameSpec.after_tick, Scoreboard.is_game_over. cbn [abs GameSpec.level GameSpec.running].
  destruct (Scoreboard.lives sb <=? 0) eqn:E1.
  { eexists; split_and!; [reflexivity | | ].
    - unfold wf; simpl. rewrite Hwon, Hsh. apply Z.leb_le in E1. split_and!; done.
    - unfold abs, mode_of; simpl. by rewrite Hsh, Hwon. }
  apply Z.leb_gt in E1.
  destruct (500 <=? Scoreboard.score sb) eqn:E2.
  { eexists; split_and!; [reflexivity | | ].
    - unfold wf; simpl. rewrite Hgo, Hsh. apply Z.leb_le in E2. split_and!; try done; lia.
    - unfold abs, mode_of; simpl. by rewrite Hsh. }
  destruct ((300 <=? Scoreboard.score sb) && (current_level_index g =? 1)%nat) eqn:E3.
  { apply andb_prop in E3 as [_ E3]. apply Nat.eqb_eq in E3.
    destruct (advance_spec g1 Hw1 ltac:(simpl; lia)) as [-> Hw2].
    eexists; split_and!; [reflexivity | exact Hw2 |].
    unfold abs, mode_of; simpl. rewrite Hsh, Hwon, Hgo, E3. reflexivity. }
  destruct ((100 <=? Scoreboard.score sb) && (current_level_index g =? 0)%nat) eqn:E4.
  { apply andb_prop in E4 as [_ E4]. apply Nat.eqb_eq in E4.
    destruct (advance_spec g1 Hw1 ltac:(simpl; lia)) as [-> Hw2].
    eexists; split_and!; [reflexivity | exact Hw2 |].
    unfold abs, mode_of; simpl. rewrite Hsh, Hwon, Hgo, E4. reflexivity. }
  eexists; split_and!; [reflexivity | exact Hw1 |].
  unfold abs, mode_of; simpl. by rewrite Hsh, Hwon, Hgo.
Qed.

(** C3. The tick, on every branch of its [elif] chain: it never fails, it
    keeps the invariant, and its effect on the abstract state is one
    [step_tick] of the contract: [k] kills, [d <= 2] lives lost, then
    the game-over / win / advance decision. *)
Theorem tick_spec g k (gen : G) :
  wf g -> show_instructions g = false -> game_over g = false -> won g = false ->
  exists g' (kk d : nat), (tick k g gen).1 = Some g' /\ wf g' /\ (d <= 2)%nat /\
    abs g' = GameSpec.after_tick (abs g)
               (Scoreboard.score (scoreboard g) + 10 * Z.of_nat kk)
               (Scoreboard.lives (scoreboard g) - Z.of_nat d).
Proof. apply tick_spec_core. Qed.

(** The events of a frame keep the invariant. *)
Lemma events_wf g evs (gen : G) : wf g -> wf (rfoldM handle_event g evs gen).1.
Proof.
  apply rfoldM_invariant. intros a b g' Ha. by apply handle_event_wf.
Qed.

(** A frame never fails and keeps the invariant. *)
Lemma frame_wf g evs k (gen : G) :
  wf g -> exists g', (frame evs k g gen).1 = Some g' /\ wf g'.
Proof.
  intros Hw. unfold frame, rbind.
  pose proof (events_wf g evs gen Hw) as Hw1.
  destruct (rfoldM handle_event g evs gen) as [g1 gen1]. simpl in Hw1.
  destruct (show_instructions g1) eqn:Hsh, (game_over g1) eqn:Hgo, (won g1) eqn:Hwon; simpl;
    try (eexists; split; [reflexivity | exact Hw1]).
  destruct (tick_spec_core g1 k gen1 Hw1 Hsh Hgo Hwon) as (g' & kk & d & -> & Hw' & _).
  eexists; split; [reflexivity | exact Hw'].
Qed.
End WfLaws.

Section RunLaws.
Context {G : Type} `{RandomLaws G}.

(** What a tick is made of: the level update's result written back at the
    current index, and the player either kept or, on a level advance,
    reset. *)
Lemma tick_shape g k lvl (gen : G) g' :
  levels g !! current_level_index g = Some lvl -> (tick k g gen).1 = Some g' ->
  let '(lvl', p2, sb) := (Level.update lvl (Player.handle_keys k (player g)) (scoreboard g) gen).1 in
  levels g' = <[current_level_index g := lvl']> (levels g) /\ scoreboard g' = sb /\
  running g' = running g /\ show_instructions g' = show_instructions g /\
  ((current_level_index g' = current_level_index g /\ player g' = p2) \/
   (current_level_index g' = S (current_level_index g) /\ player g' = Player.reset p2)).
Proof.
  intros Hl Ht. unfold tick in Ht. rewrite Hl in Ht. unfold rbind, rret in Ht.
  destruct (Level.update lvl _ _ gen) as [[[lvl' p2] sb] gen']. simpl in Ht |- *.
  unfold advance in Ht. repeat case_match; simplify_eq; simpl; auto 10.
Qed.

Lemma frame_no_events g k (gen : G) :
  frame [] k g gen =
    if negb (show_instructions g) && negb (game_over g) && negb (won g)
    then tick k g gen else (Some g, gen).
Proof. unfold frame, rbind. simpl. by destruct (_ && _ && _). Qed.

Lemma run_cons g evs k rest (gen : G) :
  running g = true ->
  run ((evs, k) :: rest) g gen =
    let '(r, gen1) := frame evs k g gen in
    match r with Some g1 => run rest g1 gen1 | None => (None, gen1) end.
Proof.
  intros Hr. simpl. rewrite Hr. unfold rbind. by destruct (frame evs k g gen) as [[g1|] gen1].
Qed.

Lemma run_stopped rest g (gen : G) : running g = false -> (run rest g gen).1 = Some g.
Proof. intros Hr. destruct rest as [|[evs k] rest]; simpl; [done|]. by rewrite Hr. Qed.

Lemma run_wf inputs g (gen : G) :
  wf g -> exists g', (run inputs g gen).1 = Some g' /\ wf g'.
Proof.
  revert g gen. induction inputs as [|[evs k] inputs IH]; intros g gen Hw; simpl.
  { eexists; split; [reflexivity | exact Hw]. }
  destruct (running g); [|eexists; split; [reflexivity | exact Hw]].
  unfold rbind. pose proof (frame_wf g evs k gen Hw) as (g1 & Hf & Hw1).
  destruct (frame evs k g gen) as [r gen1]. simpl in Hf. subst r.
  apply IH. exact Hw1.
Qed.

(** Every state of a session started by [Game()] is well formed. *)
Lemma session_wf inputs (gen gen' : G) g' :
  (run inputs (init gen).1 gen').1 = Some g' -> wf g'.
Proof.
  intros Hr. destruct (run_wf inputs _ gen' (game_init_wf gen)) as (g'' & Hr' & Hw).
  rewrite Hr in Hr'. injection Hr' as ->. exact Hw.
Qed.

(** C10. The bullet group stays bounded: in every state of a session, the
    player has at most 81 bullets.  A bullet is fired at most once per
    tick, moves up 7 pixels per tick from a bottom at most 563 after its
    first tick, and is killed once its bottom is above the screen. *)
Theorem session_bullets_bounded inputs (gen gen' : G) g' :
  (run inputs (init gen).1 gen').1 = Some g' -> (length (Player.bullets (player g')) <= 81)%nat.
Proof.
  intros Hr. destruct (session_wf inputs gen gen' g' Hr) as (_ & _ & _ & [_ Hb] & _).
  pose proof (Player.spaced_length Player.BULLET_CEIL _ ltac:(unfold Player.BULLET_CEIL, SCREEN_HEIGHT; lia) Hb)
    as Hl.
  change (Player.BULLET_CEIL / 7 + 1) with 81 in Hl. lia.
Qed.

(** C11. The enemy groups stay bounded: in every state of a session, each
    of the three levels has at most ten enemies, the size of the largest
    level; spawning only tops a group up to five. *)
Theorem session_enemies_bounded inputs (gen gen' : G) g' :
  (run inputs (init gen).1 gen').1 = Some g' ->
  Forall (fun lvl => (length (Level.enemies lvl) <= 10)%nat) (levels g').
Proof.
  intros Hr. destruct (session_wf inputs gen gen' g' Hr) as (_ & _ & Hl & _).
  eapply Forall_impl; [exact Hl|]. intros lvl (_ & Hn & _). exact Hn.
Qed.

(** C33. [all_sprites] never goes stale: in every state of a session, the
    [all_sprites] group of each level holds exactly its live enemies and
    its obstacles, each once ([kill] removes a shot enemy from both
    groups; a spawned enemy is added to both). *)
Theorem session_all_sprites inputs (gen gen' : G) g' :
  (run inputs (init gen).1 gen').1 = Some g' ->
  Forall (fun lvl => Level.sprites lvl ≡ₚ
            (Level.SEnemy <$> Level.enemies lvl) ++ (Level.SObstacle <$> Level.obstacles lvl))
    (levels g').
Proof.
  intros Hr. destruct (session_wf inputs gen gen' g' Hr) as (_ & _ & Hl & _).
  eapply Forall_impl; [exact Hl|]. intros lvl (_ & _ & _ & [He Ho]).
  by apply Level.merge_perm.
Qed.

(** The rects of every sprite of a game state: the player, its bullets,
    and the enemies and obstacles of the three levels. *)
Definition sprite_rects (g : t) : list Rect :=
  Player.rect (player g) :: (Bullet.rect <$> Player.bullets (player g)) ++
  concat ((fun lvl => (Enemy.rect <$> Level.enemies lvl) ++ (Obstacle.rect <$> Level.obstacles lvl))
            <$> levels g).

Lemma wf_in_world g : wf g -> Forall in_world (sprite_rects g).
Proof.
  intros (_ & _ & Hl & Hp & _). destruct (Player.player_ok_in_world _ Hp) as [Hr Hb].
  constructor; [exact Hr|]. apply Forall_app. split; [by apply Forall_fmap|].
  apply Forall_concat, Forall_fmap. eapply Forall_impl; [exact Hl|].
  intros lvl (He & _ & Ho & _). simpl. apply Forall_app. split; apply Forall_fmap.
  - eapply Forall_impl; eauto with shooter.
  - eapply Forall_impl; eauto with shooter.
Qed.

(** C31. Every sprite stays in the world box: in every state of a session,
    the rect of the player, of each bullet and of each enemy and obstacle
    of the three levels has a positive size and lies within
    [0, 800] x [-100, 650].  pygame stores these fields as C [int]s, so no
    assignment of the game can overflow them. *)
Theorem session_rects_in_world inputs (gen gen' : G) g' :
  (run inputs (init gen).1 gen').1 = Some g' -> Forall in_world (sprite_rects g').
Proof. intros Hr. apply wf_in_world, (session_wf inputs gen gen' g' Hr). Qed.
End RunLaws.


Lemma mode_of_cases g :
  (mode_of g = GameSpec.GameOver ->
     show_instructions g = false /\ won g = false /\ game_over g = true) /\
  (mode_of g = GameSpec.Won -> show_instructions g = false /\ won g = true) /\
  (mode_of g = GameSpec.Playing ->
     show_instructions g = false /\ won g = false /\ game_over g = false).
Proof.
  unfold mode_of.
  destruct (show_instructions g), (won g), (game_over g); split_and!; intros E; done.
Qed.

(** ** Refinement of the contract *)

Lemma reset_game_abs {G} `{RandomSource G} (gen : G) : abs (reset_game gen).1 = GameSpec.fresh_session.
Proof.
  unfold reset_game, init, rbind, rret.
  destruct (Level.level1 gen) as [l1 g1], (Level.level2 g1) as [l2 g2], (Level.level3 g2) as [l3 g3].
  reflexivity.
Qed.

Lemma game_init_abs {G} `{RandomSource G} (gen : G) : abs (init gen).1 = GameSpec.initial.
Proof.
  unfold init, rbind, rret.
  destruct (Level.level1 gen) as [l1 g1], (Level.level2 g1) as [l2 g2], (Level.level3 g2) as [l3 g3].
  reflexivity.
Qed.

(** The two buttons do not overlap: a click hits at most one. *)
Lemma buttons_disjoint pos :
  collidepoint exit_button pos = true -> collidepoint play_again_button pos = false.
Proof.
  rewrite collidepoint_spec. intros Hin. apply not_true_is_false. rewrite collidepoint_spec.
  unfold exit_button, play_again_button, SCREEN_WIDTH, SCREEN_HEIGHT in *. simpl in *. lia.
Qed.
Lemma buttons_apart pos :
  collidepoint play_again_button pos = true -> collidepoint exit_button pos = false.
Proof.
  intros Hp. destruct (collidepoint exit_button pos) eqn:E; [|done].
  by rewrite (buttons_disjoint pos E) in Hp.
Qed.


(** The end screens of the contract are those of the two flags. *)
Lemma mode_of_end g : wf g -> GameSpec.is_end (mode_of g) = game_over g || won g.
Proof.
  intros (_ & _ & _ & _ & _ & _ & _ & Hsh). unfold mode_of.
  destruct (show_instructions g); [by destruct (Hsh eq_refl) as [-> ->]|].
  by destruct (won g), (game_over g).
Qed.

Lemma handles_one l s s' : GameSpec.step l s s' -> GameSpec.handles [l] s s'.
Proof. intros Hs. eauto using GameSpec.handles. Qed.

Lemma handles_skip_one l s : GameSpec.enabled l s = false -> GameSpec.handles [l] s s.
Proof. intros He. eauto using GameSpec.handles. Qed.

#[local] Hint Resolve handles_one handles_skip_one GameSpec.handles_nil : shooter.

Section Refinement.
Context {G : Type} `{RandomLaws G}.

(** Each event is its input of the contract: taken where enabled,
    ignored where not. *)
Lemma handle_event_refines g ev (gen : G) :
  wf g -> GameSpec.handles (option_list (event_label ev)) (abs g) (abs (handle_event g ev gen).1).
Proof.
  intros Hw. pose proof (mode_of_end g Hw) as Hend.
  pose proof Hw as (_ & _ & _ & _ & _ & _ & _ & Hsh).
  destruct ev as [| |pos|]; simpl.
  - apply handles_one, GameSpec.step_quit.
  - destruct (show_instructions g) eqn:Hs.
    + destruct (Hsh eq_refl) as [Hgo Hwon]. apply handles_one.
      unfold abs at 2, mode_of; simpl. rewrite Hwon, Hgo.
      apply (GameSpec.step_start (abs g)). unfold abs, mode_of. by rewrite Hs.
    + apply handles_skip_one. simpl. apply bool_decide_eq_false_2.
      unfold mode_of. rewrite Hs. by destruct (won g), (game_over g).
  - unfold rbind, rret. destruct (game_over g || won g) eqn:Hgw.
    + destruct (collidepoint play_again_button pos) eqn:Hp.
      * rewrite (buttons_apart pos Hp). pose proof (reset_game_abs gen) as Ha.
        destruct (reset_game gen) as [g1 gen1]. simpl in *. rewrite Ha.
        apply handles_one, GameSpec.step_play_again. simpl. by rewrite Hend.
      * destruct (collidepoint exit_button pos); simpl; [|auto with shooter].
        apply handles_one, GameSpec.step_exit. simpl. by rewrite Hend.
    + destruct (collidepoint play_again_button pos), (collidepoint exit_button pos);
        simpl; apply handles_skip_one || apply GameSpec.handles_nil; simpl; by rewrite Hend.
  - apply GameSpec.handles_nil.
Qed.

Lemma events_refine g evs (gen : G) :
  wf g -> wf (rfoldM handle_event g evs gen).1 /\
          GameSpec.handles (omap event_label evs) (abs g) (abs (rfoldM handle_event g evs gen).1).
Proof.
  revert g gen. induction evs as [|ev evs IH]; intros g gen Hw; simpl; [split; [exact Hw | constructor]|].
  unfold rbind. pose proof (handle_event_wf g ev gen Hw) as Hw1.
  pose proof (handle_event_refines g ev gen Hw) as Hh.
  destruct (handle_event g ev gen) as [g1 gen1]. simpl in Hw1, Hh.
  destruct (IH g1 gen1 Hw1) as [Hw2 Hh2]. split; [exact Hw2|].
  destruct (event_label ev); simpl in Hh; [|by rewrite (GameSpec.handles_nil_inv _ _ Hh) in Hh2].
  exact (GameSpec.handles_app [_] _ _ _ _ Hh Hh2).
Qed.

Lemma frame_refines_core g evs k (gen : G) g' :
  wf g -> (frame evs k g gen).1 = Some g' ->
  GameSpec.frame_step (omap event_label evs) (abs g) (abs g').
Proof.
  intros Hw Hf. unfold frame, rbind in Hf.
  pose proof (events_refine g evs gen Hw) as [Hw1 Hs1].
  destruct (rfoldM handle_event g evs gen) as [g1 gen1]. simpl in Hw1, Hs1.
  exists (abs g1). split; [exact Hs1|]. unfold GameSpec.enabled.
  destruct (show_instructions g1) eqn:Hsh, (game_over g1) eqn:Hgo, (won g1) eqn:Hwon;
    simpl in Hf; try (injection Hf as <-; unfold abs, mode_of; simpl; rewrite Hsh, ?Hgo, ?Hwon;
                      reflexivity).
  destruct (tick_spec_core g1 k gen1 Hw1 Hsh Hgo Hwon) as (g2 & kk & d & Ht & _ & Hd & Ha).
  rewrite Ht in Hf. injection Hf as <-.
  assert (Hm : GameSpec.mode (abs g1) = GameSpec.Playing).
  { unfold abs, mode_of; simpl. by rewrite Hsh, Hwon, Hgo. }
  rewrite bool_decide_eq_true_2 by exact Hm. rewrite Ha. by apply GameSpec.step_tick.
Qed.

(** C1. Refinement: every frame of the program, whatever its events, keys
    and random draws, is a frame of the contract of spec sections 4.4
    and 5 on the frame's inputs.  Its key presses, quits and clicks on
    the two buttons, in order, each take their transition where the
    mode enables it and change nothing where it does not; then, if the
    game is playing, one tick changes the score by [+10k] and the lives
    by [-d] ([d <= 2]) and takes the first of the game-over, win and
    level-advance transitions that applies.  So lives are restored and
    the level index is reset only by a click on "Play Again". *)
Theorem frame_refines g evs k (gen : G) g' :
  wf g -> (frame evs k g gen).1 = Some g' ->
  GameSpec.frame_step (omap event_label evs) (abs g) (abs g').
Proof. apply frame_refines_core. Qed.

(** A frame, and so a run, is a sequence of the contract's steps. *)
Lemma frame_reaches g evs k (gen : G) g' :
  wf g -> (frame evs k g gen).1 = Some g' -> star GameSpec.any_step (abs g) (abs g').
Proof. intros Hw Hf. exact (GameSpec.frame_step_star _ _ _ (frame_refines_core g evs k gen g' Hw Hf)). Qed.

Lemma run_refines inputs g (gen : G) g' :
  wf g -> (run inputs g gen).1 = Some g' -> star GameSpec.any_step (abs g) (abs g').
Proof.
  revert g gen. induction inputs as [|[evs k] inputs IH]; intros g gen Hw Hr; simpl in Hr.
  { injection Hr as <-. apply star_refl. }
  destruct (running g); [|injection Hr as <-; apply star_refl].
  unfold rbind in Hr. pose proof (frame_wf g evs k gen Hw) as (g1 & Hf & Hw1).
  pose proof (frame_reaches g evs k gen g1 Hw Hf) as Hs1.
  destruct (frame evs k g gen) as [r gen1]. simpl in Hf. subst r.
  eapply star_trans; [exact Hs1 | exact (IH g1 gen1 Hw1 Hr)].
Qed.

(** C2. Every state a session of the program reaches from [Game()] is, seen
    through [abs], a reachable state of the contract; so it satisfies
    the contract's invariant: level index at most 2, score a
    non-negative multiple of 10, game over only without lives, a win
    only with 500 points and lives left. *)
Corollary session_reachable inputs (gen gen' : G) g' :
  (run inputs (init gen).1 gen').1 = Some g' ->
  GameSpec.reachable (abs g') /\ GameSpec.inv (abs g').
Proof.
  intros Hr. assert (Hreach : GameSpec.reachable (abs g')).
  { unfold GameSpec.reachable. rewrite <- (game_init_abs gen).
    exact (run_refines inputs _ gen' g' (game_init_wf gen) Hr). }
  split; [exact Hreach | exact (GameSpec.reachable_inv _ Hreach)].
Qed.
End Refinement.

(** ** Consequences for the program *)

(** Two states with the same levels, index, player and scoreboard: they
    differ at most in the loop and screen flags. *)
Definition same_play (a b : t) : Prop :=
  levels b = levels a /\ current_level_index b = current_level_index a /\
  player b = player a /\ scoreboard b = scoreboard a.

#[local] Instance same_play_refl : Reflexive same_play.
Proof. intros a. done. Qed.

#[local] Instance same_play_trans : Transitive same_play.
Proof. intros a b c (H1 & H2 & H3 & H4) (H5 & H6 & H7 & H8). unfold same_play. split_and!; congruence. Qed.

(** A click: the only event that can reset the game. *)
Definition is_click (ev : Event) : bool :=
  match ev with MOUSEBUTTONDOWN _ => true | _ => false end.

Section Consequences.
Context {G : Type} `{RandomLaws G}.

(** While playing, the events of a frame change only the loop and screen
    flags. *)
Lemma events_playing g evs (gen : G) :
  wf g -> game_over g = false -> won g = false ->
  let g1 := (rfoldM handle_event g evs gen).1 in
  (wf g1 /\ game_over g1 = false /\ won g1 = false) /\ same_play g g1.
Proof.
  intros Hw Hgo Hwon.
  apply (rfoldM_inv (fun a => wf a /\ game_over a = false /\ won a = false) same_play).
  - intros a b g' (Ha & Hga & Hwa). split; [split; [by apply handle_event_wf|] |].
    + destruct b; simpl; try done; [destruct (show_instructions a) | rewrite Hga, Hwa]; done.
    + destruct b; simpl; try done; [destruct (show_instructions a) | rewrite Hga, Hwa]; done.
  - auto.
Qed.

Lemma terminal_frame_frozen_core g evs k (gen : G) g' :
  game_over g = true \/ won g = true -> Forall (fun ev => is_click ev = false) evs ->
  (frame evs k g gen).1 = Some g' ->
  same_play g g' /\ game_over g' = game_over g /\ won g' = won g.
Proof.
  intros Hend Hev Hf. unfold frame, rbind in Hf.
  assert (Hfold : forall a gn, (game_over a = true \/ won a = true) ->
            same_play g a -> game_over a = game_over g -> won a = won g ->
            let a' := (rfoldM handle_event a evs gn).1 in
            same_play g a' /\ game_over a' = game_over g /\ won a' = won g).
  { clear Hf. induction Hev as [|ev evs Hc Hev IH]; intros a gn Ha Hs Hg Hw; simpl; [done|].
    unfold rbind. destruct ev; try discriminate; simpl; apply IH; try done;
      destruct (show_instructions a); done. }
  specialize (Hfold g gen Hend ltac:(reflexivity) eq_refl eq_refl). simpl in Hfold.
  destruct (rfoldM handle_event g evs gen) as [g1 gen1]. simpl in Hfold, Hf.
  destruct Hfold as (Hs & Hg & Hw).
  assert (Hneg : negb (show_instructions g1) && negb (game_over g1) && negb (won g1) = false).
  { rewrite Hg, Hw. destruct Hend as [E|E]; rewrite E;
      destruct (show_instructions g1), (won g), (game_over g); reflexivity. }
  rewrite Hneg in Hf. injection Hf as <-. done.
Qed.

(** C14. Once the game is over or won, frames without a click change nothing
    but the loop and screen flags: no level update, no score, no lives. *)
Theorem terminal_frame_frozen g evs k (gen : G) g' :
  game_over g = true \/ won g = true -> Forall (fun ev => is_click ev = false) evs ->
  (frame evs k g gen).1 = Some g' ->
  same_play g g' /\ game_over g' = game_over g /\ won g' = won g.
Proof. apply terminal_frame_frozen_core. Qed.

Lemma playing_frame_monotone_core g evs k (gen : G) g' :
  wf g -> game_over g = false -> won g = false -> (frame evs k g gen).1 = Some g' ->
  Scoreboard.score (scoreboard g) <= Scoreboard.score (scoreboard g') /\
  (Scoreboard.score (scoreboard g') - Scoreboard.score (scoreboard g)) mod 10 = 0 /\
  Scoreboard.lives (scoreboard g) - 2 <= Scoreboard.lives (scoreboard g') <=
    Scoreboard.lives (scoreboard g) /\
  (current_level_index g <= current_level_index g' <= S (current_level_index g))%nat.
Proof.
  intros Hw Hgo Hwon Hf. unfold frame, rbind in Hf.
  pose proof (events_playing g evs gen Hw Hgo Hwon) as ((Hw1 & Hgo1 & Hwon1) & Hs1).
  destruct (rfoldM handle_event g evs gen) as [g1 gen1]. simpl in Hw1, Hgo1, Hwon1, Hs1, Hf.
  destruct Hs1 as (_ & Hi1 & _ & Hsb1). rewrite <- Hsb1, <- Hi1. rewrite Hgo1, Hwon1 in Hf.
  destruct (show_instructions g1) eqn:Hsh; simpl in Hf.
  { injection Hf as <-. rewrite Z.sub_diag. split_and!; try lia; reflexivity. }
  destruct (tick_spec_core g1 k gen1 Hw1 Hsh Hgo1 Hwon1) as (g2 & kk & d & Ht & _ & Hd & Ha).
  rewrite Ht in Hf. injection Hf as <-.
  destruct (GameSpec.after_tick_fields (abs g1) (Scoreboard.score (scoreboard g1) + 10 * Z.of_nat kk)
              (Scoreboard.lives (scoreboard g1) - Z.of_nat d)) as (Hsc & Hlv & _).
  destruct (GameSpec.after_tick_level (abs g1) (Scoreboard.score (scoreboard g1) + 10 * Z.of_nat kk)
              (Scoreboard.lives (scoreboard g1) - Z.of_nat d)) as [Hlvl _].
  rewrite <- Ha in Hsc, Hlv, Hlvl. simpl in Hsc, Hlv, Hlvl. rewrite Hsc, Hlv.
  split_and!; try lia.
  replace (Scoreboard.score (scoreboard g1) + 10 * Z.of_nat kk - Scoreboard.score (scoreboard g1))
    with (Z.of_nat kk * 10) by lia.
  apply Z_mod_mult.
Qed.

(** C13. During play, over a frame: the score grows by a multiple of 10, at
    most two lives are lost, and the level index grows by at most one. *)
Theorem playing_frame_monotone g evs k (gen : G) g' :
  wf g -> game_over g = false -> won g = false -> (frame evs k g gen).1 = Some g' ->
  Scoreboard.score (scoreboard g) <= Scoreboard.score (scoreboard g') /\
  (Scoreboard.score (scoreboard g') - Scoreboard.score (scoreboard g)) mod 10 = 0 /\
  Scoreboard.lives (scoreboard g) - 2 <= Scoreboard.lives (scoreboard g') <=
    Scoreboard.lives (scoreboard g) /\
  (current_level_index g <= current_level_index g' <= S (current_level_index g))%nat.
Proof. apply playing_frame_monotone_core. Qed.

(** The [elif] order of the checks: when the tick leaves no lives the game
    is over, even with 500 points, and when lives are left and the score
    reaches 500 the game is won; in both cases the level index is not
    advanced, whatever the index. *)
Theorem tick_precedence g k (gen : G) g' :
  wf g -> show_instructions g = false -> game_over g = false -> won g = false ->
  (tick k g gen).1 = Some g' ->
  (Scoreboard.lives (scoreboard g') <= 0 ->
     game_over g' = true /\ won g' = false /\ current_level_index g' = current_level_index g) /\
  (0 < Scoreboard.lives (scoreboard g') -> 500 <= Scoreboard.score (scoreboard g') ->
     won g' = true /\ game_over g' = false /\ current_level_index g' = current_level_index g).
Proof.
  intros Hw Hsh Hgo Hwon Ht.
  destruct (tick_spec_core g k gen Hw Hsh Hgo Hwon) as (g2 & kk & d & Ht2 & Hw2 & _ & Ha).
  rewrite Ht in Ht2. injection Ht2 as <-.
  set (sc := Scoreboard.score (scoreboard g) + 10 * Z.of_nat kk) in Ha.
  set (lv := Scoreboard.lives (scoreboard g) - Z.of_nat d) in Ha.
  destruct (GameSpec.after_tick_fields (abs g) sc lv) as (Hsc & Hlv & _ & Hgo' & Hwon').
  pose proof (GameSpec.after_tick_end_level (abs g) sc lv) as Hlvl.
  rewrite <- Ha in Hsc, Hlv, Hgo', Hwon', Hlvl. simpl in Hsc, Hlv, Hlvl.
  pose proof (mode_of_cases g') as (Cgo & Cwon & _).
  pose proof Hw2 as (_ & _ & _ & _ & _ & _ & Hwf & _).
  split.
  - intros Hl. assert (Hm : GameSpec.mode (abs g') = GameSpec.GameOver) by (apply Hgo'; lia).
    destruct (Cgo Hm) as (_ & -> & ->). split_and!; [done | done | apply Hlvl; auto].
  - intros Hl H5. assert (Hm : GameSpec.mode (abs g') = GameSpec.Won) by (apply Hwon'; lia).
    destruct (Cwon Hm) as (_ & Hw'). destruct (Hwf Hw') as (Hg' & _).
    split_and!; [done | done | apply Hlvl; auto].
Qed.

(** C15. Level advance happens in the tick whose update reaches the
    threshold: at level 0 with 100 points or at level 1 with 300 points,
    lives left and fewer than 500 points, the index grows by one in that
    same tick. *)
Theorem tick_level_advance g k (gen : G) g' :
  wf g -> show_instructions g = false -> game_over g = false -> won g = false ->
  (tick k g gen).1 = Some g' ->
  0 < Scoreboard.lives (scoreboard g') -> Scoreboard.score (scoreboard g') < 500 ->
  (current_level_index g = 0%nat /\ 100 <= Scoreboard.score (scoreboard g') \/
   current_level_index g = 1%nat /\ 300 <= Scoreboard.score (scoreboard g')) ->
  current_level_index g' = S (current_level_index g).
Proof.
  intros Hw Hsh Hgo Hwon Ht Hl Hs Hcase.
  destruct (tick_spec_core g k gen Hw Hsh Hgo Hwon) as (g2 & kk & d & Ht2 & _ & _ & Ha).
  rewrite Ht in Ht2. injection Ht2 as <-.
  assert (E : current_level_index g' = GameSpec.level (abs g')) by reflexivity.
  assert (Hsc : Scoreboard.score (scoreboard g') = GameSpec.score (abs g')) by reflexivity.
  assert (Hlv : Scoreboard.lives (scoreboard g') = GameSpec.lives (abs g')) by reflexivity.
  rewrite Hsc, Hlv in *. rewrite E, Ha in *. unfold GameSpec.after_tick in *. simpl in *.
  destruct (Z.leb_spec (Scoreboard.lives (scoreboard g) - Z.of_nat d) 0),
    (Z.leb_spec 500 (Scoreboard.score (scoreboard g) + 10 * Z.of_nat kk)),
    (Z.leb_spec 300 (Scoreboard.score (scoreboard g) + 10 * Z.of_nat kk)),
    (Z.leb_spec 100 (Scoreboard.score (scoreboard g) + 10 * Z.of_nat kk)),
    (Nat.eqb_spec (current_level_index g) 1), (Nat.eqb_spec (current_level_index g) 0);
    simpl in *; lia.
Qed.

(** A frame without clicks, in any mode: the counters move the way the
    spec's testable properties say, and the level index does not fall. *)
Lemma frame_no_click_monotone g evs k (gen : G) g' :
  wf g -> Forall (fun ev => is_click ev = false) evs -> (frame evs k g gen).1 = Some g' ->
  wf g' /\ Scoreboard.score (scoreboard g) <= Scoreboard.score (scoreboard g') /\
  (Scoreboard.score (scoreboard g') - Scoreboard.score (scoreboard g)) mod 10 = 0 /\
  Scoreboard.lives (scoreboard g') <= Scoreboard.lives (scoreboard g) /\
  (current_level_index g <= current_level_index g')%nat.
Proof.
  intros Hw Hev Hf.
  assert (Hw' : wf g').
  { destruct (frame_wf g evs k gen Hw) as (g2 & Hf2 & Hw2). congruence. }
  split; [exact Hw'|].
  destruct (game_over g || won g) eqn:Hend.
  - assert (Hor : game_over g = true \/ won g = true)
      by (destruct (game_over g); [by left | by right]).
    destruct (terminal_frame_frozen_core g evs k gen g' Hor Hev Hf) as ((_ & -> & _ & ->) & _).
    rewrite Z.sub_diag. split_and!; try lia; reflexivity.
  - apply orb_false_iff in Hend as [Hgo Hwon].
    destruct (playing_frame_monotone_core g evs k gen g' Hw Hgo Hwon Hf) as (H1 & H2 & H3 & H4).
    split_and!; [exact H1 | exact H2 | lia | lia].
Qed.

Lemma run_no_click_monotone inputs g (gen : G) g' :
  wf g -> Forall (fun i => Forall (fun ev => is_click ev = false) i.1) inputs ->
  (run inputs g gen).1 = Some g' ->
  Scoreboard.score (scoreboard g) <= Scoreboard.score (scoreboard g') /\
  (Scoreboard.score (scoreboard g') - Scoreboard.score (scoreboard g)) mod 10 = 0 /\
  Scoreboard.lives (scoreboard g') <= Scoreboard.lives (scoreboard g) /\
  (current_level_index g <= current_level_index g')%nat.
Proof.
  intros Hw Hin. revert g gen Hw. induction Hin as [|[evs k] inputs Hev _ IH]; intros g gen Hw Hr.
  { injection Hr as <-. rewrite Z.sub_diag. split_and!; try lia; reflexivity. }
  simpl in Hr. destruct (running g); [|injection Hr as <-; rewrite Z.sub_diag; split_and!; try lia; reflexivity].
  unfold rbind in Hr. destruct (frame evs k g gen) as [[g1|] gen1] eqn:Hf; [|discriminate].
  destruct (frame_no_click_monotone g evs k gen g1 Hw Hev ltac:(by rewrite Hf))
    as (Hw1 & Hs1 & Hm1 & Hl1 & Hi1).
  destruct (IH g1 gen1 Hw1 Hr) as (Hs2 & Hm2 & Hl2 & Hi2).
  split_and!; [lia | zlia | lia | lia].
Qed.

(** C7. Between two resets the counters only move one way: over any run
    without a click (the only way to reset), the score never decreases
    and grows by multiples of 10, the lives never increase, and the level
    index never decreases (spec sections 3 and 8). *)
Theorem run_monotone_without_reset inputs g (gen : G) g' :
  wf g -> Forall (fun i => Forall (fun ev => is_click ev = false) i.1) inputs ->
  (run inputs g gen).1 = Some g' ->
  Scoreboard.score (scoreboard g) <= Scoreboard.score (scoreboard g') /\
  (Scoreboard.score (scoreboard g') - Scoreboard.score (scoreboard g)) mod 10 = 0 /\
  Scoreboard.lives (scoreboard g') <= Scoreboard.lives (scoreboard g) /\
  (current_level_index g <= current_level_index g')%nat.
Proof. apply run_no_click_monotone. Qed.

Lemma no_play_again_labels evs :
  Forall (fun ev => event_label ev <> Some GameSpec.LPlayAgain) evs ->
  GameSpec.LPlayAgain ∉ omap event_label evs.
Proof. rewrite Forall_forall. intros Hf (ev & Hin & E)%list_elem_of_omap. exact (Hf ev Hin E). Qed.

Lemma run_no_play_again_core inputs g (gen : G) g' :
  wf g -> Forall (fun i => Forall (fun ev => event_label ev <> Some GameSpec.LPlayAgain) i.1) inputs ->
  (run inputs g gen).1 = Some g' ->
  Scoreboard.lives (scoreboard g') <= Scoreboard.lives (scoreboard g) /\
  (current_level_index g <= current_level_index g')%nat.
Proof.
  intros Hw Hin. revert g gen Hw. induction Hin as [|[evs k] inputs Hev _ IH]; intros g gen Hw Hr.
  { injection Hr as <-. lia. }
  simpl in Hr. destruct (running g); [|injection Hr as <-; lia].
  unfold rbind in Hr. pose proof (frame_wf g evs k gen Hw) as (g1 & Hf & Hw1).
  pose proof (GameSpec.frame_no_play_again _ _ _ (frame_refines_core g evs k gen g1 Hw Hf)
                (no_play_again_labels evs Hev)) as [Hl1 Hi1].
  destruct (frame evs k g gen) as [r gen1]. simpl in Hf. subst r.
  destruct (IH g1 gen1 Hw1 Hr). simpl in Hl1, Hi1. lia.
Qed.

(** C8. Only "Play Again" restores a session: over any run whose events
    include no click on the "Play Again" button (keys, quits, clicks
    elsewhere and on "Exit" are allowed), the lives never increase and
    the level index never decreases.  A consequence of the refinement
    C1: every other input of the contract keeps both. *)
Theorem run_lives_without_play_again inputs g (gen : G) g' :
  wf g -> Forall (fun i => Forall (fun ev => event_label ev <> Some GameSpec.LPlayAgain) i.1) inputs ->
  (run inputs g gen).1 = Some g' ->
  Scoreboard.lives (scoreboard g') <= Scoreboard.lives (scoreboard g) /\
  (current_level_index g <= current_level_index g')%nat.
Proof. apply run_no_play_again_core. Qed.



(** C17. The exit button stops the loop before the next tick: on the game
    over or win screen, a frame whose only event is a click on "Exit"
    clears [running], changes nothing else of the game, and [run] stops
    there whatever inputs follow. *)
Theorem exit_click_stops_run pos k rest g (gen : G) :
  running g = true -> game_over g = true \/ won g = true ->
  collidepoint exit_button pos = true ->
  exists g', (run (([MOUSEBUTTONDOWN pos], k) :: rest) g gen).1 = Some g' /\
    running g' = false /\ same_play g g' /\ game_over g' = game_over g /\ won g' = won g.
Proof.
  intros Hrun Hend Hexit. exists (set_running g false).
  rewrite run_cons by exact Hrun. unfold frame, rbind. simpl. unfold rbind, rret.
  replace (game_over g || won g) with true by (destruct Hend as [-> | ->]; by rewrite ?orb_true_r).
  rewrite (buttons_disjoint pos Hexit), Hexit. simpl.
  replace (negb (show_instructions g) && negb (game_over g) && negb (won g)) with false
    by (destruct Hend as [-> | ->]; by rewrite ?andb_false_r).
  split; [by apply run_stopped | done].
Qed.

(** Events other than clicks never touch the levels. *)
Lemma events_no_click_levels g evs (gen : G) :
  Forall (fun ev => is_click ev = false) evs ->
  levels (rfoldM handle_event g evs gen).1 = levels g.
Proof.
  intros Hev. revert g gen. induction Hev as [|ev evs Hc _ IH]; intros g gen; [done|].
  simpl. unfold rbind. destruct ev; try discriminate; simpl; rewrite IH; try done.
  by destruct (show_instructions g).
Qed.

(** A tick writes back a level with the same obstacles. *)
Lemma tick_obstacles g k (gen : G) g' :
  wf g -> (tick k g gen).1 = Some g' ->
  Level.obstacles <$> levels g' = Level.obstacles <$> levels g.
Proof.
  intros Hw Ht. pose proof Hw as (Hlen & Hi & _).
  destruct (lookup_lt_is_Some_2 (levels g) (current_level_index g) ltac:(lia)) as [lvl Hl].
  pose proof (tick_shape g k lvl gen g' Hl Ht) as Hs.
  pose proof (Level.level_update_spec_core lvl (Player.handle_keys k (player g)) (scoreboard g) gen)
    as Hu.
  destruct (Level.update _ _ _ _).1 as [[lvl' p2] sb]. destruct Hu as (Ho & _).
  destruct Hs as (-> & _). rewrite list_fmap_insert, Ho.
  apply list_insert_id. rewrite list_lookup_fmap, Hl. done.
Qed.

Lemma frame_no_click_obstacles g evs k (gen : G) g' :
  wf g -> Forall (fun ev => is_click ev = false) evs -> (frame evs k g gen).1 = Some g' ->
  Level.obstacles <$> levels g' = Level.obstacles <$> levels g.
Proof.
  intros Hw Hev Hf. unfold frame, rbind in Hf.
  pose proof (events_wf g evs gen Hw) as Hw1.
  pose proof (events_no_click_levels g evs gen Hev) as Hl1.
  destruct (rfoldM handle_event g evs gen) as [g1 gen1]. simpl in Hw1, Hl1, Hf.
  rewrite <- Hl1. destruct (negb _ && _ && _); [by apply (tick_obstacles g1 k gen1) | by injection Hf as <-].
Qed.

(** C18. Obstacles are static: over any run without a click, no obstacle
    of any level moves, appears or disappears (spec section 3: fixed for
    the level's lifetime). *)
Theorem obstacles_static inputs g (gen : G) g' :
  wf g -> Forall (fun i => Forall (fun ev => is_click ev = false) i.1) inputs ->
  (run inputs g gen).1 = Some g' ->
  Level.obstacles <$> levels g' = Level.obstacles <$> levels g.
Proof.
  intros Hw Hin. revert g gen Hw. induction Hin as [|[evs k] inputs Hev _ IH]; intros g gen Hw Hr.
  { by injection Hr as <-. }
  simpl in Hr. destruct (running g); [|by injection Hr as <-].
  unfold rbind in Hr. destruct (frame evs k g gen) as [[g1|] gen1] eqn:Hf; [|discriminate].
  destruct (frame_wf g evs k gen Hw) as (g2 & Hf2 & Hw2). rewrite Hf in Hf2. injection Hf2 as <-.
  rewrite (IH g1 gen1 Hw2 Hr). apply (frame_no_click_obstacles g evs k gen); [done | done | by rewrite Hf].
Qed.

(** C28. A tick that advances the level leaves the player at the spawn
    point (spec section 4.4: the advance resets the player), whatever it
    moved to or collided with during the tick. *)
Theorem level_advance_resets_player g k (gen : G) g' :
  wf g -> (tick k g gen).1 = Some g' ->
  current_level_index g' = S (current_level_index g) -> Player.at_spawn (player g').
Proof.
  intros Hw Ht Hi. pose proof Hw as (Hlen & Hidx & _).
  destruct (lookup_lt_is_Some_2 (levels g) (current_level_index g) ltac:(lia)) as [lvl Hl].
  pose proof (tick_shape g k lvl gen g' Hl Ht) as Hs.
  destruct (Level.update _ _ _ _).1 as [[lvl' p2] sb].
  destruct Hs as (_ & _ & _ & _ & [[Hi' _] | [_ ->]]); [lia | split; reflexivity].
Qed.

(** A key that is not pressed on the instructions screen: the events other
    than [KEYDOWN]. *)
Definition is_keydown (ev : Event) : bool :=
  match ev with KEYDOWN => true | _ => false end.

Lemma events_on_instructions g evs (gen : G) :
  show_instructions g = true -> game_over g = false -> won g = false ->
  Forall (fun ev => is_keydown ev = false) evs ->
  let g1 := (rfoldM handle_event g evs gen).1 in
  same_play g g1 /\ show_instructions g1 = true /\ game_over g1 = false /\ won g1 = false.
Proof.
  intros Hsh Hgo Hwon Hev. revert g gen Hsh Hgo Hwon.
  induction Hev as [|ev evs Hk _ IH]; intros g gen Hsh Hgo Hwon; simpl; [done|].
  unfold rbind. destruct ev; try discriminate; simpl.
  - destruct (IH (set_running g false) gen Hsh Hgo Hwon) as (Hs & ?). split; [|done].
    etransitivity; [|exact Hs]. done.
  - rewrite Hgo, Hwon. simpl. by apply IH.
  - by apply IH.
Qed.

(** C27. The instructions screen waits for a key: while it is shown, a
    frame without [KEYDOWN] runs no tick (nothing moves, no score, no
    lives) and keeps the screen. *)
Theorem instructions_wait_for_key g evs k (gen : G) g' :
  wf g -> show_instructions g = true -> Forall (fun ev => is_keydown ev = false) evs ->
  (frame evs k g gen).1 = Some g' -> same_play g g' /\ show_instructions g' = true.
Proof.
  intros Hw Hsh Hev Hf. pose proof Hw as (_ & _ & _ & _ & _ & _ & _ & Hflags).
  destruct (Hflags Hsh) as [Hgo Hwon]. unfold frame, rbind in Hf.
  pose proof (events_on_instructions g evs gen Hsh Hgo Hwon Hev) as Hs.
  destruct (rfoldM handle_event g evs gen) as [g1 gen1]. simpl in Hs, Hf.
  destruct Hs as (Hs & Hsh1 & _). rewrite Hsh1 in Hf. simpl in Hf. injection Hf as <-. done.
Qed.

(** C21. A [QUIT] followed, in the same frame, by a click on "Play Again" is
    lost: [reset_game] re-runs [__init__], which sets [running] back to
    [True], so the loop does not stop. *)
Theorem quit_undone_by_play_again g (gen : G) :
  game_over g = true \/ won g = true ->
  running (rfoldM handle_event g [QUIT; MOUSEBUTTONDOWN (400, 375)] gen).1 = true.
Proof.
  intros Hend. simpl. unfold rbind, rret. simpl.
  replace (game_over g || won g) with true by (destruct Hend as [-> | ->]; [done | by rewrite orb_true_r]).
  change (collidepoint play_again_button (400, 375)) with true.
  change (collidepoint exit_button (400, 375)) with false.
  unfold reset_game, init, rbind, rret.
  destruct (Level.level1 gen) as [l1 g1], (Level.level2 g1) as [l2 g2], (Level.level3 g2) as [l3 g3].
  reflexivity.
Qed.

End Consequences.

(** ** Spawn camping over a session *)

(** An obstacle of the current level covers the neighbourhood of the
    spawn point. *)
Definition camping (g : t) : Prop :=
  exists lvl o, levels g !! current_level_index g = Some lvl /\
    In o (Level.obstacles lvl) /\ Level.camps o.

(** A stream of frames without events, one per key state. *)
Definition no_events (ks : list Keys) : list (list Event * Keys) := map (fun k => ([], k)) ks.

Section Liveness.
Context {G : Type} `{RandomLaws G}.

(** Without events, an ended game stays as it is. *)
Lemma run_no_events_ended ks g (gen : G) :
  game_over g = true \/ won g = true -> (run (no_events ks) g gen).1 = Some g.
Proof.
  intros Hend. revert gen. induction ks as [|k ks IH]; intros gen; [done|].
  simpl. destruct (running g); [|done]. unfold rbind. rewrite frame_no_events.
  replace (negb (show_instructions g) && negb (game_over g) && negb (won g)) with false
    by (destruct Hend as [-> | ->]; by rewrite ?andb_false_r).
  apply IH.
Qed.

(** Without events, the level index never decreases. *)
Lemma run_no_events_index ks g (gen : G) :
  wf g -> exists g', (run (no_events ks) g gen).1 = Some g' /\
    (current_level_index g <= current_level_index g')%nat.
Proof.
  revert g gen. induction ks as [|k ks IH]; intros g gen Hw; [exists g; done|].
  simpl. destruct (running g); [|exists g; done]. unfold rbind.
  assert (Hf : exists g1, (frame [] k g gen).1 = Some g1 /\ wf g1 /\
                 (current_level_index g <= current_level_index g1)%nat).
  { destruct (frame_wf g [] k gen Hw) as (g1 & Hf1 & Hw1). exists g1. split_and!; [done | done |].
    rewrite frame_no_events in Hf1.
    destruct (negb _ && _ && _); [|simpl in Hf1; injection Hf1 as <-; done].
    pose proof Hw as (Hlen & Hi & _).
    destruct (lookup_lt_is_Some_2 (levels g) (current_level_index g) ltac:(lia)) as [lvl Hl].
    pose proof (tick_shape g k lvl gen g1 Hl Hf1) as Hs.
    destruct (Level.update _ _ _ _).1 as [[lvl' p2] sb].
    destruct Hs as (_ & _ & _ & _ & [[-> _] | [-> _]]); lia. }
  destruct Hf as (g1 & Hf & Hw1 & Hi1).
  destruct (frame [] k g gen) as [r gen1]. simpl in Hf. subst r.
  destruct (IH g1 gen1 Hw1) as (g' & Hr & Hi'). exists g'. split; [exact Hr | lia].
Qed.

(** One tick with a camping obstacle, from the spawn point: a life is
    lost, and the game ends, advances, or is back at the spawn point of
    the same camping level. *)
Lemma tick_camping g k (gen : G) :
  wf g -> show_instructions g = false -> game_over g = false -> won g = false ->
  camping g -> Player.at_spawn (player g) ->
  exists g1, (tick k g gen).1 = Some g1 /\ wf g1 /\ running g1 = running g /\
    Scoreboard.lives (scoreboard g1) <= Scoreboard.lives (scoreboard g) - 1 /\
    (game_over g1 = true \/ won g1 = true \/
     (current_level_index g < current_level_index g1)%nat \/
     (show_instructions g1 = false /\ game_over g1 = false /\ won g1 = false /\
      current_level_index g1 = current_level_index g /\ camping g1 /\
      Player.at_spawn (player g1) /\ 0 < Scoreboard.lives (scoreboard g1))).
Proof.
  intros Hw Hsh Hgo Hwon (lvl & o & Hl & Hin & Hc) Hsp.
  destruct (tick_spec_core g k gen Hw Hsh Hgo Hwon) as (g1 & kk & d & Ht & Hw1 & _ & Ha).
  pose proof Hw as (_ & _ & _ & [Hp _] & _).
  pose proof (tick_shape g k lvl gen g1 Hl Ht) as Hs.
  pose proof (Level.update_camping lvl _ (scoreboard g) o gen Hin Hc
                (Level.handle_keys_near_spawn k (player g) Hp Hsp)) as Hcamp.
  pose proof (Level.level_update_spec_core lvl (Player.handle_keys k (player g)) (scoreboard g) gen)
    as Hu.
  destruct (Level.update _ _ _ _).1 as [[lvl' p2] sb]. destruct Hu as (Ho & _).
  destruct Hs as (Hlv & Hsb & Hrun & Hsh1 & Hidx). destruct Hcamp as [Hlives Hr].
  exists g1. rewrite Hsb. split_and!; [done | done | done | done |].
  destruct (game_over g1) eqn:Hgo1; [by left|]. destruct (won g1) eqn:Hwon1; [by right; left|].
  destruct Hidx as [[Hi1 Hp1] | [Hi1 _]]; [|right; right; left; lia].
  right; right; right. split_and!; [congruence | done | done | done | | | ].
  - exists lvl', o. rewrite Hlv, Hi1. split_and!; [| by rewrite Ho | done].
    apply list_lookup_insert_eq. by eapply lookup_lt_Some.
  - rewrite Hp1. unfold Player.at_spawn. rewrite Hr. done.
  - pose proof (GameSpec.after_tick_fields (abs g) (Scoreboard.score (scoreboard g) + 10 * Z.of_nat kk)
                  (Scoreboard.lives (scoreboard g) - Z.of_nat d)) as (_ & Hlv1 & _ & Hgo' & _).
    rewrite <- Ha in Hlv1, Hgo'.
    assert (Hm : GameSpec.mode (abs g1) = GameSpec.Playing)
      by (unfold abs, mode_of; simpl; by rewrite Hsh1, Hsh, Hwon1, Hgo1).
    rewrite Hm in Hgo'. simpl in Hlv1. rewrite Hsb in Hlv1. rewrite Hlv1.
    destruct (Z.le_gt_cases (Scoreboard.lives (scoreboard g) - Z.of_nat d) 0) as [Hle|]; [|lia].
    apply Hgo' in Hle. discriminate.
Qed.

Lemma spawn_camping_core ks g (gen : G) :
  wf g -> running g = true -> show_instructions g = false -> game_over g = false -> won g = false ->
  camping g -> Player.at_spawn (player g) ->
  0 < Scoreboard.lives (scoreboard g) <= Z.of_nat (length ks) ->
  exists g', (run (no_events ks) g gen).1 = Some g' /\
    (game_over g' = true \/ won g' = true \/ (current_level_index g < current_level_index g')%nat).
Proof.
  revert g gen. induction ks as [|k ks IH]; intros g gen Hw Hrun Hsh Hgo Hwon Hc Hsp Hlv;
    [simpl in Hlv; lia|].
  unfold no_events. rewrite map_cons, run_cons by exact Hrun. fold (no_events ks).
  rewrite frame_no_events, Hsh, Hgo, Hwon. simpl.
  destruct (tick_camping g k gen Hw Hsh Hgo Hwon Hc Hsp) as (g1 & Ht & Hw1 & Hr1 & Hl1 & Hcase).
  destruct (tick k g gen) as [r gen1]. simpl in Ht. subst r.
  destruct Hcase as [Hend | [Hend | [Hi | (Hsh1 & Hgo1 & Hwon1 & Hi1 & Hc1 & Hsp1 & Hpos)]]].
  - exists g1. rewrite run_no_events_ended by auto. auto.
  - exists g1. rewrite run_no_events_ended by auto. auto.
  - destruct (run_no_events_index ks g1 gen1 Hw1) as (g' & Hr & Hi'). exists g'.
    split; [exact Hr | right; right; lia].
  - destruct (IH g1 gen1 Hw1 ltac:(congruence) Hsh1 Hgo1 Hwon1 Hc1 Hsp1
                ltac:(rewrite length_cons in Hlv; lia)) as (g' & Hr & Hres).
    exists g'. rewrite Hi1 in Hres. auto.
Qed.

(** C9. Spawn camping ends the level: when an obstacle of the current
    level covers the spawn point and the player stands on it, [n] frames
    without events, whatever keys are held, end the game, win it or move
    to a later level, as soon as [n] is at least the number of lives
    left.  Every such frame costs a life and puts the player back on the
    obstacle. *)
Theorem spawn_camping_ends_level ks g (gen : G) :
  wf g -> running g = true -> show_instructions g = false -> game_over g = false -> won g = false ->
  camping g -> Player.at_spawn (player g) ->
  0 < Scoreboard.lives (scoreboard g) <= Z.of_nat (length ks) ->
  exists g', (run (no_events ks) g gen).1 = Some g' /\
    (game_over g' = true \/ won g' = true \/ (current_level_index g < current_level_index g')%nat).
Proof. apply spawn_camping_core. Qed.

(** Once [running] is false, events other than clicks keep it so. *)
Lemma events_keep_stopped g evs (gen : G) :
  running g = false -> Forall (fun ev => is_click ev = false) evs ->
  running (rfoldM handle_event g evs gen).1 = false.
Proof.
  intros Hr Hev. revert g gen Hr. induction Hev as [|ev evs Hc _ IH]; intros g gen Hr; [done|].
  simpl. unfold rbind. destruct ev; try discriminate; simpl; apply IH; try done.
  by destruct (show_instructions g).
Qed.

Lemma quit_stops_core pre post k rest g (gen : G) :
  wf g -> running g = true -> Forall (fun ev => is_click ev = false) post ->
  exists g', (frame (pre ++ QUIT :: post) k g gen).1 = Some g' /\ running g' = false /\
    (run ((pre ++ QUIT :: post, k) :: rest) g gen).1 = Some g'.
Proof.
  intros Hw Hrun Hpost. destruct (frame_wf g (pre ++ QUIT :: post) k gen Hw) as (g' & Hf & _).
  assert (Hstop : running g' = false).
  { unfold frame, rbind in Hf. pose proof (events_wf g (pre ++ QUIT :: post) gen Hw) as Hw1.
    assert (Hr1 : running (rfoldM handle_event g (pre ++ QUIT :: post) gen).1 = false).
    { rewrite rfoldM_app. destruct (rfoldM handle_event g pre gen) as [g0 gen0].
      simpl. unfold rbind. simpl. apply events_keep_stopped; [reflexivity | exact Hpost]. }
    destruct (rfoldM handle_event g _ gen) as [g1 gen1]. simpl in Hw1, Hr1, Hf.
    destruct (negb _ && _ && _); [|injection Hf as <-; exact Hr1].
    pose proof Hw1 as (Hlen & Hi & _).
    destruct (lookup_lt_is_Some_2 (levels g1) (current_level_index g1) ltac:(lia)) as [lvl Hl].
    pose proof (tick_shape g1 k lvl gen1 g' Hl Hf) as Hs.
    destruct (Level.update _ _ _ _).1 as [[lvl' p2] sb]. destruct Hs as (_ & _ & Hr & _). congruence. }
  exists g'. split_and!; [exact Hf | exact Hstop |].
  rewrite run_cons by exact Hrun. destruct (frame _ k g gen) as [r gen1]. simpl in Hf. subst r.
  apply run_stopped. exact Hstop.
Qed.

(** C16. A [QUIT] stops the loop: when the events of a frame contain a
    [QUIT] with no click after it, that frame sets [running] to false and
    [run] returns the state it leaves, whatever inputs would follow. *)
Theorem quit_stops_run pre post k rest g (gen : G) :
  wf g -> running g = true -> Forall (fun ev => is_click ev = false) post ->
  exists g', (frame (pre ++ QUIT :: post) k g gen).1 = Some g' /\ running g' = false /\
    (run ((pre ++ QUIT :: post, k) :: rest) g gen).1 = Some g'.
Proof. apply quit_stops_core. Qed.
End Liveness.

(** ** The loop flag *)

(** Two game states that differ at most in [running]. *)
Definition eq_but_running (a b : t) : Prop := set_running a true = set_running b true.

#[global] Instance eq_but_running_equiv : Equivalence eq_but_running.
Proof.
  split; [intros a; done | intros a b H; done | intros a b c H1 H2; unfold eq_but_running in *; congruence].
Qed.

Lemma eq_but_running_set a b : eq_but_running (set_running a b) a.
Proof. done. Qed.

(** [eq_but_running] between records with the same fields but [running]. *)
Local Ltac ebr_intro Hab :=
  unfold eq_but_running, set_running in Hab; simpl in Hab;
  injection Hab as <- <- <- <- <- <- <-.

Local Ltac ebr_close := split; [unfold eq_but_running; reflexivity | reflexivity].

Lemma eq_but_running_flags a b :
  eq_but_running a b ->
  show_instructions a = show_instructions b /\ game_over a = game_over b /\ won a = won b.
Proof. destruct a, b. intros Hab. ebr_intro Hab. done. Qed.

Section RunningFlag.
Context {G : Type} `{RandomSource G}.

(** The event handler reads the screen flags, never [running]. *)
#[global] Instance handle_event_proper :
  Proper (eq_but_running ==> eq ==> eq ==> rand_rel eq_but_running) (handle_event (G:=G)).
Proof.
  intros [l i p sb r go w sh] [l' i' p' sb' r' go' w' sh'] Hab ev ? <- g ? <-. ebr_intro Hab.
  destruct ev as [| |pos|]; simpl; unfold rbind, rret; [ebr_close | destruct sh; ebr_close | | ebr_close].
  destruct (go || w); [|ebr_close].
  destruct (collidepoint play_again_button pos); [destruct (reset_game g)|]; simpl;
    destruct (collidepoint exit_button pos); ebr_close.
Qed.

(** The tick reads the levels, the player and the scoreboard, and passes
    [running] through. *)
#[global] Instance tick_proper :
  Proper (eq ==> eq_but_running ==> eq ==> rand_rel (option_Forall2 eq_but_running)) (tick (G:=G)).
Proof.
  intros k ? <- [l i p sb r go w sh] [l' i' p' sb' r' go' w' sh'] Hab g ? <-. ebr_intro Hab.
  unfold tick. simpl. destruct (l !! i) as [lvl|]; [|split; [constructor | reflexivity]].
  unfold rbind, rret. destruct (Level.update lvl _ sb g) as [[[lvl' p2] sb2] g2]. simpl.
  unfold advance. simpl.
  repeat case_match; (split; [try constructor; unfold eq_but_running; reflexivity | reflexivity]).
Qed.

#[global] Instance frame_proper :
  Proper (eq ==> eq ==> eq_but_running ==> eq ==> rand_rel (option_Forall2 eq_but_running))
    (frame (G:=G)).
Proof.
  intros evs ? <- k ? <- a b Hab g ? <-. unfold frame, rbind.
  destruct (rfoldM_proper eq_but_running handle_event handle_event_proper a b Hab evs evs eq_refl g g eq_refl)
    as [H1 H2].
  destruct (rfoldM handle_event a evs g) as [a1 g1], (rfoldM handle_event b evs g) as [b1 g2].
  simpl in H1, H2. subst g2.
  destruct (eq_but_running_flags a1 b1 H1) as (-> & -> & ->).
  destruct (negb _ && _ && _); [by apply tick_proper | split; [by constructor | reflexivity]].
Qed.

Lemma frame_events evs k g (gen : G) :
  frame evs k g gen = let '(g1, gen1) := rfoldM handle_event g evs gen in frame [] k g1 gen1.
Proof. unfold frame, rbind. simpl. by destruct (rfoldM handle_event g evs gen). Qed.

(** C32. A [QUIT] changes nothing but [running]: the frame still handles
    its other events and runs its tick, and computes the same game, with
    the same random draws, as the frame without the [QUIT]. *)
Theorem quit_only_clears_running pre post k g (gen : G) :
  rand_rel (option_Forall2 eq_but_running)
    (frame (pre ++ QUIT :: post) k g gen) (frame (pre ++ post) k g gen).
Proof.
  rewrite !frame_events, !rfoldM_app.
  destruct (rfoldM handle_event g pre gen) as [g0 gen0]. simpl. unfold rbind. simpl.
  destruct (rfoldM_proper eq_but_running handle_event handle_event_proper
              (set_running g0 false) g0 (eq_but_running_set g0 false) post post eq_refl gen0 gen0 eq_refl)
    as [H1 H2].
  destruct (rfoldM handle_event (set_running g0 false) post gen0) as [a1 g1],
    (rfoldM handle_event g0 post gen0) as [b1 g2].
  simpl in H1, H2. subst g2. by apply frame_proper.
Qed.
End RunningFlag.

(** ** Concrete runs *)

(** A fresh game ([Game()] with the generator seeded at 42), the same game
    past the instructions, and a game one kill away from level 2. *)
Definition demo : t := (init (G:=Z) 42).1.
Definition demo_playing : t := set_show_instructions demo false.
Definition demo_over : t := set_game_over demo_playing.
Definition fire : Keys := mkKeys false false false false true.

Definition level_up_demo : t :=
  mk [Level.mk [Enemy.mk (mkRect 0 100 50 50) 1] [] [Level.KEnemy]; Level.empty; Level.empty] 0
     (Player.with_bullets Player.init [Bullet.new 25 130]) (Scoreboard.mk 90 3)
     true false false false.

(** The state [frame] returns, or the start state if it fails. *)
Definition frame_result (evs : list Event) (k : Keys) (g : t) (seed : Z) : t :=
  match (frame evs k g seed).1 with Some g' => g' | None => g end.

Definition tick_result (k : Keys) (g : t) (seed : Z) : t :=
  match (tick k g seed).1 with Some g' => g' | None => g end.

Lemma demo_wf : wf demo.
Proof. apply game_init_wf. Qed.

Lemma demo_playing_wf : wf demo_playing.
Proof. apply wf_set_show, demo_wf. Qed.

Lemma level_up_demo_wf : wf level_up_demo.
Proof.
  unfold wf; simpl. split_and!; try done; try lia;
    first [ split; [exact Player.player_init_on_screen | simpl; unfold BULLET_CEIL, bottom; simpl; lia]
          | split; [lia | reflexivity]
          | repeat constructor; unfold Enemy.ok, SCREEN_WIDTH, SCREEN_HEIGHT; simpl; lia ].
Qed.

Lemma frame_refines_witness :
  GameSpec.frame_step [GameSpec.LKey] (abs demo) (abs (frame_result [KEYDOWN] fire demo 7)).
Proof. apply (frame_refines demo [KEYDOWN] fire 7); [exact demo_wf | vm_compute; reflexivity]. Defined.

Definition demo_session : list (list Event * Keys) := [([KEYDOWN], fire); ([], fire); ([], fire)].

Lemma session_bullets_bounded_witness :
  (length (Player.bullets (player (match (run demo_session (init (G:=Z) 42%Z).1 7%Z).1 with
                                   | Some g' => g' | None => demo end))) <= 81)%nat.
Proof. apply (session_bullets_bounded demo_session 42%Z 7%Z). vm_compute. reflexivity. Defined.

Lemma session_enemies_bounded_witness :
  Forall (fun lvl => (length (Level.enemies lvl) <= 10)%nat)
    (levels (match (run demo_session (init (G:=Z) 42).1 7).1 with Some g' => g' | None => demo end)).
Proof. apply (session_enemies_bounded demo_session 42%Z 7%Z). vm_compute. reflexivity. Defined.

(** [Game()] with the generator seeded at 7 places the third obstacle of
    level 1 at (433, 552), on the spawn point: after "Play Again", three
    frames end the level whatever keys are held. *)
Definition camp_session : t := (reset_game (G:=Z) 7).1.

Lemma camp_session_wf : wf camp_session.
Proof. apply reset_game_wf. Qed.

Lemma spawn_camping_ends_level_witness :
  exists g', (run (no_events [no_keys; fire; no_keys]) camp_session 7).1 = Some g' /\
    (game_over g' = true \/ won g' = true \/
     (current_level_index camp_session < current_level_index g')%nat).
Proof.
  apply spawn_camping_ends_level;
    [exact camp_session_wf | vm_compute; reflexivity .. | | vm_compute; split; reflexivity |
     vm_compute; split; [reflexivity | discriminate]].
  exists (nth 0 (levels camp_session) Level.empty), (Obstacle.new 433 552).
  split_and!; [vm_compute; reflexivity | vm_compute; right; right; left; reflexivity |
               unfold Level.camps; simpl; lia].
Defined.

Lemma quit_stops_run_witness :
  exists g', (frame ([KEYDOWN] ++ QUIT :: [KEYDOWN]) fire demo 7).1 = Some g' /\ running g' = false /\
    (run (([KEYDOWN] ++ QUIT :: [KEYDOWN], fire) :: [([], fire)]) demo 7).1 = Some g'.
Proof. apply quit_stops_run; [exact demo_wf | reflexivity | repeat constructor]. Defined.

Lemma session_rects_in_world_witness :
  Forall in_world (sprite_rects (match (run demo_session (init (G:=Z) 42%Z).1 7%Z).1 with
                                 | Some g' => g' | None => demo end)).
Proof. apply (session_rects_in_world demo_session 42%Z 7%Z). vm_compute. reflexivity. Defined.

Lemma session_all_sprites_witness :
  Forall (fun lvl => Level.sprites lvl ≡ₚ
            (Level.SEnemy <$> Level.enemies lvl) ++ (Level.SObstacle <$> Level.obstacles lvl))
    (levels (match (run demo_session (init (G:=Z) 42%Z).1 7%Z).1 with Some g' => g' | None => demo end)).
Proof. apply (session_all_sprites demo_session 42%Z 7%Z). vm_compute. reflexivity. Defined.

Lemma session_reachable_witness :
  let g' := match (run [([KEYDOWN], fire); ([], fire)] (init (G:=Z) 42).1 7).1 with
            | Some g' => g' | None => demo end in
  GameSpec.reachable (abs g') /\ GameSpec.inv (abs g').
Proof.
  apply (session_reachable [([KEYDOWN], fire); ([], fire)] (42 : Z) 7). vm_compute. reflexivity.
Defined.

Lemma tick_spec_witness :
  exists g' (kk d : nat), (tick fire demo_playing 7).1 = Some g' /\ wf g' /\ (d <= 2)%nat /\
    abs g' = GameSpec.after_tick (abs demo_playing)
               (Scoreboard.score (scoreboard demo_playing) + 10 * Z.of_nat kk)
               (Scoreboard.lives (scoreboard demo_playing) - Z.of_nat d).
Proof. apply tick_spec; [exact demo_playing_wf | reflexivity..]. Defined.

Lemma tick_precedence_witness :
  let g' := tick_result fire demo_playing 7 in
  (Scoreboard.lives (scoreboard g') <= 0 ->
     game_over g' = true /\ won g' = false /\
     current_level_index g' = current_level_index demo_playing) /\
  (0 < Scoreboard.lives (scoreboard g') -> 500 <= Scoreboard.score (scoreboard g') ->
     won g' = true /\ game_over g' = false /\
     current_level_index g' = current_level_index demo_playing).
Proof.
  apply (tick_precedence demo_playing fire 7); [exact demo_playing_wf | reflexivity.. |].
  vm_compute. reflexivity.
Defined.

Lemma tick_level_advance_witness :
  current_level_index (tick_result no_keys level_up_demo 0) = 1%nat.
Proof.
  apply (tick_level_advance level_up_demo no_keys 0);
    [exact level_up_demo_wf | reflexivity | reflexivity | reflexivity
    | vm_compute; reflexivity | vm_compute; reflexivity | vm_compute; reflexivity | left; vm_compute; split; [reflexivity | discriminate]].
Defined.

Lemma terminal_frame_frozen_witness :
  let g' := frame_result [KEYDOWN; QUIT] fire demo_over 7 in
  same_play demo_over g' /\ game_over g' = game_over demo_over /\ won g' = won demo_over.
Proof.
  apply (terminal_frame_frozen demo_over [KEYDOWN; QUIT] fire 7);
    [left; reflexivity | repeat constructor | vm_compute; reflexivity].
Defined.

Lemma playing_frame_monotone_witness :
  let g' := frame_result [] fire demo_playing 7 in
  Scoreboard.score (scoreboard demo_playing) <= Scoreboard.score (scoreboard g') /\
  (Scoreboard.score (scoreboard g') - Scoreboard.score (scoreboard demo_playing)) mod 10 = 0 /\
  Scoreboard.lives (scoreboard demo_playing) - 2 <= Scoreboard.lives (scoreboard g') <=
    Scoreboard.lives (scoreboard demo_playing) /\
  (current_level_index demo_playing <= current_level_index g' <=
     S (current_level_index demo_playing))%nat.
Proof.
  apply (playing_frame_monotone demo_playing [] fire 7);
    [exact demo_playing_wf | reflexivity | reflexivity | vm_compute; reflexivity].
Defined.

Lemma run_monotone_without_reset_witness :
  let g' := match (run [([KEYDOWN], fire); ([], fire); ([], no_keys)] demo 7).1 with
            | Some g' => g' | None => demo end in
  Scoreboard.score (scoreboard demo) <= Scoreboard.score (scoreboard g') /\
  (Scoreboard.score (scoreboard g') - Scoreboard.score (scoreboard demo)) mod 10 = 0 /\
  Scoreboard.lives (scoreboard g') <= Scoreboard.lives (scoreboard demo) /\
  (current_level_index demo <= current_level_index g')%nat.
Proof.
  apply (run_monotone_without_reset [([KEYDOWN], fire); ([], fire); ([], no_keys)] demo 7); [exact demo_wf | repeat constructor | vm_compute; reflexivity].
Defined.

Lemma run_lives_without_play_again_witness :
  let g' := match (run [([KEYDOWN; MOUSEBUTTONDOWN (400, 445)], fire); ([QUIT; KEYDOWN], fire)] demo 7).1 with
            | Some g' => g' | None => demo end in
  Scoreboard.lives (scoreboard g') <= Scoreboard.lives (scoreboard demo) /\
  (current_level_index demo <= current_level_index g')%nat.
Proof.
  apply (run_lives_without_play_again [([KEYDOWN; MOUSEBUTTONDOWN (400, 445)], fire); ([QUIT; KEYDOWN], fire)]
           demo 7); [exact demo_wf | repeat constructor; vm_compute; discriminate | vm_compute; reflexivity].
Defined.

Lemma exit_click_stops_run_witness :
  exists g', (run (([MOUSEBUTTONDOWN (400, 445)], fire) :: [([], fire)]) demo_over 7).1 = Some g' /\
    running g' = false /\ same_play demo_over g' /\ game_over g' = game_over demo_over /\
    won g' = won demo_over.
Proof. apply exit_click_stops_run; [reflexivity | left; reflexivity | reflexivity]. Defined.

Lemma obstacles_static_witness :
  let g' := match (run [([KEYDOWN], fire); ([], fire); ([], no_keys)] demo 7).1 with
            | Some g' => g' | None => demo end in
  Level.obstacles <$> levels g' = Level.obstacles <$> levels demo.
Proof.
  apply (obstacles_static [([KEYDOWN], fire); ([], fire); ([], no_keys)] demo 7);
    [exact demo_wf | repeat constructor | vm_compute; reflexivity].
Defined.

Lemma level_advance_resets_player_witness :
  Player.at_spawn (player (tick_result no_keys level_up_demo 0)).
Proof.
  apply (level_advance_resets_player level_up_demo no_keys 0);
    [exact level_up_demo_wf | vm_compute; reflexivity | vm_compute; reflexivity].
Defined.

Lemma instructions_wait_for_key_witness :
  let g' := frame_result [QUIT; MOUSEBUTTONDOWN (400, 375)] fire demo 7 in
  same_play demo g' /\ show_instructions g' = true.
Proof.
  apply (instructions_wait_for_key demo [QUIT; MOUSEBUTTONDOWN (400, 375)] fire 7);
    [exact demo_wf | reflexivity | repeat constructor | vm_compute; reflexivity].
Defined.

Lemma quit_undone_by_play_again_witness :
  running (rfoldM handle_event demo_over [QUIT; MOUSEBUTTONDOWN (400, 375)] (7 : Z)).1 = true.
Proof. apply quit_undone_by_play_again. left. reflexivity. Defined.

(** The bound of [session_bullets_bounded] is reached: [Game()] seeded at
    4, a key to leave the instructions, two frames of [DOWN] to reach the
    bottom edge, then 81 frames of [SPACE]. *)
Definition down : Keys := mkKeys false false false true false.

Definition full_fire_session : list (list Event * Keys) :=
  ([KEYDOWN], down) :: ([], down) :: repeat ([], fire) 81.

(** The bullet bound 81 is reached: in the session above every bullet
    fired is still in the group after the 83rd frame, 81 of them. *)
Theorem bullet_bound_reached :
  exists g', (run full_fire_session (init (G:=Z) 4).1 7).1 = Some g' /\
    length (Player.bullets (player g')) = 81%nat.
Proof. eexists; split; [vm_compute; reflexivity | vm_compute; reflexivity]. Qed.

End Game.
