(* ===== verification/Render.v ===== *)
(** * Rendering (src/main.py: colours lines 12-17, the sprites' images,
    [Game.draw] and the [display_*] methods lines 72-135, [Player.draw],
    [Level.draw], [Scoreboard.draw])

    A frame's picture is the list of draw calls [Game.draw] makes, in
    order: [screen.fill], [screen.blit] of an image at a rect or of a
    rendered text at a position, [pygame.draw.rect], and the final
    [pygame.display.flip].  An image is a surface of a given size with
    the shapes drawn on it ([create_rocket], [create_bomb], the filled
    surfaces of [Bullet] and [Obstacle]); a sprite group's [draw] blits
    each member's image at its rect, in the group's order.  Texts are
    Python strings: [f"Score: {n}"] is ["Score: " ++ str(n)], with [str]
    on integers as [py_str].  Drawing reads the state and changes none of
    it: the button rects [display_buttons] stores are the constants
    [Game.play_again_button] and [Game.exit_button].  [run_drawn] is
    [Game.run] with the drawing of every frame, and [main] the program's
    entry point; the theorems on them hold for every generator
    satisfying [RandomLaws]. *)

From S2P Require Import Prelude Rect Scoreboard Entities Player Level GameSpec Game.
From Stdlib Require String Ascii DecimalString DecimalPos DecimalZ.
Import (notations) String.

Module Render.

(** ** Colours, images and draw calls *)

Definition color : Type := Z * Z * Z.

Definition WHITE : color := (255, 255, 255).
Definition BLACK : color := (0, 0, 0).
Definition RED : color := (255, 0, 0).
Definition GREEN : color := (0, 255, 0).
Definition BLUE : color := (0, 0, 255).
Definition GRAY : color := (169, 169, 169).

(** What [pygame.draw] and [Surface.fill] paint on a surface. *)
Inductive shape :=
  | Polygon (c : color) (pts : list (Z * Z))
  | Circle (c : color) (center : Z * Z) (radius : Z)
  | RectShape (c : color) (r : Rect)
  | FillShape (c : color).

#[global] Instance shape_eq_dec : EqDecision shape.
Proof. solve_decision. Defined.

(** A [pygame.Surface]: its size and what was drawn on it. *)
Record surface := mkSurface { sw : Z; sh : Z; shapes : list shape }.

#[global] Instance surface_eq_dec : EqDecision surface.
Proof. solve_decision. Defined.

(** [image.get_rect()]: the surface's size at the origin. *)
Definition get_rect (s : surface) : Rect := mkRect 0 0 (sw s) (sh s).

(** [Player.create_rocket]: a blue triangle on a 50x50 transparent surface. *)
Definition create_rocket : surface := mkSurface 50 50 [Polygon BLUE [(25, 0); (50, 50); (0, 50)]].

(** [Enemy.create_bomb]: a red disc and a black fuse on 50x50. *)
Definition create_bomb : surface :=
  mkSurface 50 50 [Circle RED (25, 25) 25; RectShape BLACK (mkRect 20 0 10 20)].

(** [Bullet.__init__]: a 10x20 surface filled black. *)
Definition bullet_image : surface := mkSurface 10 20 [FillShape BLACK].

(** [Obstacle.__init__]: a 100x30 surface filled green. *)
Definition obstacle_image : surface := mkSurface 100 30 [FillShape GREEN].

(** The calls that paint the screen. *)
Inductive cmd :=
  | Fill (c : color)                               (* screen.fill(c) *)
  | Blit (img : surface) (r : Rect)                (* screen.blit(img, r) *)
  | Text (s : String.string) (c : color) (pos : Z * Z)
                                                   (* screen.blit(font.render(s, True, c), pos) *)
  | DrawRect (c : color) (r : Rect)                (* pygame.draw.rect(screen, c, r) *)
  | Flip.                                          (* pygame.display.flip() *)

(** Python's [str] on an integer: decimal digits, a leading ["-"] when
    negative, ["0"] for zero. *)
Definition py_str (z : Z) : String.string := DecimalString.NilZero.string_of_int (Z.to_int z).

(** Reading an integer back from its decimal text: Python's [int(s)] on
    the strings [str] produces. *)
Definition py_int (s : String.string) : option Z :=
  option_map Z.of_int (DecimalString.NilZero.int_of_string s).

(** The rest of [s] after the prefix [p], if [s] starts with it. *)
Fixpoint strip_prefix (p s : String.string) : option String.string :=
  match p, s with
  | String.EmptyString, _ => Some s
  | String.String a p', String.String b s' => if Ascii.eqb a b then strip_prefix p' s' else None
  | _, _ => None
  end.

(** The number a text such as ["Score: 30"] shows after its label. *)
Definition read_field (label s : String.string) : option Z :=
  match strip_prefix label s with Some r => py_int r | None => None end.

(** ** The draw methods *)

(** [Group.draw(screen)]: each member's image at its rect, in order. *)
Definition group_draw {A} (image : A -> surface) (rect : A -> Rect) (l : list A) : list cmd :=
  map (fun s => Blit (image s) (rect s)) l.

(** [Player.draw]. *)
Definition player_draw (p : Player.t) : list cmd :=
  Blit create_rocket (Player.rect p) :: group_draw (fun _ => bullet_image) Bullet.rect (Player.bullets p).

Definition sprite_image (s : Level.sprite) : surface :=
  match s with Level.SEnemy _ => create_bomb | Level.SObstacle _ => obstacle_image end.

Definition sprite_rect (s : Level.sprite) : Rect :=
  match s with Level.SEnemy e => Enemy.rect e | Level.SObstacle o => Obstacle.rect o end.

(** [Level.draw]: the enemies, the obstacles, then [all_sprites]. *)
Definition level_draw (lvl : Level.t) : list cmd :=
  group_draw (fun _ => create_bomb) Enemy.rect (Level.enemies lvl) ++
  group_draw (fun _ => obstacle_image) Obstacle.rect (Level.obstacles lvl) ++
  group_draw sprite_image sprite_rect (Level.sprites lvl).

(** [Scoreboard.draw]. *)
Definition scoreboard_draw (sb : Scoreboard.t) : list cmd :=
  [Text (String.append "Score: " (py_str (Scoreboard.score sb))) BLACK (10, 10);
   Text (String.append "Lives: " (py_str (Scoreboard.lives sb))) BLACK (SCREEN_WIDTH - 100, 10)].

(** The lines of [display_instructions]. *)
Definition instructions : list String.string :=
  ["Welcome to the Shooter!"; "Instructions:"; "Use arrow keys to move the player.";
   "Press SPACE to shoot bullets."; "Avoid enemies and obstacles.";
   "Score points by shooting enemies."; "Reach 100 points to get to Level 2.";
   "Reach 300 points to get to Level 3."; "Reach 500 points to win the game!";
   "Press any key to start..."]%string.

(** [display_instructions]: one line every 40 pixels from [y = 100]. *)
Fixpoint text_lines (y : Z) (lines : list String.string) : list cmd :=
  match lines with
  | [] => []
  | l :: ls => Text l BLACK (50, y) :: text_lines (y + 40) ls
  end.

Definition display_instructions : list cmd := text_lines 100 instructions.

(** [display_buttons]: the two grey buttons and their labels. *)
Definition display_buttons : list cmd :=
  [DrawRect GRAY Game.play_again_button; DrawRect GRAY Game.exit_button;
   Text "Play Again" BLACK (rx Game.play_again_button + 50, ry Game.play_again_button + 10);
   Text "Exit" BLACK (rx Game.exit_button + 80, ry Game.exit_button + 10)].

(** [display_game_over] and [display_won]: a title, the score, the buttons. *)
Definition display_end (title : String.string) (sb : Scoreboard.t) : list cmd :=
  Text title BLACK (SCREEN_WIDTH / 2 - 100, SCREEN_HEIGHT / 2 - 50) ::
  Text (String.append "Score: " (py_str (Scoreboard.score sb))) BLACK
    (SCREEN_WIDTH / 2 - 100, SCREEN_HEIGHT / 2) ::
  display_buttons.

Definition display_game_over (sb : Scoreboard.t) : list cmd := display_end "GAME OVER" sb.
Definition display_won (sb : Scoreboard.t) : list cmd := display_end "YOU WON!" sb.

(** [display_level]. *)
Definition display_level (idx : nat) : list cmd :=
  [Text (String.append "Level: " (py_str (Z.of_nat idx + 1))) BLACK (SCREEN_WIDTH / 2 - 50, 10)].

(** [Game.draw]: the screen for the instructions, the win, the game over,
    or the play; [self.current_level] is [levels[index]], [None] the
    [IndexError] of a missing level. *)
Definition draw (g : Game.t) : option (list cmd) :=
  let body :=
    if Game.show_instructions g then Some display_instructions
    else if Game.won g then Some (display_won (Game.scoreboard g))
    else if Game.game_over g then Some (display_game_over (Game.scoreboard g))
    else match Game.levels g !! Game.current_level_index g with
         | Some lvl =>
             Some (level_draw lvl ++ player_draw (Game.player g) ++
                   scoreboard_draw (Game.scoreboard g) ++ display_level (Game.current_level_index g))
         | None => None
         end in
  match body with Some b => Some (Fill WHITE :: b ++ [Flip]) | None => None end.

(** [Game.run]'s loop with its [self.draw()]: each iteration handles the
    events, ticks when playing, then draws, whatever the frame did to
    [running]; the loop stops when [running] is false at its top.  The
    result is the pictures of the frames, in order; [None] is an
    [IndexError] of the tick or of the drawing. *)
Fixpoint run_drawn {G} `{RandomSource G} (inputs : list (list Event * Keys)) (g : Game.t)
    : Rand G (option (list (list cmd))) :=
  match inputs with
  | [] => rret (Some [])
  | (evs, k) :: rest =>
      if Game.running g then
        let! r := Game.frame evs k g in
        match r with
        | Some g' =>
            match draw g' with
            | Some pic => let! rs := run_drawn rest g' in rret (option_map (cons pic) rs)
            | None => rret None
            end
        | None => rret None
        end
      else rret (Some [])
  end.

(** The program: [game = Game(); game.run(); pygame.quit()]. *)
Definition main {G} `{RandomSource G} (inputs : list (list Event * Keys))
    : Rand G (option (list (list cmd))) :=
  let! g := Game.init in run_drawn inputs g.

(** A draw call that shows a lives count [n]: a text that reads as
    ["Lives: n"]. *)
Definition shows_lives (c : cmd) (n : Z) : Prop :=
  match c with Text s _ _ => read_field "Lives: " s = Some n | _ => False end.

(** A blit of an image at a rect of the image's own size. *)
Definition blit_fits (c : cmd) : Prop :=
  match c with Blit img r => rw r = sw img /\ rh r = sh img | _ => True end.

(** How many times a picture blits the image [img]. *)
Definition count_blits (img : surface) (pic : list cmd) : nat :=
  List.length (List.filter (fun c => match c with Blit i _ => bool_decide (i = img) | _ => false end) pic).

(** ** The text of a number reads back as that number *)

Lemma py_int_str z : py_int (py_str z) = Some z.
Proof.
  unfold py_int, py_str. rewrite DecimalString.NilZero.isi.
  - simpl. by rewrite DecimalZ.of_to.
  - destruct z as [|p|p]; simpl; [discriminate | | discriminate].
    intros [= E]. exact (DecimalPos.Unsigned.to_uint_nonnil p E).
  - destruct z as [|p|p]; simpl; [discriminate | discriminate |].
    intros [= E]. exact (DecimalPos.Unsigned.to_uint_nonnil p E).
Qed.

Lemma strip_prefix_app p s : strip_prefix p (String.append p s) = Some s.
Proof. induction p as [|a p IH]; simpl; [done|]. by rewrite Ascii.eqb_refl. Qed.

Lemma read_field_app label z : read_field label (String.append label (py_str z)) = Some z.
Proof. unfold read_field. by rewrite strip_prefix_app, py_int_str. Qed.

(** ** The screens *)

(** The screen [draw] paints for a well-formed game, by the flags. *)
Lemma draw_cases g :
  Game.wf g ->
  exists body, draw g = Some (Fill WHITE :: body ++ [Flip]) /\
  (Game.show_instructions g = true /\ body = display_instructions \/
   Game.show_instructions g = false /\ Game.won g = true /\
     body = display_won (Game.scoreboard g) \/
   Game.show_instructions g = false /\ Game.won g = false /\ Game.game_over g = true /\
     body = display_game_over (Game.scoreboard g) \/
   Game.show_instructions g = false /\ Game.won g = false /\ Game.game_over g = false /\
     exists lvl, Game.levels g !! Game.current_level_index g = Some lvl /\
       body = level_draw lvl ++ player_draw (Game.player g) ++
              scoreboard_draw (Game.scoreboard g) ++ display_level (Game.current_level_index g)).
Proof.
  intros (Hlen & Hi & _). unfold draw.
  destruct (Game.show_instructions g) eqn:Hs; [eexists; split; [reflexivity | by left]|].
  destruct (Game.won g) eqn:Hw; [eexists; split; [reflexivity | by right; left]|].
  destruct (Game.game_over g) eqn:Hg; [eexists; split; [reflexivity | by right; right; left]|].
  destruct (lookup_lt_is_Some_2 (Game.levels g) (Game.current_level_index g) ltac:(lia)) as [lvl Hl].
  rewrite Hl. eexists; split; [reflexivity|]. right; right; right. split_and!; [done..|]. by exists lvl.
Qed.

(** ** Which texts show a lives count *)

Lemma group_draw_no_lives {A} (img : A -> surface) rect (l : list A) c n :
  In c (group_draw img rect l) -> ~ shows_lives c n.
Proof. unfold group_draw. rewrite in_map_iff. intros (x & <- & _). simpl. tauto. Qed.

Lemma player_draw_no_lives p c n : In c (player_draw p) -> ~ shows_lives c n.
Proof. intros [<- | Hin]; [simpl; tauto | exact (group_draw_no_lives _ _ _ _ _ Hin)]. Qed.

Lemma level_draw_no_lives lvl c n : In c (level_draw lvl) -> ~ shows_lives c n.
Proof.
  unfold level_draw. rewrite !in_app_iff.
  intros [Hin | [Hin | Hin]]; exact (group_draw_no_lives _ _ _ _ _ Hin).
Qed.

Lemma instructions_no_lives c n : In c display_instructions -> ~ shows_lives c n.
Proof. intros Hin. simpl in Hin. repeat destruct Hin as [<- | Hin]; try done; simpl; discriminate. Qed.

Lemma end_no_lives title sb c n :
  read_field "Lives: " title = None -> In c (display_end title sb) -> ~ shows_lives c n.
Proof.
  intros Ht Hin Hc. simpl in Hin.
  repeat destruct Hin as [<- | Hin]; simpl in Hc; try done; rewrite ?Ht in Hc; discriminate.
Qed.

Lemma display_level_no_lives idx c n : In c (display_level idx) -> ~ shows_lives c n.
Proof. intros [<- | []]. simpl. discriminate. Qed.

(** ** Every image is blitted at a rect of its own size *)

Lemma group_draw_fits {A} (img : A -> surface) rect (l : list A) :
  Forall (fun x => rw (rect x) = sw (img x) /\ rh (rect x) = sh (img x)) l ->
  Forall blit_fits (group_draw img rect l).
Proof. intros Hl. unfold group_draw. apply Forall_map. exact Hl. Qed.

Lemma spaced_shape_ok c bs : Player.spaced c bs -> Forall Bullet.shape_ok bs.
Proof. induction bs as [|b bs IH]; simpl; [constructor|]. intros (? & _ & _ & _ & ?). by constructor; auto. Qed.

Lemma player_draw_fits p : Player.ok p -> Forall blit_fits (player_draw p).
Proof.
  intros [(Hw & Hh & _) Hs]. constructor; [done|]. apply group_draw_fits.
  eapply Forall_impl; [exact (spaced_shape_ok _ _ Hs)|]. by intros b (? & ? & _).
Qed.

Lemma level_draw_fits lvl : Game.level_ok lvl -> Forall blit_fits (level_draw lvl).
Proof.
  intros (He & _ & Ho & [Hse Hso]). unfold level_draw. apply Forall_app; split; [|apply Forall_app; split].
  - apply group_draw_fits. eapply Forall_impl; [exact He|]. by intros e (? & ? & _).
  - apply group_draw_fits. eapply Forall_impl; [exact Ho|]. by intros o (? & ? & _).
  - apply group_draw_fits. unfold Level.sprites. rewrite (Level.merge_perm _ _ _ Hse Hso).
    apply Forall_app; split; apply Forall_fmap.
    + eapply Forall_impl; [exact He|]. by intros e (? & ? & _).
    + eapply Forall_impl; [exact Ho|]. by intros o (? & ? & _).
Qed.

(** ** How many times each image is blitted *)

Lemma count_blits_app img l1 l2 : count_blits img (l1 ++ l2) = (count_blits img l1 + count_blits img l2)%nat.
Proof. unfold count_blits. by rewrite List.filter_app, List.length_app. Qed.

Lemma count_blits_group_same {A} img rect (l : list A) :
  count_blits img (group_draw (fun _ => img) rect l) = length l.
Proof.
  induction l as [|x l IH]; [done|]. unfold count_blits, group_draw in *. cbn [map List.filter].
  rewrite bool_decide_eq_true_2; [|done]. cbn [List.length]. by rewrite IH.
Qed.

Lemma count_blits_group_other {A} img img' rect (l : list A) :
  img' <> img -> count_blits img (group_draw (fun _ => img') rect l) = 0%nat.
Proof.
  intros Hne. induction l as [|x l IH]; [done|]. unfold count_blits, group_draw in *.
  cbn [map List.filter]. by rewrite bool_decide_eq_false_2.
Qed.

Lemma count_blits_perm img l1 l2 : l1 ≡ₚ l2 -> count_blits img l1 = count_blits img l2.
Proof.
  unfold count_blits.
  induction 1 as [| x l1 l2 _ IH | x y l | l1 l2 l3 _ IH1 _ IH2]; cbn [List.filter];
    repeat case_match; cbn [List.length]; lia.
Qed.

Lemma group_draw_app {A} img rect (l1 l2 : list A) :
  group_draw img rect (l1 ++ l2) = group_draw img rect l1 ++ group_draw img rect l2.
Proof. apply List.map_app. Qed.

Lemma group_draw_fmap {A B} img rect (f : A -> B) (l : list A) :
  group_draw img rect (f <$> l) = group_draw (fun x => img (f x)) (fun x => rect (f x)) l.
Proof. induction l as [|x l IH]; [done|]. simpl. by rewrite <- IH. Qed.

Lemma group_draw_perm {A} img rect (l1 l2 : list A) :
  l1 ≡ₚ l2 -> group_draw img rect l1 ≡ₚ group_draw img rect l2.
Proof. apply Permutation_map. Qed.

Lemma count_blits_player img p :
  img <> create_rocket -> img <> bullet_image -> count_blits img (player_draw p) = 0%nat.
Proof.
  intros H1 H2. unfold player_draw. change (?x :: ?l) with ([x] ++ l).
  rewrite count_blits_app, count_blits_group_other by congruence.
  unfold count_blits. cbn [List.filter]. by rewrite bool_decide_eq_false_2.
Qed.

(** The level draws each enemy's bomb and each obstacle twice: once
    from its own group and once from [all_sprites]. *)
Lemma level_draw_count lvl :
  Level.sprites_ok lvl ->
  count_blits create_bomb (level_draw lvl) = (2 * length (Level.enemies lvl))%nat /\
  count_blits obstacle_image (level_draw lvl) = (2 * length (Level.obstacles lvl))%nat.
Proof.
  intros [Hse Hso]. unfold level_draw, Level.sprites. rewrite !count_blits_app.
  rewrite !(count_blits_perm _ _ _ (group_draw_perm sprite_image sprite_rect _ _
             (Level.merge_perm _ _ _ Hse Hso))).
  rewrite group_draw_app, !group_draw_fmap. cbn [sprite_image].
  rewrite !count_blits_app, !count_blits_group_same, !count_blits_group_other by discriminate.
  split; lia.
Qed.

Section Session.
Context {G : Type} `{RandomLaws G}.

(** A state the contract can reach satisfies its invariant, and a frame
    keeps [wf] and reachability. *)
Lemma frame_reachable g evs k (gen : G) :
  Game.wf g -> GameSpec.reachable (Game.abs g) ->
  exists g', (Game.frame evs k g gen).1 = Some g' /\ Game.wf g' /\ GameSpec.reachable (Game.abs g').
Proof.
  intros Hw Hr. destruct (Game.frame_wf g evs k gen Hw) as (g' & Hf & Hw').
  exists g'. split_and!; [done | done |].
  exact (star_trans _ _ _ _ Hr (Game.frame_reaches g evs k gen g' Hw Hf)).
Qed.

(** The loop with drawing never fails from a well-formed reachable
    state, draws at most one picture per frame, and every picture is the
    drawing of a well-formed reachable state. *)
Lemma run_drawn_ok (P : list cmd -> Prop) :
  (forall g pic, Game.wf g -> GameSpec.reachable (Game.abs g) -> draw g = Some pic -> P pic) ->
  forall inputs g (gen : G), Game.wf g -> GameSpec.reachable (Game.abs g) ->
  exists pics, (run_drawn inputs g gen).1 = Some pics /\
    (length pics <= length inputs)%nat /\ Forall P pics.
Proof.
  intros HP inputs. induction inputs as [|[evs k] inputs IH]; intros g gen Hw Hr; simpl.
  { exists []. split_and!; [done | apply Nat.le_0_l | constructor]. }
  destruct (Game.running g); [|exists []; split_and!; [done | apply Nat.le_0_l | constructor]].
  unfold rbind at 1. destruct (frame_reachable g evs k gen Hw Hr) as (g' & Hf & Hw' & Hr').
  destruct (Game.frame evs k g gen) as [r gen1]. simpl in Hf. subst r.
  destruct (draw_cases g' Hw') as (body & Hd & _). rewrite Hd.
  destruct (IH g' gen1 Hw' Hr') as (pics & Hrun & Hlen & Hall).
  unfold rbind. destruct (run_drawn inputs g' gen1) as [rs gen2]. simpl in Hrun. subst rs.
  eexists; split_and!; [reflexivity | simpl; lia | constructor; [|exact Hall]].
  exact (HP g' _ Hw' Hr' Hd).
Qed.

(** The screen of a reachable state shows lives only while playing, and
    then at least 1. *)
Lemma draw_lives_shown g pic :
  Game.wf g -> GameSpec.reachable (Game.abs g) -> draw g = Some pic ->
  forall c n, In c pic -> shows_lives c n -> 1 <= n <= 3.
Proof.
  intros Hw Hr Hd. pose proof (GameSpec.reachable_inv _ Hr) as Hinv.
  destruct (draw_cases g Hw) as (body & Hd' & Hcase). rewrite Hd in Hd'. injection Hd' as ->.
  intros c n Hin Hc. destruct Hin as [<- | Hin]; [done|].
  rewrite in_app_iff in Hin. destruct Hin as [Hin | [<- | []]]; [|done].
  destruct Hcase as [(_ & ->) | [(_ & _ & ->) | [(_ & _ & _ & ->) | (Hs & Hwon & Hgo & lvl & _ & ->)]]].
  - destruct (instructions_no_lives c n Hin Hc).
  - destruct (end_no_lives "YOU WON!" _ c n eq_refl Hin Hc).
  - destruct (end_no_lives "GAME OVER" _ c n eq_refl Hin Hc).
  - rewrite !in_app_iff in Hin.
    destruct Hin as [Hin | [Hin | [Hin | Hin]]];
      [destruct (level_draw_no_lives _ _ _ Hin Hc) | destruct (player_draw_no_lives _ _ _ Hin Hc) | |
       destruct (display_level_no_lives _ _ _ Hin Hc)].
    destruct Hinv as (_ & _ & _ & Hlv & _ & _ & Hpl).
    assert (Hm : GameSpec.mode (Game.abs g) = GameSpec.Playing)
      by (unfold Game.abs, Game.mode_of; simpl; by rewrite Hs, Hwon, Hgo).
    specialize (Hpl (or_intror Hm)). simpl in Hlv, Hpl.
    destruct Hin as [<- | [<- | []]]; unfold shows_lives in Hc.
    + simpl in Hc. discriminate.
    + rewrite read_field_app in Hc. injection Hc as <-. lia.
Qed.

(** The screen of a well-formed state blits every image at its size. *)
Lemma draw_blits_fit g pic : Game.wf g -> draw g = Some pic -> Forall blit_fits pic.
Proof.
  intros Hw Hd. destruct (draw_cases g Hw) as (body & Hd' & Hcase). rewrite Hd in Hd'. injection Hd' as ->.
  constructor; [done|]. apply Forall_app; split; [|by repeat constructor].
  destruct Hcase as [(_ & ->) | [(_ & _ & ->) | [(_ & _ & _ & ->) | (_ & _ & _ & lvl & Hl & ->)]]];
    try by repeat constructor.
  destruct Hw as (_ & _ & Hls & Hp & _).
  apply Forall_app; split; [exact (level_draw_fits _ (Forall_lookup_1 _ _ _ _ Hls Hl))|].
  apply Forall_app; split; [exact (player_draw_fits _ Hp)|]. by repeat constructor.
Qed.

Lemma init_reachable (gen : G) : Game.wf (Game.init gen).1 /\ GameSpec.reachable (Game.abs (Game.init gen).1).
Proof. split; [apply Game.game_init_wf|]. rewrite Game.game_init_abs. apply star_refl. Qed.

(** C34. The game loop with its drawing never fails from [Game()]: no
    [IndexError] on [self.current_level], one picture per frame run, and
    any lives count on any of these screens is between 1 and 3: the
    scoreboard is drawn only while playing, and the game-over screen,
    which shows no lives, replaces it as soon as they reach 0. *)
Theorem session_lives_shown inputs (gen : G) :
  exists pics, (main inputs gen).1 = Some pics /\
    (length pics <= length inputs)%nat /\
    Forall (fun pic => forall c n, In c pic -> shows_lives c n -> 1 <= n <= 3) pics.
Proof.
  destruct (init_reachable gen) as [Hw Hr]. unfold main, rbind.
  destruct (Game.init gen) as [g0 gen0]. exact (run_drawn_ok _ draw_lives_shown inputs g0 gen0 Hw Hr).
Qed.

(** C35. Every image the game loop draws from [Game()] is blitted at a
    rect of the image's own size: the rocket and the bombs at 50x50
    rects, the bullets at 10x20, the obstacles at 100x30 (the rects
    [get_rect] gave the sprites are never resized); the other screens
    blit no image. *)
Theorem session_blits_fit inputs (gen : G) :
  exists pics, (main inputs gen).1 = Some pics /\
    Forall (Forall blit_fits) pics.
Proof.
  destruct (init_reachable gen) as [Hw Hr]. unfold main, rbind. destruct (Game.init gen) as [g0 gen0].
  destruct (run_drawn_ok (Forall blit_fits) (fun g pic Hw _ Hd => draw_blits_fit g pic Hw Hd)
              inputs g0 gen0 Hw Hr) as (pics & Hrun & _ & Hall).
  by exists pics.
Qed.

(** C36. While playing, the screen blits each live enemy's bomb and
    each obstacle twice: [Level.draw] draws the [enemies] and
    [obstacles] groups and then [all_sprites], which holds the same
    sprites again. *)
Theorem playing_sprites_drawn_twice g lvl :
  Game.wf g -> Game.show_instructions g = false -> Game.won g = false -> Game.game_over g = false ->
  Game.levels g !! Game.current_level_index g = Some lvl ->
  exists pic, draw g = Some pic /\
    count_blits create_bomb pic = (2 * length (Level.enemies lvl))%nat /\
    count_blits obstacle_image pic = (2 * length (Level.obstacles lvl))%nat.
Proof.
  intros (_ & _ & Hls & _) Hs Hwon Hgo Hl.
  destruct (Forall_lookup_1 _ _ _ _ Hls Hl) as (_ & _ & _ & Hok).
  destruct (level_draw_count lvl Hok) as [Hb Ho].
  unfold draw. rewrite Hs, Hwon, Hgo, Hl. eexists; split; [reflexivity|].
  change (Fill WHITE :: ?l) with ([Fill WHITE] ++ l).
  rewrite !count_blits_app, Hb, Ho, !count_blits_player by discriminate.
  unfold count_blits; simpl; split; lia.
Qed.

End Session.

(** ** Witnesses, on the session of [Game.demo_session] *)

Definition demo_state : Game.t :=
  match (Game.run Game.demo_session (Game.init (G:=Z) 42%Z).1 7%Z).1 with
  | Some g' => g' | None => Game.demo end.

Definition demo_level : Level.t :=
  match Game.levels demo_state !! Game.current_level_index demo_state with
  | Some l => l | None => Level.empty end.

(** The demo session draws one picture per frame, each with the rocket
    once: the key of the first frame leaves the instructions before that
    frame's tick and drawing. *)
Example demo_session_drawn :
  option_map (map (fun pic => count_blits create_rocket pic))
    (main Game.demo_session 42%Z).1 = Some [1%nat; 1%nat; 1%nat].
Proof. vm_compute. reflexivity. Qed.

Lemma session_lives_shown_witness :
  exists pics, (main Game.demo_session 42%Z).1 = Some pics /\
    (length pics <= length Game.demo_session)%nat /\
    Forall (fun pic => forall c n, In c pic -> shows_lives c n -> 1 <= n <= 3) pics.
Proof. exact (session_lives_shown Game.demo_session 42%Z). Defined.

Lemma session_blits_fit_witness :
  exists pics, (main Game.demo_session 42%Z).1 = Some pics /\
    Forall (Forall blit_fits) pics.
Proof. exact (session_blits_fit Game.demo_session 42%Z). Defined.

Lemma playing_sprites_drawn_twice_witness :
  exists pic, draw demo_state = Some pic /\
    count_blits create_bomb pic = (2 * length (Level.enemies demo_level))%nat /\
    count_blits obstacle_image pic = (2 * length (Level.obstacles demo_level))%nat.
Proof.
  apply (playing_sprites_drawn_twice demo_state demo_level); [| vm_compute; reflexivity ..].
  apply (Game.session_wf Game.demo_session 42%Z 7%Z). vm_compute. reflexivity.
Defined.

End Render.
