(* ===== verification/Program.v ===== *)
(** * The program as an interactive loop (src/main.py, lines 5, 20-21,
    37-70 and 341-344)

    [Game.run] is [while self.running:], a loop that need not end, and
    its frames talk to pygame: [pygame.event.get()], then (only while
    playing, inside [Player.handle_keys]) [pygame.key.get_pressed()], then
    the draw calls ending in [pygame.display.flip()], then
    [clock.tick(60)].  Around it, the module runs [pygame.init()],
    [set_mode] and [set_caption], and [__main__] runs [Game()],
    [game.run()] and [pygame.quit()].

    This file models the program as an interaction tree over the event
    type [IO] of these calls: [loop] is [ITree.iter] of one iteration
    [body], so the tree is the possibly infinite loop itself, not a
    prefix of it.  An uncaught [IndexError] ends the program without
    [pygame.quit()]: the tree returns [None].  A script of inputs gives
    the tree a behaviour: [drive] answers [PollEvents] with the next
    frame's events (and remembers its keys for [GetPressed]), records
    every call in a trace, and stops ([Halted]) when the script runs
    out.  [run_io] is the same behaviour computed frame by frame; the
    theorems show the tree equals it, that the pictures it shows are
    those of [Render.run_drawn], and that a [QUIT] makes the program
    call [pygame.quit()] at the end of that frame. *)

From S2P Require Import Prelude Rect Scoreboard Entities Player Level GameSpec Game Render.
From ITree Require Import ITree Eq.Shallow.
From Stdlib Require String.
Import (notations) String.

Module Program.

(** ** The pygame calls and the program *)

(** The calls the program makes to pygame, with the type of their answer. *)
Variant IO : Type -> Type :=
  | PygameInit : IO unit                         (* pygame.init() *)
  | SetMode (w h : Z) : IO unit                  (* pygame.display.set_mode((w, h)) *)
  | SetCaption (s : String.string) : IO unit     (* pygame.display.set_caption(s) *)
  | PollEvents : IO (list Event)                 (* pygame.event.get() *)
  | GetPressed : IO Keys                         (* pygame.key.get_pressed() *)
  | Display (pic : list Render.cmd) : IO unit    (* the draw calls of Game.draw, up to flip() *)
  | ClockTick (fps : Z) : IO unit                (* clock.tick(fps) *)
  | PygameQuit : IO unit.                        (* pygame.quit() *)

(** The test of [Game.run] that guards the playing update. *)
Definition playing (g : Game.t) : bool :=
  negb (Game.show_instructions g) && negb (Game.game_over g) && negb (Game.won g).

(** One iteration of [while self.running:]: [inl] the next state and
    generator, [inr None] an [IndexError], [inr (Some tt)] the end of
    the loop.  The events are handled as [Game.frame] does; the keys are
    read only when the update runs. *)
Definition body {G} `{RandomSource G} (st : Game.t * G) : itree IO ((Game.t * G) + option unit) :=
  let '(g, gen) := st in
  let finish '(r, gen2) :=
    match r with
    | None => Ret (inr None)
    | Some g2 =>
        match Render.draw g2 with
        | None => Ret (inr None)
        | Some pic => Vis (Display pic) (fun _ => Vis (ClockTick 60) (fun _ => Ret (inl (g2, gen2))))
        end
    end in
  if Game.running g then
    Vis PollEvents (fun evs =>
    let '(g1, gen1) := rfoldM Game.handle_event g evs gen in
    if playing g1 then Vis GetPressed (fun k => finish (Game.tick k g1 gen1))
    else finish (Some g1, gen1))
  else Ret (inr (Some tt)).

(** [Game.run]: the loop, for as long as it runs. *)
Definition loop {G} `{RandomSource G} (g : Game.t) (gen : G) : itree IO (option unit) :=
  ITree.iter body (g, gen).

(** [pygame.quit()] after [game.run()] returns; an exception skips it. *)
Definition after (r : option unit) : itree IO (option unit) :=
  match r with
  | Some _ => Vis PygameQuit (fun _ => Ret r)
  | None => Ret r
  end.

(** [pygame.init()]. *)
Definition init_pygame : itree IO unit := Vis PygameInit (fun _ => Ret tt).

(** [screen = pygame.display.set_mode(...)]; [set_caption("Shooter")]. *)
Definition setup_screen : itree IO unit :=
  Vis (SetMode SCREEN_WIDTH SCREEN_HEIGHT) (fun _ => Vis (SetCaption "Shooter") (fun _ => Ret tt)).

(** The program: module setup, then [game = Game(); game.run();
    pygame.quit()]. *)
Definition main {G} `{RandomSource G} (gen : G) : itree IO (option unit) :=
  ITree.bind init_pygame (fun _ =>
  ITree.bind setup_screen (fun _ =>
  let '(g, gen1) := Game.init gen in
  ITree.bind (loop g gen1) after)).

(** ** Running the program against a script of inputs *)

(** The calls as they appear in a trace, with the answers the script gave. *)
Inductive action :=
  | AInit | ASetMode (w h : Z) | ACaption (s : String.string) | APoll (evs : list Event)
  | APressed (k : Keys) | ADisplay (pic : list Render.cmd) | ATick (fps : Z) | AQuit.

(** How a run against a script ends: the program returned, the script
    ran out at a [pygame.event.get()], or the fuel ran out. *)
Inductive status (R : Type) := Returned (r : R) | Halted | OutOfFuel.
Arguments Returned {R} r.
Arguments Halted {R}.
Arguments OutOfFuel {R}.

(** At most [fuel] steps of the tree, each frame's events and keys
    taken from [inputs]; [k] is the key state of the current frame. *)
Fixpoint drive {R} (fuel : nat) (inputs : list (list Event * Keys)) (k : Keys) (t : itree IO R)
    : list action * status R :=
  match fuel with
  | O => ([], OutOfFuel)
  | S f =>
      match observe t with
      | RetF r => ([], Returned r)
      | TauF t' => drive f inputs k t'
      | VisF e c =>
          match e in IO T return (T -> itree IO R) -> list action * status R with
          | PygameInit => fun c => let '(tr, s) := drive f inputs k (c tt) in (AInit :: tr, s)
          | SetMode w h => fun c => let '(tr, s) := drive f inputs k (c tt) in (ASetMode w h :: tr, s)
          | SetCaption str => fun c => let '(tr, s) := drive f inputs k (c tt) in (ACaption str :: tr, s)
          | PollEvents => fun c =>
              match inputs with
              | [] => ([], Halted)
              | (evs, k') :: rest => let '(tr, s) := drive f rest k' (c evs) in (APoll evs :: tr, s)
              end
          | GetPressed => fun c => let '(tr, s) := drive f inputs k (c k) in (APressed k :: tr, s)
          | Display pic => fun c => let '(tr, s) := drive f inputs k (c tt) in (ADisplay pic :: tr, s)
          | ClockTick fps => fun c => let '(tr, s) := drive f inputs k (c tt) in (ATick fps :: tr, s)
          | PygameQuit => fun c => let '(tr, s) := drive f inputs k (c tt) in (AQuit :: tr, s)
          end c
      end
  end.

(** The pictures a trace shows, in order. *)
Definition shown (tr : list action) : list (list Render.cmd) :=
  omap (fun a => match a with ADisplay p => Some p | _ => None end) tr.

Section Reference.
Context {G : Type} `{RandomSource G}.

(** The loop and [pygame.quit()], frame by frame over a finite script:
    the reference the tree is compared with. *)
Fixpoint run_io (inputs : list (list Event * Keys)) (g : Game.t) (gen : G)
    : list action * status (option unit) :=
  if Game.running g then
    match inputs with
    | [] => ([], Halted)
    | (evs, k) :: rest =>
        let '(g1, gen1) := rfoldM Game.handle_event g evs gen in
        let pressed := if playing g1 then [APressed k] else [] in
        let '(r, gen2) := if playing g1 then Game.tick k g1 gen1 else (Some g1, gen1) in
        match r with
        | None => (APoll evs :: pressed, Returned None)
        | Some g2 =>
            match Render.draw g2 with
            | None => (APoll evs :: pressed, Returned None)
            | Some pic =>
                let '(tr, s) := run_io rest g2 gen2 in
                (APoll evs :: pressed ++ ADisplay pic :: ATick 60 :: tr, s)
            end
        end
    end
  else ([AQuit], Returned (Some tt)).
End Reference.

(** ** Unfolding the tree *)

Lemma observe_iter {E A B} (step : A -> itree E (A + B)) (a : A) :
  observe (ITree.iter step a) =
  observe (ITree.bind (step a) (fun lr => match lr with inl l => Tau (ITree.iter step l) | inr r => Ret r end)).
Proof. reflexivity. Qed.

(** Expose the next node of the trees under [drive]. *)
Ltac tree_step :=
  repeat (rewrite ?observe_bind, ?observe_iter;
          cbn [observe _observe ITree.trigger body init_pygame setup_screen]).

(** Run [drive] as far as the fuel and the known facts allow. *)
Ltac drive_go := repeat progress (simpl drive; tree_step).

Lemma drive_bind_ret {R S} n inputs k (x : R) (c : R -> itree IO S) :
  drive n inputs k (ITree.bind (Ret x) c) = drive n inputs k (c x).
Proof. by destruct n. Qed.

Section Equivalence.
Context {G : Type} `{RandomSource G}.

(** The tree of the loop followed by [pygame.quit()] behaves as [run_io]
    on every script, given five steps per frame. *)
Lemma drive_loop inputs : forall g (gen : G) k fuel,
  (5 * length inputs + 2 <= fuel)%nat ->
  drive fuel inputs k (ITree.bind (loop g gen) after) = run_io inputs g gen.
Proof.
  induction inputs as [|[evs k'] rest IH]; intros g gen k fuel Hf; simpl run_io; unfold loop.
  - do 2 (destruct fuel as [|fuel]; [simpl in Hf; lia|]).
    drive_go. destruct (Game.running g); drive_go; reflexivity.
  - simpl length in Hf. do 4 (destruct fuel as [|fuel]; [lia|]).
    drive_go. destruct (Game.running g); drive_go; [|reflexivity].
    destruct (rfoldM Game.handle_event g evs gen) as [g1 gen1]. drive_go.
    destruct (playing g1).
    + destruct fuel as [|fuel]; [lia|]. drive_go.
      destruct (Game.tick k' g1 gen1) as [[g2|] gen2]; drive_go; [|reflexivity].
      destruct (Render.draw g2) as [pic|]; drive_go; [|reflexivity].
      fold (loop g2 gen2). rewrite IH by lia. by destruct (run_io rest g2 gen2).
    + destruct (Render.draw g1) as [pic|]; drive_go; [|reflexivity].
      fold (loop g1 gen1). rewrite IH by lia. by destruct (run_io rest g1 gen1).
Qed.

(** The interactive program refines its frame-by-frame reference: run
    against any script with five steps of fuel per frame, [main] makes
    the three setup calls and then exactly the calls of [run_io]. *)
Lemma main_run_io inputs (gen : G) k fuel :
  (5 * length inputs + 5 <= fuel)%nat ->
  drive fuel inputs k (main gen) =
  let '(tr, s) := run_io inputs (Game.init gen).1 (Game.init gen).2 in
  (AInit :: ASetMode SCREEN_WIDTH SCREEN_HEIGHT :: ACaption "Shooter" :: tr, s).
Proof.
  intros Hf. do 3 (destruct fuel as [|fuel]; [lia|]). unfold main.
  destruct (Game.init gen) as [g gen1]. drive_go. rewrite drive_bind_ret, drive_loop by lia.
  cbn [fst snd]. by destruct (run_io inputs g gen1).
Qed.

(** One frame of [run_io] is [Game.frame] followed by the drawing. *)
Lemma run_io_frame evs k rest g (gen : G) :
  Game.running g = true ->
  run_io ((evs, k) :: rest) g gen =
  let pressed := if playing (rfoldM Game.handle_event g evs gen).1 then [APressed k] else [] in
  match Game.frame evs k g gen with
  | (Some g2, gen2) =>
      match Render.draw g2 with
      | Some pic => let '(tr, s) := run_io rest g2 gen2 in (APoll evs :: pressed ++ ADisplay pic :: ATick 60 :: tr, s)
      | None => (APoll evs :: pressed, Returned None)
      end
  | (None, _) => (APoll evs :: pressed, Returned None)
  end.
Proof.
  intros Hr. simpl. rewrite Hr. unfold Game.frame, rbind.
  destruct (rfoldM Game.handle_event g evs gen) as [g1 gen1]. unfold playing. simpl.
  by destruct (negb _ && _ && _).
Qed.

Lemma shown_frame (b : bool) k pic tr :
  shown ((if b then [APressed k] else []) ++ ADisplay pic :: ATick 60 :: tr) = pic :: shown tr.
Proof. by destruct b. Qed.

(** Where [Render.run_drawn] succeeds, [run_io] shows the same pictures
    and ends by running out of script or, after [pygame.quit()], by
    returning. *)
Lemma run_io_drawn inputs : forall g (gen : G) pics,
  (Render.run_drawn inputs g gen).1 = Some pics ->
  shown (run_io inputs g gen).1 = pics /\
  ((run_io inputs g gen).2 = Halted \/
   (run_io inputs g gen).2 = Returned (Some tt) /\ last (run_io inputs g gen).1 = Some AQuit).
Proof.
  induction inputs as [|[evs k] rest IH]; intros g gen pics Hd; simpl in Hd.
  - simpl. destruct (Game.running g); injection Hd as <-; simpl; auto.
  - destruct (Game.running g) eqn:Hr; [|simpl; rewrite Hr; injection Hd as <-; simpl; auto].
    rewrite run_io_frame by done. unfold rbind at 1 in Hd.
    destruct (Game.frame evs k g gen) as [[g2|] gen2]; [|done].
    destruct (Render.draw g2) as [pic|]; [|done].
    unfold rbind in Hd. destruct (Render.run_drawn rest g2 gen2) as [[rs|] gen3] eqn:Hrun; [|done].
    simpl in Hd. injection Hd as <-.
    destruct (IH g2 gen2 rs ltac:(by rewrite Hrun)) as [Hs Hend].
    destruct (run_io rest g2 gen2) as [tr s]. simpl in *.
    rewrite shown_frame, Hs. split; [done|].
    destruct Hend as [-> | [-> Hl]]; [by left | right; split; [done|]].
    rewrite app_comm_cons, last_app_cons. destruct tr; [done|]. exact Hl.
Qed.
End Equivalence.

Section Safety.
Context {G : Type} `{RandomLaws G}.

(** C23. The program never crashes: run from [Game()] against any
    script of inputs, the interaction tree shows exactly the pictures of
    [Render.main] (the drawn loop of [Render]), raises no [IndexError],
    and either runs out of script or ends the loop and calls
    [pygame.quit()] as its last action. *)
Theorem program_runs inputs (gen : G) k :
  exists pics tr s, (Render.main inputs gen).1 = Some pics /\
    drive (5 * length inputs + 5) inputs k (main gen) = (tr, s) /\
    shown tr = pics /\ (s = Halted \/ s = Returned (Some tt) /\ last tr = Some AQuit).
Proof.
  destruct (Render.init_reachable gen) as [Hw Hr].
  rewrite main_run_io by lia. unfold Render.main, rbind.
  destruct (Game.init gen) as [g gen1]. cbn [fst snd] in *.
  destruct (Render.run_drawn_ok (fun _ => True) (fun _ _ _ _ _ => I) inputs g gen1 Hw Hr)
    as (pics & Hd & _).
  destruct (run_io_drawn inputs g gen1 pics Hd) as [Hs Hend].
  destruct (run_io inputs g gen1) as [tr s]. simpl in Hs, Hend.
  exists pics, (AInit :: ASetMode SCREEN_WIDTH SCREEN_HEIGHT :: ACaption "Shooter" :: tr), s.
  split_and!; [done | done | done |].
  destruct Hend as [-> | [-> Hl]]; [by left | right; split; [done|]].
  destruct tr; [done|]. exact Hl.
Qed.

(** C30. A [QUIT] ends the program at the end of its frame: when a
    frame's events contain a [QUIT] with no click after it, the program
    still reads the keys if playing, draws and ticks the clock for that
    frame, then leaves the loop and calls [pygame.quit()], whatever
    inputs the script still holds (spec section 5: the exit action stops
    the loop before the next tick). *)
Theorem quit_exits_program pre post k rest g (gen : G) k0 fuel :
  Game.wf g -> Game.running g = true -> Forall (fun ev => Game.is_click ev = false) post ->
  (5 * length rest + 7 <= fuel)%nat ->
  exists pressed pic,
    drive fuel ((pre ++ QUIT :: post, k) :: rest) k0 (ITree.bind (loop g gen) after) =
    (APoll (pre ++ QUIT :: post) :: pressed ++ [ADisplay pic; ATick 60; AQuit], Returned (Some tt)).
Proof.
  intros Hw Hr Hpost Hf. rewrite drive_loop by (simpl; lia). rewrite run_io_frame by done.
  destruct (Game.quit_stops_core pre post k rest g gen Hw Hr Hpost) as (g' & Hfr & Hstop & _).
  destruct (Game.frame_wf g (pre ++ QUIT :: post) k gen Hw) as (g'' & Hfr' & Hw').
  rewrite Hfr in Hfr'. injection Hfr' as <-.
  destruct (Game.frame (pre ++ QUIT :: post) k g gen) as [r gen2]. simpl in Hfr. subst r.
  destruct (Render.draw_cases g' Hw') as (body & -> & _).
  assert (Hend : run_io rest g' gen2 = ([AQuit], Returned (Some tt))) by (destruct rest; simpl; by rewrite Hstop).
  rewrite Hend. eexists _, _. reflexivity.
Qed.
End Safety.

(** ** Witnesses and examples, on [Game.demo_session] *)

Lemma program_runs_witness :
  exists pics tr s, (Render.main Game.demo_session 42%Z).1 = Some pics /\
    drive (5 * length Game.demo_session + 5) Game.demo_session no_keys (main (G:=Z) 42%Z) = (tr, s) /\
    shown tr = pics /\ (s = Halted \/ s = Returned (Some tt) /\ last tr = Some AQuit).
Proof. exact (program_runs Game.demo_session 42%Z no_keys). Defined.

Lemma quit_exits_program_witness :
  exists pressed pic,
    drive 7 [([] ++ QUIT :: [], no_keys)] no_keys (ITree.bind (loop Render.demo_state 7%Z) after) =
    (APoll ([] ++ QUIT :: []) :: pressed ++ [ADisplay pic; ATick 60; AQuit], Returned (Some tt)).
Proof.
  apply (quit_exits_program [] [] no_keys [] Render.demo_state 7%Z no_keys 7).
  - apply (Game.session_wf Game.demo_session 42%Z 7%Z). vm_compute. reflexivity.
  - vm_compute. reflexivity.
  - constructor.
  - simpl. lia.
Defined.

(** The calls of the demo session followed by a [QUIT] frame: setup,
    then per frame the events, the keys, the picture and the clock, and
    [pygame.quit()] after the last frame. *)
Example demo_program_calls :
  let '(tr, s) := drive 100 (Game.demo_session ++ [([QUIT], no_keys); ([], no_keys)]) no_keys
                    (main (G:=Z) 42%Z) in
  (map (fun a => match a with
                 | AInit => 0 | ASetMode _ _ => 1 | ACaption _ => 2 | APoll _ => 3
                 | APressed _ => 4 | ADisplay _ => 5 | ATick _ => 6 | AQuit => 7 end) tr, s) =
  ([0; 1; 2; 3; 4; 5; 6; 3; 4; 5; 6; 3; 4; 5; 6; 3; 4; 5; 6; 7], Returned (Some tt)).
Proof. vm_compute. reflexivity. Qed.

End Program.
