(* ===== verification/PyRandom.v ===== *)
(** * Python's [random] module as the game uses it (CPython 3.11:
    [Modules/_randommodule.c] and [Lib/random.py])

    The game calls [random.randint(a, b)] only, on the module's shared
    [Random] instance.  In CPython that is [randrange(a, b + 1)], which
    raises [ValueError] on an empty range and otherwise returns
    [a + _randbelow(b + 1 - a)]; [_randbelow_with_getrandbits(n)] draws
    [k = n.bit_length()] bits with [getrandbits(k)] until the draw is
    below [n]; [getrandbits] takes 32-bit words from the Mersenne Twister
    MT19937 ([genrand_uint32]), whose state is 624 words and an index.
    [random.seed(a)] for an integer [a] feeds the 32-bit words of [|a|]
    to [init_by_array].

    The C code works on [uint32_t]: here a word is a [Z], every store
    that C would wrap is written with [mask32], and the theorems show the
    other stores (xor, shifts, masks) stay below [2^32] on their own.
    The array is a [list Z] read with [!!] and written with [<[i:=v]>];
    the indices the code uses are always below 624.

    [mt_random] is the [RandomSource] instance on well-formed states
    ([gen]): CPython's [_randbelow] with a bound of [RETRIES] redraws,
    after which the instance returns 0 where CPython would keep drawing
    (each draw is accepted with probability above 1/2).  The examples at
    the end check the model against Python 3.11: the same words after
    [random.seed(42)], [seed(0)], [seed(-7)], [seed(2**40 + 5)], across
    the first regeneration, and the same [Level1()] after
    [random.seed(7)]. *)

From S2P Require Import Prelude Rect Entities Level.

Module PyRandom.

(** ** 32-bit words *)

Definition word32 (z : Z) : Prop := 0 <= z < 2 ^ 32.

(** The [& 0xffffffffU] of the C code, and [uint32_t] wrap-around. *)
Definition mask32 (z : Z) : Z := Z.land z 0xffffffff.

(** ** MT19937 *)

Definition N : nat := 624.
Definition M : nat := 397.
Definition MATRIX_A : Z := 0x9908b0df.
Definition UPPER_MASK : Z := 0x80000000.
Definition LOWER_MASK : Z := 0x7fffffff.

(** [RandomObject]: the state array and [index]. *)
Record state := mkState { mt : list Z; index : nat }.

(** [mt[i]]. *)
Definition get (l : list Z) (i : nat) : Z := default 0 (l !! i).

(** [init_genrand(self, s)]. *)
Fixpoint init_genrand_loop (count mti : nat) (mtl : list Z) : list Z :=
  match count with
  | O => mtl
  | S c =>
      let prev := get mtl (mti - 1) in
      init_genrand_loop c (S mti)
        (<[mti := mask32 (1812433253 * Z.lxor prev (Z.shiftr prev 30) + Z.of_nat mti)]> mtl)
  end.

Definition init_genrand (s : Z) : state :=
  mkState (init_genrand_loop (N - 1) 1 (<[0%nat := mask32 s]> (replicate N 0))) N.

(** [if (i >= N) { mt[0] = mt[N-1]; i = 1; }] *)
Definition wrap_i (mtl : list Z) (i : nat) : list Z * nat :=
  if (N <=? i)%nat then (<[0%nat := get mtl (N - 1)]> mtl, 1%nat) else (mtl, i).

(** The first loop of [init_by_array]: [k] rounds mixing in the key. *)
Fixpoint init_by_array_loop1 (k : nat) (key : list Z) (mtl : list Z) (i j : nat) : list Z * nat :=
  match k with
  | O => (mtl, i)
  | S k' =>
      let prev := get mtl (i - 1) in
      let v := mask32 (mask32 (Z.lxor (get mtl i) (mask32 (Z.lxor prev (Z.shiftr prev 30) * 1664525)))
                       + get key j + Z.of_nat j) in
      let '(mtl', i') := wrap_i (<[i := v]> mtl) (S i) in
      let j' := if (length key <=? S j)%nat then 0%nat else S j in
      init_by_array_loop1 k' key mtl' i' j'
  end.

(** The second loop of [init_by_array]: [N - 1] rounds. *)
Fixpoint init_by_array_loop2 (k : nat) (mtl : list Z) (i : nat) : list Z :=
  match k with
  | O => mtl
  | S k' =>
      let prev := get mtl (i - 1) in
      let v := mask32 (Z.lxor (get mtl i) (mask32 (Z.lxor prev (Z.shiftr prev 30) * 1566083941))
                       - Z.of_nat i) in
      let '(mtl', i') := wrap_i (<[i := v]> mtl) (S i) in
      init_by_array_loop2 k' mtl' i'
  end.

(** [init_by_array(self, init_key, key_length)]. *)
Definition init_by_array (key : list Z) : state :=
  let s0 := init_genrand 19650218 in
  let '(mt1, i1) := init_by_array_loop1 (Nat.max N (length key)) key (mt s0) 1 0 in
  let mt2 := init_by_array_loop2 (N - 1) mt1 i1 in
  mkState (<[0%nat := 0x80000000]> mt2) (index s0).

(** [random_seed] on an integer [a]: the 32-bit words of [|a|], least
    significant first, at least one. *)
Definition seed_key (a : Z) : list Z :=
  let n := Z.abs a in
  let keyused := if n =? 0 then 1%nat else Z.to_nat (Z.log2 n / 32 + 1) in
  map (fun i => Z.land (Z.shiftr n (32 * Z.of_nat i)) 0xffffffff) (seq 0 keyused).

(** [random.seed(a)] for an integer [a]. *)
Definition seed (a : Z) : state := init_by_array (seed_key a).

(** [mag01[y & 0x1]]. *)
Definition mag01 (b : Z) : Z := if b =? 0 then 0 else MATRIX_A.

(** One word of the regeneration: [mt[kk]] from [mt[kk]], [mt[next]]
    and [mt[far]]. *)
Definition twist_step (mtl : list Z) (kk next far : nat) : list Z :=
  let y := Z.lor (Z.land (get mtl kk) UPPER_MASK) (Z.land (get mtl next) LOWER_MASK) in
  <[kk := Z.lxor (Z.lxor (get mtl far) (Z.shiftr y 1)) (mag01 (Z.land y 1))]> mtl.

(** The regeneration of [genrand_uint32], with its three loops. *)
Definition twist (mtl : list Z) : list Z :=
  let mt1 := foldl (fun l kk => twist_step l kk (S kk) (kk + M)) mtl (seq 0 (N - M)) in
  let mt2 := foldl (fun l kk => twist_step l kk (S kk) (kk - (N - M))) mt1 (seq (N - M) (M - 1)) in
  twist_step mt2 (N - 1) 0 (M - 1).

(** The tempering of [genrand_uint32]. *)
Definition temper (y : Z) : Z :=
  let y := Z.lxor y (Z.shiftr y 11) in
  let y := Z.lxor y (Z.land (Z.shiftl y 7) 0x9d2c5680) in
  let y := Z.lxor y (Z.land (Z.shiftl y 15) 0xefc60000) in
  Z.lxor y (Z.shiftr y 18).

(** [genrand_uint32(self)]. *)
Definition genrand_uint32 (s : state) : Z * state :=
  let s1 := if (N <=? index s)%nat then mkState (twist (mt s)) 0 else s in
  (temper (get (mt s1) (index s1)), mkState (mt s1) (S (index s1))).

(** ** [getrandbits], [_randbelow], [randrange], [randint] *)

(** The word loop of [getrandbits] for [k > 32]: words least
    significant first, the last one cut to the bits left. *)
Fixpoint getrandbits_words (words : nat) (k : Z) (s : state) : Z * state :=
  match words with
  | O => (0, s)
  | S w =>
      let '(r, s1) := genrand_uint32 s in
      let r := if k <? 32 then Z.shiftr r (32 - k) else r in
      let '(rest, s2) := getrandbits_words w (k - 32) s1 in
      (Z.lor r (Z.shiftl rest 32), s2)
  end.

(** [getrandbits(k)] for [k >= 0] ([k < 0] raises [ValueError] and is
    never called: [k] is a [bit_length]). *)
Definition getrandbits (k : Z) (s : state) : Z * state :=
  if k =? 0 then (0, s)
  else if k <=? 32 then let '(r, s1) := genrand_uint32 s in (Z.shiftr r (32 - k), s1)
  else getrandbits_words (Z.to_nat ((k - 1) / 32 + 1)) k s.

(** [int.bit_length()] on a non-negative integer. *)
Definition bit_length (n : Z) : Z := if n =? 0 then 0 else Z.log2 n + 1.

(** [while r >= n: r = getrandbits(k)], for at most [fuel] more draws. *)
Fixpoint reject_loop (fuel : nat) (n k r : Z) (s : state) : option (Z * state) :=
  if r <? n then Some (r, s)
  else match fuel with
       | O => None
       | S f => let '(r', s') := getrandbits k s in reject_loop f n k r' s'
       end.

(** [_randbelow_with_getrandbits(n)], [fuel] bounding the redraws. *)
Definition randbelow_fuel (fuel : nat) (n : Z) (s : state) : option (Z * state) :=
  let k := bit_length n in
  let '(r, s1) := getrandbits k s in
  reject_loop fuel n k r s1.

(** The error [randrange] raises on an empty range. *)
Inductive exn := ValueError.

(** [randrange(start, stop)] with the default step, then [randint]. *)
Definition randrange (fuel : nat) (start stop : Z) (s : state) : exn + option (Z * state) :=
  let width := stop - start in
  if 0 <? width then
    inr (option_map (fun '(r, s') => (start + r, s')) (randbelow_fuel fuel width s))
  else inl ValueError.

Definition py_randint (fuel : nat) (a b : Z) (s : state) : exn + option (Z * state) :=
  randrange fuel a (b + 1) s.

(** The reference regeneration: one loop over the array, indices taken
    modulo [N]; [twist] is this loop split in three to avoid the [%]. *)
Definition twist_ref (mtl : list Z) : list Z :=
  foldl (fun l kk => twist_step l kk (S kk mod N) ((kk + M) mod N)) mtl (seq 0 N).

(** The state invariant: 624 words of 32 bits, the index at most 624. *)
Definition mt_ok (s : state) : Prop :=
  length (mt s) = N /\ Forall word32 (mt s) /\ (index s <= N)%nat.

(** ** Words stay 32-bit *)

(** A non-negative value whose [log2] stays below 32 is a word. *)
Lemma word32_log2 z : 0 <= z -> (0 < z -> Z.log2 z < 32) -> word32 z.
Proof.
  unfold word32. intros Hz Hl. split; [done|].
  destruct (Z.eq_dec z 0) as [->|]; [lia|]. apply Z.log2_lt_pow2; [lia|]. apply Hl. lia.
Qed.

Lemma word32_log2_lt z : word32 z -> 0 < z -> Z.log2 z < 32.
Proof. unfold word32. intros Hz Hpos. apply Z.log2_lt_pow2; lia. Qed.

Lemma word32_lxor a b : word32 a -> word32 b -> word32 (Z.lxor a b).
Proof.
  intros Ha Hb. destruct (Z.eq_dec a 0) as [->|Ha0]; [by rewrite Z.lxor_0_l|].
  destruct (Z.eq_dec b 0) as [->|Hb0]; [by rewrite Z.lxor_0_r|].
  pose proof (word32_log2_lt a Ha ltac:(unfold word32 in Ha; lia)).
  pose proof (word32_log2_lt b Hb ltac:(unfold word32 in Hb; lia)).
  unfold word32 in *. apply word32_log2; [apply Z.lxor_nonneg; lia|]. intros _.
  pose proof (Z.log2_lxor a b ltac:(lia) ltac:(lia)). lia.
Qed.

Lemma word32_lor a b : word32 a -> word32 b -> word32 (Z.lor a b).
Proof.
  intros Ha Hb. destruct (Z.eq_dec a 0) as [->|Ha0]; [by rewrite Z.lor_0_l|].
  destruct (Z.eq_dec b 0) as [->|Hb0]; [by rewrite Z.lor_0_r|].
  pose proof (word32_log2_lt a Ha ltac:(unfold word32 in Ha; lia)).
  pose proof (word32_log2_lt b Hb ltac:(unfold word32 in Hb; lia)).
  unfold word32 in *. apply word32_log2; [apply Z.lor_nonneg; lia|]. intros _.
  rewrite Z.log2_lor by lia. lia.
Qed.

Lemma word32_land_r a c : 0 <= a -> word32 c -> word32 (Z.land a c).
Proof.
  intros Ha Hc. destruct (Z.eq_dec c 0) as [->|Hc0]; [by rewrite Z.land_0_r|].
  pose proof (word32_log2_lt c Hc ltac:(unfold word32 in Hc; lia)).
  unfold word32 in *. apply word32_log2; [apply Z.land_nonneg; lia|]. intros _.
  pose proof (Z.log2_land a c ltac:(lia) ltac:(lia)). lia.
Qed.

Lemma word32_shiftr a n : word32 a -> 0 <= n -> word32 (Z.shiftr a n).
Proof.
  unfold word32. intros Ha Hn. rewrite Z.shiftr_div_pow2 by lia.
  pose proof (Z.pow_pos_nonneg 2 n ltac:(lia) Hn).
  split; [apply Z.div_pos; lia|].
  assert (a / 2 ^ n <= a) by (apply Z.div_le_upper_bound; nia). lia.
Qed.

Lemma word32_mask32 z : word32 (mask32 z).
Proof.
  unfold word32, mask32. change 0xffffffff with (Z.ones 32).
  rewrite Z.land_ones by lia. apply Z.mod_pos_bound. lia.
Qed.

Lemma word32_consts : word32 MATRIX_A /\ word32 UPPER_MASK /\ word32 LOWER_MASK /\ word32 0 /\
  word32 0x9d2c5680 /\ word32 0xefc60000 /\ word32 0x80000000.
Proof. unfold word32. vm_compute. repeat split; discriminate. Qed.

Lemma word32_land a c : word32 a -> word32 c -> word32 (Z.land a c).
Proof. intros Ha Hc. apply word32_land_r; [unfold word32 in Ha; lia | done]. Qed.

Lemma word32_land_shiftl a n c : word32 a -> 0 <= n -> word32 c -> word32 (Z.land (Z.shiftl a n) c).
Proof. intros Ha Hn Hc. apply word32_land_r; [apply Z.shiftl_nonneg; unfold word32 in Ha; lia | done]. Qed.

Lemma word32_get l i : Forall word32 l -> word32 (get l i).
Proof.
  intros Hl. unfold get. destruct (l !! i) eqn:Hi; simpl; [|unfold word32; lia].
  exact (Forall_lookup_1 _ _ _ _ Hl Hi).
Qed.

Lemma word32_mag01 b : word32 (mag01 b).
Proof. unfold mag01. destruct (b =? 0); apply word32_consts. Qed.

Create HintDb words.
#[export] Hint Resolve word32_lxor word32_lor word32_land word32_land_shiftl word32_shiftr
  word32_mask32 word32_get word32_mag01 : words.
#[export] Hint Extern 1 (word32 _) => apply word32_consts : words.
#[export] Hint Extern 1 (0 <= _) => lia : words.

Lemma temper_word y : word32 y -> word32 (temper y).
Proof. intros Hy. unfold temper. auto 10 with words. Qed.

(** A list of [N] words after a store of a word. *)
Definition words_ok (l : list Z) : Prop := length l = N /\ Forall word32 l.

Lemma words_ok_insert l i v : words_ok l -> word32 v -> words_ok (<[i := v]> l).
Proof.
  intros [Hlen Hall] Hv. split; [by rewrite length_insert|].
  by apply Forall_insert.
Qed.

Lemma wrap_i_ok l i l' i' : wrap_i l i = (l', i') -> words_ok l -> words_ok l'.
Proof.
  unfold wrap_i. intros Hw Hl. destruct (N <=? i)%nat; injection Hw as <- _; [|done].
  apply words_ok_insert; [done|]. by apply word32_get, Hl.
Qed.

#[export] Hint Resolve words_ok_insert : words.

Lemma init_genrand_loop_ok count mti l : words_ok l -> words_ok (init_genrand_loop count mti l).
Proof.
  revert mti l. induction count as [|c IH]; intros mti l Hl; simpl; [done|].
  apply IH. auto with words.
Qed.

Lemma init_genrand_ok s : mt_ok (init_genrand s).
Proof.
  assert (H0 : words_ok (replicate N 0))
    by (split; [by rewrite length_replicate | apply Forall_replicate; unfold word32; lia]).
  destruct (init_genrand_loop_ok (N - 1) 1 (<[0%nat := mask32 s]> (replicate N 0))
              (words_ok_insert _ _ _ H0 (word32_mask32 s))) as [Hl Hw].
  unfold mt_ok, init_genrand. cbn [mt index]. split_and!; [exact Hl | exact Hw | lia].
Qed.

Lemma init_by_array_loop1_ok k key l i j : words_ok l -> words_ok (init_by_array_loop1 k key l i j).1.
Proof.
  revert l i j. induction k as [|k IH]; intros l i j Hl; simpl; [done|].
  destruct (wrap_i _ (S i)) as [l' i'] eqn:Hw. apply IH.
  apply (wrap_i_ok _ _ _ _ Hw). auto with words.
Qed.

Lemma init_by_array_loop2_ok k l i : words_ok l -> words_ok (init_by_array_loop2 k l i).
Proof.
  revert l i. induction k as [|k IH]; intros l i Hl; simpl; [done|].
  destruct (wrap_i _ (S i)) as [l' i'] eqn:Hw. apply IH.
  apply (wrap_i_ok _ _ _ _ Hw). auto with words.
Qed.

Lemma seed_ok a : mt_ok (seed a).
Proof.
  unfold seed, init_by_array. destruct (init_genrand_ok 19650218) as (Hl & Hw & _).
  destruct (init_by_array_loop1 _ _ _ _ _) as [l1 i1] eqn:H1.
  pose proof (init_by_array_loop1_ok (Nat.max N (length (seed_key a))) (seed_key a)
                (mt (init_genrand 19650218)) 1 0 (conj Hl Hw)) as Ho1. rewrite H1 in Ho1.
  destruct (words_ok_insert _ 0 0x80000000 (init_by_array_loop2_ok (N - 1) l1 i1 Ho1) ltac:(auto with words))
    as [Hl2 Hw2].
  unfold mt_ok. cbn [mt index]. split_and!; [exact Hl2 | exact Hw2 |]. unfold init_genrand. cbn [index]. lia.
Qed.

Lemma foldl_inv {A B} (P : A -> Prop) (f : A -> B -> A) (xs : list B) (a : A) :
  (forall a x, P a -> P (f a x)) -> P a -> P (foldl f a xs).
Proof. intros Hf. revert a. induction xs as [|x xs IH]; intros a Ha; simpl; [done|]. by apply IH, Hf. Qed.

Lemma twist_step_ok l kk next far : words_ok l -> words_ok (twist_step l kk next far).
Proof. intros Hl. unfold twist_step. pose proof (proj2 Hl). auto 10 with words. Qed.

Lemma twist_ok l : words_ok l -> words_ok (twist l).
Proof.
  intros Hl. unfold twist. apply twist_step_ok.
  apply foldl_inv; [intros; by apply twist_step_ok|].
  apply foldl_inv; [intros; by apply twist_step_ok | done].
Qed.

Lemma genrand_ok s : mt_ok s -> mt_ok (genrand_uint32 s).2 /\ word32 (genrand_uint32 s).1.
Proof.
  intros (Hl & Hw & Hi). unfold genrand_uint32.
  destruct (N <=? index s)%nat eqn:Hn; cbn [fst snd mt index].
  - destruct (twist_ok (mt s) (conj Hl Hw)) as [Hl' Hw'].
    split; [split_and!; cbn [mt index]; [done | done | unfold N; lia] | apply temper_word; auto with words].
  - apply Nat.leb_gt in Hn. split; [split_and!; cbn [mt index]; [done | done | lia] | apply temper_word; auto with words].
Qed.

(** ** The three loops of the regeneration are one modular loop *)

Lemma foldl_ext_seq {A} (f g : A -> nat -> A) (a : A) start len :
  (forall kk l, (start <= kk < start + len)%nat -> f l kk = g l kk) ->
  foldl f a (seq start len) = foldl g a (seq start len).
Proof.
  revert a start. induction len as [|len IH]; intros a start Hfg; simpl; [done|].
  rewrite Hfg by lia. apply IH. intros kk l Hk. apply Hfg. lia.
Qed.

Lemma mod_N_small a : (a < N)%nat -> (a mod N = a)%nat.
Proof. intros Ha. symmetry. apply (Nat.mod_unique a N 0); unfold N in *; lia. Qed.

Lemma mod_N_wrap a : (N <= a < 2 * N)%nat -> (a mod N = a - N)%nat.
Proof. intros Ha. symmetry. apply (Nat.mod_unique a N 1); unfold N in *; lia. Qed.

Lemma seq_N : seq 0 N = seq 0 (N - M) ++ seq (N - M) (M - 1) ++ [(N - 1)%nat].
Proof. vm_compute. reflexivity. Qed.

(** The regeneration of [genrand_uint32], written in C as three loops
    so that no index needs a [% N], computes the same array as the single
    loop over all 624 words with the indices taken modulo [N], whatever
    the array. *)
Lemma twist_equiv l : twist l = twist_ref l.
Proof.
  set (g := fun l kk => twist_step l kk (S kk mod N) ((kk + M) mod N)).
  assert (E1 : forall a, foldl (fun l kk => twist_step l kk (S kk) (kk + M)) a (seq 0 (N - M)) =
                         foldl g a (seq 0 (N - M))).
  { intros a. apply foldl_ext_seq. intros kk l' Hk. unfold g.
    rewrite (mod_N_small (S kk)), (mod_N_small (kk + M)) by (unfold N, M in *; lia). reflexivity. }
  assert (E2 : forall a, foldl (fun l kk => twist_step l kk (S kk) (kk - (N - M))) a (seq (N - M) (M - 1)) =
                         foldl g a (seq (N - M) (M - 1))).
  { intros a. apply foldl_ext_seq. intros kk l' Hk. unfold g.
    rewrite (mod_N_small (S kk)), (mod_N_wrap (kk + M)) by (unfold N, M in *; lia).
    replace (kk + M - N)%nat with (kk - (N - M))%nat by (unfold N, M in *; lia). reflexivity. }
  unfold twist, twist_ref. fold g. rewrite seq_N, !foldl_app, E1, E2. cbn [foldl]. unfold g.
  rewrite (mod_N_wrap (S (N - 1))), (mod_N_wrap (N - 1 + M)) by (unfold N, M; lia).
  replace (S (N - 1) - N)%nat with 0%nat by (unfold N; lia).
  replace (N - 1 + M - N)%nat with (M - 1)%nat by (unfold N, M; lia).
  reflexivity.
Qed.

(** ** [getrandbits] and the rejection loop *)

Lemma getrandbits_words_ok w k s :
  mt_ok s -> mt_ok (getrandbits_words w k s).2 /\ 0 <= (getrandbits_words w k s).1.
Proof.
  revert k s. induction w as [|w IH]; intros k s Hs; cbn [getrandbits_words fst snd]; [split; [done | lia]|].
  destruct (genrand_ok s Hs) as [Hs1 Hr]. destruct (genrand_uint32 s) as [r s1]. cbn [fst snd] in *.
  destruct (IH (k - 32) s1 Hs1) as [Hs2 Hrest]. destruct (getrandbits_words w (k - 32) s1) as [rest s2].
  cbn [fst snd] in *. split; [done|]. apply Z.lor_nonneg. split.
  - destruct (k <? 32); [apply Z.shiftr_nonneg|]; unfold word32 in Hr; lia.
  - apply Z.shiftl_nonneg. done.
Qed.

Lemma getrandbits_ok k s :
  mt_ok s -> mt_ok (getrandbits k s).2 /\ 0 <= (getrandbits k s).1 /\
  (0 <= k <= 32 -> (getrandbits k s).1 < 2 ^ k).
Proof.
  intros Hs. unfold getrandbits. destruct (Z.eqb_spec k 0) as [->|Hk0]; [cbn [fst snd]; split_and!; [done | lia | intros; reflexivity]|].
  destruct (Z.leb_spec k 32) as [Hk|Hk].
  - destruct (genrand_ok s Hs) as [Hs1 Hr]. destruct (genrand_uint32 s) as [r s1]. cbn [fst snd] in *.
    unfold word32 in Hr. split_and!; [done | apply Z.shiftr_nonneg; lia |]. intros Hk'.
    rewrite Z.shiftr_div_pow2 by lia. apply Z.div_lt_upper_bound; [apply Z.pow_pos_nonneg; lia|].
    rewrite <- Z.pow_add_r by lia. replace (32 - k + k) with 32 by lia. lia.
  - destruct (getrandbits_words_ok (Z.to_nat ((k - 1) / 32 + 1)) k s Hs). split_and!; [done | done | lia].
Qed.

Lemma reject_loop_ok fuel n k r s r' s' :
  mt_ok s -> 0 <= r -> reject_loop fuel n k r s = Some (r', s') -> 0 <= r' < n /\ mt_ok s'.
Proof.
  revert r s. induction fuel as [|f IH]; intros r s Hs Hr Hl; simpl in Hl;
    (destruct (Z.ltb_spec r n); [injection Hl as <- <-; split; [lia | done]|]); [done|].
  destruct (getrandbits_ok k s Hs) as (Hs1 & Hr1 & _).
  destruct (getrandbits k s) as [r1 s1]. exact (IH r1 s1 Hs1 Hr1 Hl).
Qed.

Lemma reject_loop_accept fuel n k r s : r < n -> reject_loop fuel n k r s = Some (r, s).
Proof. intros Hr. destruct fuel; simpl; by destruct (Z.ltb_spec r n); [|lia]. Qed.

(** The loop tries again after a rejected draw, while the fuel lasts. *)
Lemma reject_loop_retry fuel n k r s :
  n <= r -> reject_loop (S fuel) n k r s = let '(r', s') := getrandbits k s in reject_loop fuel n k r' s'.
Proof. intros Hr. simpl. by destruct (Z.ltb_spec r n); [lia|]. Qed.

Lemma randbelow_fuel_ok fuel n s r s' :
  mt_ok s -> randbelow_fuel fuel n s = Some (r, s') -> 0 <= r < n /\ mt_ok s'.
Proof.
  unfold randbelow_fuel. intros Hs Hl. destruct (getrandbits_ok (bit_length n) s Hs) as (Hs1 & Hr1 & _).
  destruct (getrandbits (bit_length n) s) as [r1 s1]. exact (reject_loop_ok _ _ _ _ _ _ _ Hs1 Hr1 Hl).
Qed.

(** CPython's [random.randint(a, b)] on a well-formed generator: it
    raises [ValueError] exactly on an empty range ([b < a]); otherwise
    every value it returns lies in [[a, b]] and leaves a well-formed
    generator, and a first draw of [getrandbits(k)] below the width
    [b + 1 - a] is returned at once, as [a] plus that draw. *)
Lemma randint_spec fuel a b s :
  mt_ok s ->
  (b < a -> py_randint fuel a b s = inl ValueError) /\
  (a <= b -> forall r s', py_randint fuel a b s = inr (Some (r, s')) -> a <= r <= b /\ mt_ok s') /\
  (a <= b -> (getrandbits (bit_length (b + 1 - a)) s).1 < b + 1 - a ->
     py_randint fuel a b s =
     inr (Some (a + (getrandbits (bit_length (b + 1 - a)) s).1, (getrandbits (bit_length (b + 1 - a)) s).2))).
Proof.
  intros Hs. unfold py_randint, randrange. split_and!.
  - intros Hba. destruct (Z.ltb_spec 0 (b + 1 - a)); [lia | done].
  - intros Hab r s' Hr. destruct (Z.ltb_spec 0 (b + 1 - a)); [|lia].
    destruct (randbelow_fuel fuel (b + 1 - a) s) as [[r0 s0]|] eqn:Hf; [|done].
    injection Hr as <- <-. destruct (randbelow_fuel_ok _ _ _ _ _ Hs Hf). split; [lia | done].
  - intros Hab Hfirst. destruct (Z.ltb_spec 0 (b + 1 - a)); [|lia].
    unfold randbelow_fuel. destruct (getrandbits _ s) as [r1 s1]. cbn [fst snd] in *.
    by rewrite reject_loop_accept.
Qed.

(** The Mersenne Twister stays within 32 bits: [random.seed(a)] gives
    624 words below [2^32], and [genrand_uint32] keeps the state so (the
    stores of the regeneration, unmasked in the C code, never exceed 32
    bits) and returns a 32-bit word. *)
Lemma generator_words a :
  mt_ok (seed a) /\
  forall s, mt_ok s -> mt_ok (genrand_uint32 s).2 /\ word32 (genrand_uint32 s).1.
Proof. split; [apply seed_ok | apply genrand_ok]. Qed.

(** ** The generator of the game *)

Definition RETRIES : nat := 1000.

(** [_randbelow(n)] as the instance draws it. *)
Definition mt_randbelow (n : Z) (s : state) : Z * state :=
  match randbelow_fuel RETRIES n s with Some p => p | None => (0, s) end.

Lemma mt_randbelow_ok n s :
  mt_ok s -> mt_ok (mt_randbelow n s).2 /\ (0 < n -> 0 <= (mt_randbelow n s).1 < n).
Proof.
  intros Hs. unfold mt_randbelow. destruct (randbelow_fuel RETRIES n s) as [[r s']|] eqn:Hf.
  - destruct (randbelow_fuel_ok _ _ _ _ _ Hs Hf). cbn [fst snd]; split; [done | intros; lia].
  - split; [done | intros; cbn [fst]; lia].
Qed.

(** A generator of the game: a well-formed MT19937 state. *)
Definition gen : Type := { s : state | mt_ok s }.

#[global] Instance mt_random : RandomSource gen :=
  fun n g => ((mt_randbelow n (proj1_sig g)).1,
              exist _ (mt_randbelow n (proj1_sig g)).2 (proj1 (mt_randbelow_ok n _ (proj2_sig g)))).

#[global] Instance mt_laws : RandomLaws gen.
Proof. intros n g Hn. exact (proj2 (mt_randbelow_ok n _ (proj2_sig g)) Hn). Qed.

(** [random.seed(a)] as a generator of the game. *)
Definition seeded (a : Z) : gen := exist _ (seed a) (seed_ok a).

(** Where CPython's [randint(a, b)] returns within [RETRIES] redraws,
    the model's [randint] on the instance returns the same value and
    state. *)
Lemma randint_refines a b (g : gen) r s' :
  a <= b -> py_randint RETRIES a b (proj1_sig g) = inr (Some (r, s')) ->
  (randint a b g).1 = r /\ proj1_sig (randint a b g).2 = s'.
Proof.
  intros Hab. change ((randint a b g).1) with (a + (mt_randbelow (b - a + 1) (proj1_sig g)).1).
  change (proj1_sig (randint a b g).2) with ((mt_randbelow (b - a + 1) (proj1_sig g)).2).
  unfold py_randint, randrange, mt_randbelow. destruct (Z.ltb_spec 0 (b + 1 - a)); [|lia].
  replace (b - a + 1) with (b + 1 - a) by lia.
  destruct (randbelow_fuel RETRIES (b + 1 - a) (proj1_sig g)) as [[r0 s0]|]; [|done].
  intros Hr. injection Hr as <- <-. done.
Qed.

(** C12. The game's random numbers are CPython's: with the Mersenne
    Twister as the generator, [Level.random_enemy] ([Enemy(random.randint(0,
    SCREEN_WIDTH - 50), random.randint(-100, -40))], whose [__init__]
    draws [random.randint(1, 3)]) makes exactly CPython's three [randint]
    calls in this order, and builds the enemy at the [x] and [y] of the
    first two with the speed of the third, leaving CPython's state. *)
Theorem random_enemy_cpython (g : gen) x s1 y s2 sp s3 :
  py_randint RETRIES 0 (SCREEN_WIDTH - 50) (proj1_sig g) = inr (Some (x, s1)) ->
  py_randint RETRIES (-100) (-40) s1 = inr (Some (y, s2)) ->
  py_randint RETRIES 1 3 s2 = inr (Some (sp, s3)) ->
  (Level.random_enemy g).1 = Enemy.mk (mkRect x y 50 50) sp /\ proj1_sig (Level.random_enemy g).2 = s3.
Proof.
  intros H1 H2 H3. unfold Level.random_enemy, Enemy.new, rbind, rret.
  destruct (randint_refines 0 (SCREEN_WIDTH - 50) g x s1 ltac:(unfold SCREEN_WIDTH; lia) H1) as [Hx Hs1].
  destruct (randint 0 (SCREEN_WIDTH - 50) g) as [x' g1]. cbn [fst snd] in Hx, Hs1. subst x' s1.
  destruct (randint_refines (-100) (-40) g1 y s2 ltac:(lia) H2) as [Hy Hs2].
  destruct (randint (-100) (-40) g1) as [y' g2]. cbn [fst snd] in Hy, Hs2. subst y' s2.
  destruct (randint_refines 1 3 g2 sp s3 ltac:(lia) H3) as [Hsp Hs3].
  destruct (randint 1 3 g2) as [sp' g3]. cbn [fst snd] in Hsp, Hs3. subst sp' s3.
  split; reflexivity.
Qed.

(** ** Agreement with CPython 3.11, and witnesses *)

(** [random.seed(42)]; three [getrandbits(32)], then [getrandbits(10)]
    and [getrandbits(40)], as Python 3.11 prints them. *)
Example seed42_draws :
  (let s := seed 42 in
   let '(a, s) := genrand_uint32 s in let '(b, s) := genrand_uint32 s in
   let '(c, s) := genrand_uint32 s in let '(d, s) := getrandbits 10 s in
   let '(e, _) := getrandbits 40 s in [a; b; c; d; e]) =
  [2746317213; 478163327; 107420369; 759; 267469214295].
Proof. vm_compute. reflexivity. Qed.

(** The first [getrandbits(32)] after [random.seed(0)], [seed(-7)] and
    [seed(2**40 + 5)] (a two-word key). *)
Example seed_keys_draws :
  map (fun a => (genrand_uint32 (seed a)).1) [0; -7; 2 ^ 40 + 5] = [3626764237; 1390851128; 2166296868].
Proof. vm_compute. reflexivity. Qed.

(** Draws 624, 625 and 700 after [random.seed(1)], across the first
    regeneration. *)
Example twist_boundary_draws :
  (let xs := (rrepeat 700 genrand_uint32 (seed 1)).1 in (nth 623 xs 0, nth 624 xs 0, nth 699 xs 0)) =
  (802355090, 1360367077, 3348972608).
Proof. vm_compute. reflexivity. Qed.

(** [Level1()] after [random.seed(7)]: the enemies' [(x, y, speed)] and
    the obstacles' [(x, y)], as CPython's [randint] calls in the order of
    [src/main.py] produce them. *)
Example level1_seed7 :
  (let l := (Level.level1 (seeded 7)).1 in
   (map (fun e => (rx (Enemy.rect e), ry (Enemy.rect e), Enemy.speed e)) (Level.enemies l),
    map (fun o => (rx (Obstacle.rect o), ry (Obstacle.rect o))) (Level.obstacles l))) =
  ([(331, -40, 1); (404, -59, 1); (74, -48, 3); (96, -77, 3); (59, -42, 3)],
   [(219, 119); (88, 322); (428, 135)]).
Proof. vm_compute. reflexivity. Qed.

(** The state after one [randint] call that returns. *)
Definition after_randint (a b : Z) (s : state) : state :=
  match py_randint RETRIES a b s with inr (Some (_, s')) => s' | _ => s end.

Lemma random_enemy_cpython_witness :
  let s0 := seed 7 in
  let s1 := after_randint 0 (SCREEN_WIDTH - 50) s0 in
  let s2 := after_randint (-100) (-40) s1 in
  let s3 := after_randint 1 3 s2 in
  (Level.random_enemy (seeded 7)).1 = Enemy.mk (mkRect 331 (-40) 50 50) 1 /\
  proj1_sig (Level.random_enemy (seeded 7)).2 = s3.
Proof.
  intros s0 s1 s2 s3.
  apply (random_enemy_cpython (seeded 7) 331 s1 (-40) s2 1 s3); vm_compute; reflexivity.
Defined.

End PyRandom.
